(** * Profile merging (profile-logic/comparison.js), embedded in Rocq

    The development follows the JavaScript source function by function:
    [mergeCategories], [adjustCategories], [adjustNullableCategories] and
    [mergeProfiles].

    Modelling choices.
    - A JavaScript [number] is an IEEE 754 binary64 value: Rocq's primitive
      [float], with the same addition, negation and comparison, one NaN,
      two zeros and two infinities.
    - A JavaScript [Map] is a [gmap]; arrays are lists, read by index with
      [!!] ([None] stands for [undefined]).
    - [throw] is the [Throw] constructor of the [Result] monad; property
      access on [undefined] throws a [TypeError].
    - The loop of [mergeProfiles] mutates the selected threads, their
      tables and the committed range stacks in place.  It is embedded
      twice.  [mergeProfiles] is the loop on values, one per input, as
      they are when each input is an object of its own: the threads pushed
      to the result are the final values of the mutated objects, and the
      url states after the loop are returned next to the result, since the
      caller can observe the [pop].  [InPlace.mergeProfiles] is the loop on
      a store of objects read and written through references, with the
      sharing that the source allows: one thread listed in two profiles,
      one profile at two positions, one table behind two threads.
      [mergeProfiles_agrees] shows that the two compute the same for
      inputs that are separate objects; what depends on the objects being
      separate is stated on [InPlace].
    - The helpers imported from ./profile-data are the fields of the class
      [ProfileData]; those of ./process-profile and ./data-structures are
      modelled from the specification. *)

From Stdlib Require Import Floats ZArith Lia Ascii String DecimalString DecimalNat.
From stdpp Require Import gmap strings list fin_maps.

Open Scope string_scope.

(** ** JavaScript values *)

Module JS.

(** [number]: a binary64 float. *)
Abbreviation number := float.

(** Unary minus applied to an array read: [-a[0]].  Reading past the end
    gives [undefined], which [ToNumber] turns into NaN. *)
Definition negate (v : option number) : number :=
match v with
| Some x => (- x)%float
| None => nan
end.

(** One step of [Math.min]: NaN is contagious, and -0 is smaller than +0. *)
Definition min2 (lowest x : number) : number :=
if (is_nan x || is_nan lowest)%bool then nan
else if (x <? lowest)%float then x
else if (is_zero x && is_zero lowest && get_sign x)%bool then x
else lowest.

(** [Math.min(...values)]: +Infinity for no argument. *)
Definition Math_min (values : list number) : number :=
fold_left min2 values infinity.

(** [`${n}`] for a non-negative integer: its decimal digits. *)
Definition toString (n : nat) : string :=
NilEmpty.string_of_uint (Nat.to_uint n).

(** Truthiness of a string or [undefined] operand of [||]. *)
Definition orElse (v : option string) (other : string) : string :=
match v with
| Some s => if decide (s = "") then other else s
| None => other
end.

End JS.

(** ** Errors *)

(** The exceptions the merge can raise: the two [Error]s the source
    throws, with the number their message quotes, and the [TypeError] of
    the engine for a property read on [undefined] ([what] names the value
    that was missing). *)
Inductive Error :=
| NoThreadSelected (i : nat)
| CategoryNotFound (category : nat)
| TypeError (what : string).

(** The message of an exception; the text of a [TypeError] depends on the
    engine. *)
Definition errorMessage (e : Error) : string :=
match e with
| NoThreadSelected i => "No thread has been selected in profile " ++ JS.toString i
| CategoryNotFound category =>
    "Category with index " ++ JS.toString category
      ++ " hasn't been found in the translation map."
      ++ String "010"%char
           "This shouldn't happen and indicates a bug in the profiler's code."
| TypeError what => "Cannot read property of undefined: " ++ what
end.

Inductive Result (A : Type) :=
| Ok (a : A)
| Throw (e : Error).
Arguments Ok {A} a.
Arguments Throw {A} e.

#[global]
Instance Result_ret : MRet Result := fun A a => Ok a.

#[global]
Instance Result_bind : MBind Result := fun A B k r =>
match r with
| Ok a => k a
| Throw e => Throw e
end.

(** [array.map(f)] for a callback that may throw: elements are visited in
    order and the first exception ends the call. *)
Fixpoint arrayMap {A B} (f : A -> Result B) (l : list A) : Result (list B) :=
match l with
| [] => Ok []
| a :: l' => b ← f a; bs ← arrayMap f l'; Ok (b :: bs)
end.

(** ** Data model (types/profile.js, types/state.js) *)

Module Category.
Record t := mk { name : string; color : string }.
End Category.

Abbreviation CategoryList := (list Category.t).
Abbreviation IndexIntoCategoryList := nat.
Abbreviation TranslationMapForCategories := (gmap nat nat).

Module StackTable.
Record t := mk {
  frame : list nat;
  category : list IndexIntoCategoryList;
  prefix : list (option nat) }.
Definition set_category (c : list IndexIntoCategoryList) (s : t) : t :=
mk (frame s) c (prefix s).
End StackTable.

Module FrameTable.
Record t := mk {
  func : list nat;
  category : list (option IndexIntoCategoryList) }.
Definition set_category (c : list (option IndexIntoCategoryList)) (f : t) : t :=
mk (func f) c.
End FrameTable.

Module SamplesTable.
Record t := mk {
  time : list JS.number;
  stack : list (option nat) }.
End SamplesTable.

Module MarkersTable.
Record t := mk {
  time : list JS.number;
  name : list nat }.
End MarkersTable.

(** A thread.  [pid] is the text that [`${thread.pid}`] prints. *)
Module Thread.
Record t := mk {
  pid : string;
  processName : option string;
  name : string;
  registerTime : JS.number;
  unregisterTime : option JS.number;
  processStartupTime : JS.number;
  processShutdownTime : option JS.number;
  stackTable : StackTable.t;
  frameTable : FrameTable.t;
  samples : SamplesTable.t;
  markers : MarkersTable.t }.

Definition set_pid (v : string) (x : t) : t :=
mk v (processName x) (name x) (registerTime x) (unregisterTime x)
   (processStartupTime x) (processShutdownTime x) (stackTable x)
   (frameTable x) (samples x) (markers x).
Definition set_processName (v : option string) (x : t) : t :=
mk (pid x) v (name x) (registerTime x) (unregisterTime x)
   (processStartupTime x) (processShutdownTime x) (stackTable x)
   (frameTable x) (samples x) (markers x).
Definition set_registerTime (v : JS.number) (x : t) : t :=
mk (pid x) (processName x) (name x) v (unregisterTime x)
   (processStartupTime x) (processShutdownTime x) (stackTable x)
   (frameTable x) (samples x) (markers x).
Definition set_unregisterTime (v : option JS.number) (x : t) : t :=
mk (pid x) (processName x) (name x) (registerTime x) v
   (processStartupTime x) (processShutdownTime x) (stackTable x)
   (frameTable x) (samples x) (markers x).
Definition set_processStartupTime (v : JS.number) (x : t) : t :=
mk (pid x) (processName x) (name x) (registerTime x) (unregisterTime x)
   v (processShutdownTime x) (stackTable x)
   (frameTable x) (samples x) (markers x).
Definition set_processShutdownTime (v : option JS.number) (x : t) : t :=
mk (pid x) (processName x) (name x) (registerTime x) (unregisterTime x)
   (processStartupTime x) v (stackTable x)
   (frameTable x) (samples x) (markers x).
Definition set_stackTable (v : StackTable.t) (x : t) : t :=
mk (pid x) (processName x) (name x) (registerTime x) (unregisterTime x)
   (processStartupTime x) (processShutdownTime x) v
   (frameTable x) (samples x) (markers x).
Definition set_frameTable (v : FrameTable.t) (x : t) : t :=
mk (pid x) (processName x) (name x) (registerTime x) (unregisterTime x)
   (processStartupTime x) (processShutdownTime x) (stackTable x)
   v (samples x) (markers x).
Definition set_samples (v : SamplesTable.t) (x : t) : t :=
mk (pid x) (processName x) (name x) (registerTime x) (unregisterTime x)
   (processStartupTime x) (processShutdownTime x) (stackTable x)
   (frameTable x) v (markers x).
Definition set_markers (v : MarkersTable.t) (x : t) : t :=
mk (pid x) (processName x) (name x) (registerTime x) (unregisterTime x)
   (processStartupTime x) (processShutdownTime x) (stackTable x)
   (frameTable x) (samples x) v.
End Thread.

Module ProfileMeta.
Record t := mk {
  interval : JS.number;
  categories : CategoryList }.
End ProfileMeta.

Module Profile.
Record t := mk {
  meta : ProfileMeta.t;
  threads : list Thread.t }.
(** The profile once [threads[i]] has been mutated into [thread]. *)
Definition set_thread (i : nat) (thread : Thread.t) (p : t) : t :=
mk (meta p) (<[i := thread]> (threads p)).
End Profile.

Module StartEndRange.
Record t := mk { start : JS.number; end_ : JS.number }.
End StartEndRange.

Abbreviation TransformStack := (list string).
Abbreviation ImplementationFilter := string.

(** [urlState.profileSpecific].  [committedRanges] is a stack whose top is
    the last element of the array; the source guards against the field
    being absent, hence the option. *)
Module ProfileSpecific.
Record t := mk {
  selectedThread : option nat;
  transforms : gmap nat TransformStack;
  implementation : ImplementationFilter;
  committedRanges : option (list StartEndRange.t) }.
Definition set_committedRanges (v : option (list StartEndRange.t)) (x : t) : t :=
mk (selectedThread x) (transforms x) (implementation x) v.
End ProfileSpecific.

Module UrlState.
Record t := mk { profileSpecific : ProfileSpecific.t }.
End UrlState.

(** ** Imported helpers *)

(** ./profile-data: the three range utilities [mergeProfiles] calls.  Their
    source is not part of the merge code; the merge is defined, and its
    properties are proved, for every implementation of this interface. *)
Class ProfileData := {
  filterThreadSamplesToRange :
    Thread.t -> JS.number -> JS.number -> Thread.t;
  getTimeRangeForThread :
    Thread.t -> JS.number -> StartEndRange.t;
  getTimeRangeIncludingAllThreads :
    Profile.t -> StartEndRange.t }.

(** What the specification says of [filterThreadSamplesToRange]: only the
    samples and the markers of the thread are restricted, every other field
    is preserved. *)
Class ProfileDataLaws (PD : ProfileData) : Prop := {
  filter_preserves : forall thread rangeStart rangeEnd,
    filterThreadSamplesToRange thread rangeStart rangeEnd =
    Thread.set_markers
      (Thread.markers (filterThreadSamplesToRange thread rangeStart rangeEnd))
      (Thread.set_samples
         (Thread.samples (filterThreadSamplesToRange thread rangeStart rangeEnd))
         thread) }.

(** Modelled from the spec: [adjustSampleTimestamps] of ./process-profile,
    whose source is missing.  It adds [delta] to all sample times and
    leaves the other columns alone. *)
Definition adjustSampleTimestamps
  (samples : SamplesTable.t) (delta : JS.number) : SamplesTable.t :=
SamplesTable.mk
  (map (fun time => (time + delta)%float) (SamplesTable.time samples))
  (SamplesTable.stack samples).

(** Modelled from the spec: [adjustMarkerTimestamps] of ./process-profile,
    whose source is missing.  It adds [delta] to all marker times. *)
Definition adjustMarkerTimestamps
  (markers : MarkersTable.t) (delta : JS.number) : MarkersTable.t :=
MarkersTable.mk
  (map (fun time => (time + delta)%float) (MarkersTable.time markers))
  (MarkersTable.name markers).

(** Modelled from the spec: [getEmptyProfile] of ./data-structures, whose
    source is missing: a defaulted container with no thread and no
    category.  [mergeProfiles] overwrites both meta fields kept here. *)
Definition getEmptyProfile : Profile.t :=
Profile.mk (ProfileMeta.mk 1%float []) [].

(** ** mergeCategories *)

(** The three mutable locals of [mergeCategories] that the inner callback
    touches: [newCategories], [insertedCategories], and the
    [translationMap] of the list being visited. *)
Record CategoryLoop := mkCategoryLoop {
  newCategories : CategoryList;
  insertedCategories : gmap string IndexIntoCategoryList;
  translationMap : gmap nat nat }.

(** Body of the inner [categories.forEach((category, i) => ...)]. *)
Definition mergeCategory
  (i : nat) (category : Category.t) (st : CategoryLoop) : CategoryLoop :=
let name := Category.name category in
match insertedCategories st !! name with
| Some insertedCategoryIndex =>
    mkCategoryLoop (newCategories st) (insertedCategories st)
      (<[i := insertedCategoryIndex]> (translationMap st))
| None =>
    mkCategoryLoop
      (newCategories st ++ [category])
      (<[name := length (newCategories st)]> (insertedCategories st))
      (<[i := length (newCategories st)]> (translationMap st))
end.

(** The inner [forEach], from index [i] on. *)
Fixpoint forEachCategory
  (i : nat) (categories : CategoryList) (st : CategoryLoop) : CategoryLoop :=
match categories with
| [] => st
| category :: rest => forEachCategory (S i) rest (mergeCategory i category st)
end.

(** The locals of [mergeCategories] between two rounds of the outer loop. *)
Record CategoriesAcc := mkCategoriesAcc {
  accCategories : CategoryList;
  accInserted : gmap string IndexIntoCategoryList;
  accTranslationMaps : list (gmap nat nat) }.

(** Body of the outer [categoriesPerThread.forEach(categories => ...)]: a
    fresh translation map is pushed, then filled. *)
Definition mergeCategoryList
  (acc : CategoriesAcc) (categories : CategoryList) : CategoriesAcc :=
let st :=
  forEachCategory 0 categories
    (mkCategoryLoop (accCategories acc) (accInserted acc) ∅) in
mkCategoriesAcc (newCategories st) (insertedCategories st)
  (accTranslationMaps acc ++ [translationMap st]).

Definition mergeCategories (categoriesPerThread : list CategoryList)
  : CategoryList * list (gmap nat nat) :=
let acc := fold_left mergeCategoryList categoriesPerThread
             (mkCategoriesAcc [] ∅ []) in
(accCategories acc, accTranslationMaps acc).

(** ** adjustCategories and adjustNullableCategories *)

Definition adjustCategories
  (categories : list IndexIntoCategoryList) (translationMap : gmap nat nat)
  : Result (list IndexIntoCategoryList) :=
arrayMap (fun category =>
  match translationMap !! category with
  | None => Throw (CategoryNotFound category)
  | Some result => Ok result
  end) categories.

Definition adjustNullableCategories
  (categories : list (option IndexIntoCategoryList))
  (translationMap : gmap nat nat)
  : Result (list (option IndexIntoCategoryList)) :=
arrayMap (fun category =>
  match category with
  | None => Ok None
  | Some category =>
      match translationMap !! category with
      | None => Throw (CategoryNotFound category)
      | Some result => Ok (Some result)
      end
  end) categories.

(** ** mergeProfiles *)

(** [committedRanges && committedRanges.pop()]: the popped range, if any,
    and the url state after the call. *)
Definition popCommittedRange (profileSpecific : ProfileSpecific.t)
  : option StartEndRange.t * ProfileSpecific.t :=
match ProfileSpecific.committedRanges profileSpecific with
| None => (None, profileSpecific)
| Some ranges =>
    (last ranges,
     ProfileSpecific.set_committedRanges (Some (removelast ranges))
       profileSpecific)
end.

(** The values one round of the loop of [mergeProfiles] works on: the
    profile and its selected thread as mutated so far, what is read from
    the url state, and the url state as mutated so far. *)
Record LoopRound := mkLoopRound {
  roundProfile : Profile.t;
  roundThread : Thread.t;
  roundTransformStack : option TransformStack;
  roundImplementation : ImplementationFilter;
  roundState : UrlState.t }.

(** The locals of [mergeProfiles] that the loop updates, and the url states
    already visited, as the loop leaves them. *)
Record MergeLoop := mkMergeLoop {
  loopThreads : list Thread.t;
  loopTransformStacks : gmap nat (option TransformStack);
  loopImplementationFilters : list ImplementationFilter;
  loopStates : list UrlState.t }.

(** The value returned by [mergeProfiles], and [profileStatesAfter]: the
    url states of the caller once the call has returned. *)
Record MergeOutput := mkMergeOutput {
  profile : Profile.t;
  transformStacks : gmap nat (option TransformStack);
  implementationFilters : list ImplementationFilter;
  profileStatesAfter : list UrlState.t }.

Section Merge.
Context {PD : ProfileData}.

(** Lines 80-90: the committed range, relative to the start of the whole
    profile, crops the selected thread. *)
Definition cropToCommittedRange
  (zeroAt : JS.number) (committedRange : option StartEndRange.t)
  (thread : Thread.t) : Thread.t :=
match committedRange with
| Some committedRange =>
    filterThreadSamplesToRange thread
      (StartEndRange.start committedRange + zeroAt)%float
      (StartEndRange.end_ committedRange + zeroAt)%float
| None => thread
end.

(** Lines 92-95: the pid and the process name get the 1-based ordinal. *)
Definition resetProcessIdentity (i : nat) (thread : Thread.t) : Thread.t :=
let thread :=
  Thread.set_pid
    (Thread.pid thread ++ " from profile " ++ JS.toString (i + 1)) thread in
Thread.set_processName
  (Some ("Profile " ++ JS.toString (i + 1) ++ ": "
           ++ JS.orElse (Thread.processName thread) (Thread.name thread)))
  thread.

(** Line 99. *)
Definition startTimeAdjustment (thread : Thread.t) : JS.number :=
JS.negate (SamplesTable.time (Thread.samples thread) !! 0).

(** Lines 99-115: every time of the thread moves by [startTimeAdjustment]. *)
Definition alignStart (thread : Thread.t) : Thread.t :=
let startTimeAdjustment := startTimeAdjustment thread in
let thread :=
  Thread.set_samples
    (adjustSampleTimestamps (Thread.samples thread) startTimeAdjustment)
    thread in
let thread :=
  Thread.set_markers
    (adjustMarkerTimestamps (Thread.markers thread) startTimeAdjustment)
    thread in
let thread :=
  Thread.set_registerTime
    (Thread.registerTime thread + startTimeAdjustment)%float thread in
let thread :=
  Thread.set_processStartupTime
    (Thread.processStartupTime thread + startTimeAdjustment)%float thread in
let thread :=
  match Thread.processShutdownTime thread with
  | Some processShutdownTime =>
      Thread.set_processShutdownTime
        (Some (processShutdownTime + startTimeAdjustment)%float) thread
  | None => thread
  end in
match Thread.unregisterTime thread with
| Some unregisterTime =>
    Thread.set_unregisterTime
      (Some (unregisterTime + startTimeAdjustment)%float) thread
| None => thread
end.

(** Lines 123-128. *)
Definition synthesizeUnregisterTime
  (profile : Profile.t) (thread : Thread.t) : Thread.t :=
match Thread.processShutdownTime thread, Thread.unregisterTime thread with
| None, None =>
    Thread.set_unregisterTime
      (Some (StartEndRange.end_
               (getTimeRangeForThread thread
                  (ProfileMeta.interval (Profile.meta profile)))))
      thread
| _, _ => thread
end.

(** Lines 70-78: both category columns are rewritten with the translation
    map of the profile.  The stack table is assigned before the frame table
    is looked at. *)
Definition remapCategories
  (translationMap : gmap nat nat) (thread : Thread.t) : Result Thread.t :=
stackCategory ←
  adjustCategories (StackTable.category (Thread.stackTable thread))
    translationMap;
let thread :=
  Thread.set_stackTable
    (StackTable.set_category stackCategory (Thread.stackTable thread))
    thread in
frameCategory ←
  adjustNullableCategories (FrameTable.category (Thread.frameTable thread))
    translationMap;
Ok (Thread.set_frameTable
      (FrameTable.set_category frameCategory (Thread.frameTable thread))
      thread).

(** Lines 92-128 in one piece: the timestamp and identity normalizer of
    the specification. *)
Definition normalizeThread
  (i : nat) (profile : Profile.t) (thread : Thread.t) : Thread.t :=
synthesizeUnregisterTime profile (alignStart (resetProcessIdentity i thread)).

(** First half of the body of the [for] loop, lines 60-90: the selected
    thread is read, its categories are remapped, and the committed range,
    if any, is popped and applied.  [profiles !! i] and
    [threads !! selectedThreadIndex] may be [undefined]; the property reads
    [profile.threads] and [thread.stackTable] then throw.
    [translationMapsForCategories] has one entry per profile, so its read
    cannot miss once [profiles !! i] is there. *)
Definition selectInput
  (profiles : list Profile.t)
  (translationMapsForCategories : list (gmap nat nat))
  (i : nat) (state : UrlState.t) : Result LoopRound :=
let profileSpecific := UrlState.profileSpecific state in
match ProfileSpecific.selectedThread profileSpecific with
| None => Throw (NoThreadSelected i)
| Some selectedThreadIndex =>
  match profiles !! i with
  | None => Throw (TypeError "profile")
  | Some profile =>
    match Profile.threads profile !! selectedThreadIndex with
    | None => Throw (TypeError "thread")
    | Some thread =>
      match translationMapsForCategories !! i with
      | None => Throw (TypeError "translationMap")
      | Some translationMap =>
        thread ← remapCategories translationMap thread;
        (* the profile, seen after the mutation of its selected thread *)
        let profile := Profile.set_thread selectedThreadIndex thread profile in
        let zeroAt :=
          StartEndRange.start (getTimeRangeIncludingAllThreads profile) in
        let '(committedRange, profileSpecific') :=
          popCommittedRange profileSpecific in
        let thread := cropToCommittedRange zeroAt committedRange thread in
        Ok (mkLoopRound profile thread
              (ProfileSpecific.transforms profileSpecific !! selectedThreadIndex)
              (ProfileSpecific.implementation profileSpecific)
              (UrlState.mk profileSpecific'))
      end
    end
  end
end.

(** Body of the [for] loop, lines 60-130: the selected thread, once
    remapped and cropped, is normalized; it is then pushed by
    [mergeLoop]. *)
Definition mergeInput
  (profiles : list Profile.t)
  (translationMapsForCategories : list (gmap nat nat))
  (i : nat) (state : UrlState.t) : Result LoopRound :=
round ← selectInput profiles translationMapsForCategories i state;
Ok (mkLoopRound (roundProfile round)
      (normalizeThread i (roundProfile round) (roundThread round))
      (roundTransformStack round) (roundImplementation round)
      (roundState round)).

(** The [for] loop from index [i] on, over the url states not yet visited. *)
Fixpoint mergeLoop
  (profiles : list Profile.t)
  (translationMapsForCategories : list (gmap nat nat))
  (i : nat) (profileStates : list UrlState.t) (acc : MergeLoop)
  : Result MergeLoop :=
match profileStates with
| [] => Ok acc
| state :: rest =>
    r ← mergeInput profiles translationMapsForCategories i state;
    mergeLoop profiles translationMapsForCategories (S i) rest
      (mkMergeLoop
         (loopThreads acc ++ [roundThread r])
         (<[i := roundTransformStack r]> (loopTransformStacks acc))
         (loopImplementationFilters acc ++ [roundImplementation r])
         (loopStates acc ++ [roundState r]))
end.

Definition mergeProfiles
  (profiles : list Profile.t) (profileStates : list UrlState.t)
  : Result MergeOutput :=
let resultProfile := getEmptyProfile in
let interval :=
  JS.Math_min
    (map (fun profile => ProfileMeta.interval (Profile.meta profile))
       profiles) in
let '(newCategories, translationMapsForCategories) :=
  mergeCategories
    (map (fun profile => ProfileMeta.categories (Profile.meta profile))
       profiles) in
acc ← mergeLoop profiles translationMapsForCategories 0 profileStates
        (mkMergeLoop (Profile.threads resultProfile) ∅ [] []);
Ok (mkMergeOutput
      (Profile.mk (ProfileMeta.mk interval newCategories) (loopThreads acc))
      (loopTransformStacks acc)
      (loopImplementationFilters acc)
      (loopStates acc)).

End Merge.

(** The translation maps [mergeProfiles] computes before its loop. *)
Definition translationMapsOf (profiles : list Profile.t)
  : list (gmap nat nat) :=
(mergeCategories
   (map (fun profile => ProfileMeta.categories (Profile.meta profile))
      profiles)).2.

(** ** A reference implementation of ./profile-data *)

Module SpecProfileData.

(** [Math.max], the mirror image of [JS.min2]. *)
Definition max2 (highest x : JS.number) : JS.number :=
if (is_nan x || is_nan highest)%bool then nan
else if (highest <? x)%float then x
else if (is_zero x && is_zero highest && get_sign highest)%bool then x
else highest.

Definition inRange (rangeStart rangeEnd time : JS.number) : bool :=
((rangeStart <=? time) && (time <? rangeEnd))%float%bool.

(** Modelled from the spec: [filterThreadSamplesToRange] of ./profile-data,
    whose source is missing.  The samples and the markers whose time lies
    in the closed-open interval are kept, the other fields are preserved. *)
Definition filterThreadSamplesToRange
  (thread : Thread.t) (rangeStart rangeEnd : JS.number) : Thread.t :=
let keep {A} (row : JS.number * A) := inRange rangeStart rangeEnd row.1 in
let samples :=
  filter keep
    (zip (SamplesTable.time (Thread.samples thread))
       (SamplesTable.stack (Thread.samples thread))) in
let markers :=
  filter keep
    (zip (MarkersTable.time (Thread.markers thread))
       (MarkersTable.name (Thread.markers thread))) in
Thread.set_markers (MarkersTable.mk markers.*1 markers.*2)
  (Thread.set_samples (SamplesTable.mk samples.*1 samples.*2) thread).

(** Modelled from the spec: [getTimeRangeForThread] of ./profile-data,
    whose source is missing.  The range runs from the first sample to one
    sampling interval after the last one; with no sample it is empty. *)
Definition getTimeRangeForThread
  (thread : Thread.t) (interval : JS.number) : StartEndRange.t :=
let time := SamplesTable.time (Thread.samples thread) in
match time !! 0, last time with
| Some first, Some final => StartEndRange.mk first (final + interval)%float
| _, _ => StartEndRange.mk infinity neg_infinity
end.

(** Modelled from the spec: [getTimeRangeIncludingAllThreads] of
    ./profile-data, whose source is missing: the smallest start and the
    largest end over the threads of the profile. *)
Definition getTimeRangeIncludingAllThreads
  (profile : Profile.t) : StartEndRange.t :=
let ranges :=
  map (fun thread =>
         getTimeRangeForThread thread
           (ProfileMeta.interval (Profile.meta profile)))
    (Profile.threads profile) in
StartEndRange.mk
  (JS.Math_min (map StartEndRange.start ranges))
  (fold_left max2 (map StartEndRange.end_ ranges) neg_infinity).

#[export]
Instance instance : ProfileData := {
  filterThreadSamplesToRange := filterThreadSamplesToRange;
  getTimeRangeForThread := getTimeRangeForThread;
  getTimeRangeIncludingAllThreads := getTimeRangeIncludingAllThreads }.

End SpecProfileData.

(** ** Sample inputs *)

Module Sample.

Definition catA := Category.mk "Idle" "transparent".
Definition catB := Category.mk "Other" "grey".
Definition catB' := Category.mk "Other" "blue".
Definition catC := Category.mk "Layout" "purple".

(** A thread with three samples, a stack table of two stacks and a frame
    table of two frames, one of them without category. *)
Definition thread (pid : string) (processName : option string)
  (firstCategory : nat) (start : JS.number) : Thread.t :=
Thread.mk pid processName "GeckoMain"
  start None start None
  (StackTable.mk [0; 1] [firstCategory; 1] [None; Some 0])
  (FrameTable.mk [0; 1] [Some 1; None])
  (SamplesTable.mk [start; start + 1; start + 2]%float [Some 0; Some 1; None])
  (MarkersTable.mk [start + 0.5]%float [0]).

Definition profile1 : Profile.t :=
Profile.mk (ProfileMeta.mk 1%float [catA; catB])
  [thread "1234" (Some "Web Content") 0 100%float].

Definition profile2 : Profile.t :=
Profile.mk (ProfileMeta.mk 0.5%float [catB'; catC])
  [thread "0" None 0 5%float;
   Thread.set_unregisterTime (Some 9000%float)
     (thread "1234" (Some "") 0 7000%float)].

Definition state (selectedThread : option nat)
  (committedRanges : list StartEndRange.t) : UrlState.t :=
UrlState.mk
  (ProfileSpecific.mk selectedThread
     {[ 0 := ["focus-subtree"] ]} "combined" (Some committedRanges)).

Definition states : list UrlState.t :=
[ state (Some 0) [];
  state (Some 1) [StartEndRange.mk 0 10; StartEndRange.mk 6996 6998]%float ].

(** The two profiles and url states handed to [mergeProfiles], and what it
    returns for them with the reference helpers. *)
Definition profiles : list Profile.t := [profile1; profile2].

Definition merged : MergeOutput :=
match mergeProfiles (PD := SpecProfileData.instance) profiles states with
| Ok out => out
| Throw _ => mkMergeOutput getEmptyProfile ∅ [] []
end.

(** Url states of a caller that breaks the contract: a selection past the
    end of the thread list, then no selection at all. *)
Definition staleStates : list UrlState.t :=
[ state (Some 5) []; state None [] ].

End Sample.

(** ** The specification of the category merge, in its own words *)

(** "First occurrence of a name wins; later duplicates are pure aliases":
    the list of the first occurrences of each name, in scanning order. *)
Fixpoint firstOccurrences (scanned : CategoryList) : CategoryList :=
match scanned with
| [] => []
| category :: rest =>
    category ::
      filter (fun later => Category.name later <> Category.name category)
        (firstOccurrences rest)
end.

(** The first category of a list that bears a name, with its index. *)
Definition firstWithName (name : string) (l : CategoryList)
  : option (nat * Category.t) :=
list_find (fun category => Category.name category = name) l.

(** Invariant of both loops of [mergeCategories], once the categories of
    [scanned] have been visited. *)
Definition categoriesInv (scanned merged : CategoryList)
  (inserted : gmap string nat) : Prop :=
merged = firstOccurrences scanned /\
forall n, inserted !! n = fst <$> firstWithName n merged.

(** A string without a space character. *)
Definition spaceless (d : string) : Prop :=
forall a b, d <> a ++ String " " b.

(** The category-reference invariant of the data model: a category index
    points into the category list. *)
Definition validCategories (categories : CategoryList) (thread : Thread.t)
  : Prop :=
Forall (fun category => category < length categories)
  (StackTable.category (Thread.stackTable thread)) /\
Forall (fun category =>
          match category with
          | Some category => category < length categories
          | None => True
          end)
  (FrameTable.category (Thread.frameTable thread)).

(** ** The context menu of the marker table
       (components/marker-table/ContextMenu.js)

    The handlers of [MarkersContextMenu] read the props of the component
    and call [updatePreviewSelection] or [copy] at most once: a handler is
    a function from the props to the call it makes, if any.  The three
    call-node helpers it imports are the fields of [CallNodeHelpers].
    [copyMarkerJSON] is left out: it rests on [JSON.stringify]. *)

Module MarkersContextMenu.

(** [x || other] for a number [x]: 0, -0 and NaN are falsy. *)
Definition numberOrElse (x other : JS.number) : JS.number :=
if (is_zero x || is_nan x)%bool then other else x.

(** The number that the literal [0.0001] denotes. *)
Definition smallDuration : JS.number := 0x1.a36e2eb1c432dp-14%float.

(** [array.join(separator)] on strings. *)
Fixpoint join (separator : string) (l : list string) : string :=
match l with
| [] => ""
| [s] => s
| s :: rest => s ++ separator ++ join separator rest
end.

Module CauseBacktrace.
Record t := mk { stack : nat }.
End CauseBacktrace.

Module Payload.
Record t := mk { cause : option CauseBacktrace.t }.
End Payload.

Module Marker.
Record t := mk {
  start : JS.number;
  dur : JS.number;
  name : string;
  data : option Payload.t }.
End Marker.

(** The two shapes of a preview selection: [hasSelection] false, or true
    with its bounds. *)
Inductive PreviewSelection :=
| NoSelection
| Selection (isModifying : bool) (selectionStart selectionEnd : JS.number).

Module FuncNameAndOrigin.
Record t := mk { funcName : string; origin : string }.
End FuncNameAndOrigin.

Abbreviation CallNodePath := (list nat).

Class CallNodeHelpers := {
  filterCallNodePathByImplementation :
    Thread.t -> ImplementationFilter -> CallNodePath -> CallNodePath;
  convertStackToCallNodePath : Thread.t -> nat -> CallNodePath;
  getFuncNamesAndOriginsForPath :
    CallNodePath -> Thread.t -> list FuncNameAndOrigin.t }.

(** [selectedMarker] is a number: an index, or -1 when no marker is
    selected. *)
Record Props := mkProps {
  markers : list Marker.t;
  previewSelection : PreviewSelection;
  committedRange : StartEndRange.t;
  selectedMarker : Z;
  thread : Thread.t;
  implementationFilter : ImplementationFilter }.

Definition set_previewSelection (v : PreviewSelection) (props : Props) : Props :=
mkProps (markers props) v (committedRange props) (selectedMarker props)
  (thread props) (implementationFilter props).

(** The call a handler makes. *)
Inductive Call :=
| UpdatePreviewSelection (selection : PreviewSelection)
| Copy (text : string).

Inductive MenuItem :=
| SetStartRange
| SetEndRange
| CopyMarkerJSON
| CopyMarkerName
| CopyMarkerCause.

(** [markers[selectedMarker]]: [undefined] outside the array. *)
Definition selected (props : Props) : option Marker.t :=
if (selectedMarker props <? 0)%Z then None
else markers props !! Z.to_nat (selectedMarker props).

Definition setStartRange (props : Props) : Result Call :=
let selectionEnd :=
  match previewSelection props with
  | Selection _ _ selectionEnd => selectionEnd
  | NoSelection => StartEndRange.end_ (committedRange props)
  end in
match selected props with
| None => Throw (TypeError "marker")
| Some marker =>
    Ok (UpdatePreviewSelection
          (Selection false (Marker.start marker) selectionEnd))
end.

Definition setEndRange (props : Props) : Result Call :=
let selectionStart :=
  match previewSelection props with
  | Selection _ selectionStart _ => selectionStart
  | NoSelection => StartEndRange.start (committedRange props)
  end in
match selected props with
| None => Throw (TypeError "marker")
| Some marker =>
    Ok (UpdatePreviewSelection
          (Selection false selectionStart
             (Marker.start marker
              + numberOrElse (Marker.dur marker) smallDuration)%float))
end.

Definition copyMarkerName (props : Props) : Result Call :=
match selected props with
| None => Throw (TypeError "marker")
| Some marker => Ok (Copy (Marker.name marker))
end.

Section Handlers.
Context {H : CallNodeHelpers}.

Definition convertStackToString (props : Props) (stack : nat) : string :=
let callNodePath :=
  filterCallNodePathByImplementation (thread props)
    (implementationFilter props)
    (convertStackToCallNodePath (thread props) stack) in
let funcNamesAndOrigins :=
  getFuncNamesAndOriginsForPath callNodePath (thread props) in
join (String "010"%char "")
  (map (fun fo =>
          FuncNameAndOrigin.funcName fo ++ " ["
            ++ FuncNameAndOrigin.origin fo ++ "]")
     funcNamesAndOrigins).

(** [None]: the handler returns without a call.  The guard is
    [marker && marker.data && marker.data.cause]. *)
Definition copyMarkerCause (props : Props) : Result (option Call) :=
match selected props with
| Some marker =>
    match Marker.data marker with
    | Some data =>
        match Payload.cause data with
        | Some cause =>
            Ok (Some (Copy (convertStackToString props
                              (CauseBacktrace.stack cause))))
        | None => Ok None
        end
    | None => Ok None
    end
| None => Ok None
end.

End Handlers.

(** The items of the menu [render] returns, in order. *)
Definition render (props : Props) : list MenuItem :=
let marker := selected props in
[SetStartRange; SetEndRange; CopyMarkerJSON; CopyMarkerName]
  ++ match marker with
     | Some marker =>
         match Marker.data marker with
         | Some data =>
             match Payload.cause data with
             | Some _ => [CopyMarkerCause]
             | None => []
             end
         | None => []
         end
     | None => []
     end.

End MarkersContextMenu.

(** ** Further sample inputs *)

Module SampleMore.

(** A profile whose only thread uses category 7 of a list of two. *)
Definition danglingProfile : Profile.t :=
Profile.mk (ProfileMeta.mk 1%float [Sample.catA; Sample.catB])
  [Sample.thread "1" None 7 0%float].

(** A profile whose only thread has its first sample at 0. *)
Definition alignedProfile : Profile.t :=
Profile.mk (ProfileMeta.mk 1%float [Sample.catA; Sample.catB])
  [Thread.set_unregisterTime (Some 8%float)
     (Sample.thread "1" None 0 0%float)].

Definition alignedMerged : MergeOutput :=
match mergeProfiles (PD := SpecProfileData.instance)
        [alignedProfile] [Sample.state (Some 0) []] with
| Ok out => out
| Throw _ => mkMergeOutput getEmptyProfile ∅ [] []
end.

(** The props of the context menu: two markers, the second one selected,
    a preview selection from 1 to 9 inside the committed range. *)
Definition menuProps : MarkersContextMenu.Props :=
MarkersContextMenu.mkProps
  [ MarkersContextMenu.Marker.mk 2%float 3%float "Reflow"
      (Some (MarkersContextMenu.Payload.mk
               (Some (MarkersContextMenu.CauseBacktrace.mk 1))));
    MarkersContextMenu.Marker.mk 4%float 0%float "Styles" None ]
  (MarkersContextMenu.Selection true 1%float 9%float)
  (StartEndRange.mk 0%float 10%float)
  1%Z
  (Sample.thread "1" None 0 0%float)
  "combined".

End SampleMore.

(** ** The merge on the objects it mutates

    [mergeProfiles] above works on values.  The source works on objects:
    it reads [profile.threads[selectedThreadIndex]] by reference, assigns
    the category columns of the tables that thread refers to, pops the
    array of committed ranges, assigns the fields of the thread (or of the
    copy that [filterThreadSamplesToRange] returned) and pushes that very
    object.  [InPlace] is the same loop on a store of objects: thread
    objects, stack tables, frame tables and arrays of committed ranges,
    each read and written through a reference.  A profile lists references
    to its threads; the same reference may stand in two profiles, and the
    same profile at two positions. *)

(** A reference: the position of the object in the store. *)
Abbreviation ref := nat.

(** A thread object.  The tables it refers to are objects of their own;
    [samples] and [markers] are replaced as a whole by the merge, never
    written into. *)
Module ThreadObject.
Record t := mk {
  pid : string;
  processName : option string;
  name : string;
  registerTime : JS.number;
  unregisterTime : option JS.number;
  processStartupTime : JS.number;
  processShutdownTime : option JS.number;
  stackTable : ref;
  frameTable : ref;
  samples : SamplesTable.t;
  markers : MarkersTable.t }.

(** The thread as a value, given the tables its references lead to. *)
Definition read (stack : StackTable.t) (frame : FrameTable.t) (o : t)
  : Thread.t :=
Thread.mk (pid o) (processName o) (name o) (registerTime o)
  (unregisterTime o) (processStartupTime o) (processShutdownTime o)
  stack frame (samples o) (markers o).

(** The object once its own fields have been assigned those of [thread];
    it refers to the same tables. *)
Definition assign (thread : Thread.t) (o : t) : t :=
mk (Thread.pid thread) (Thread.processName thread) (Thread.name thread)
  (Thread.registerTime thread) (Thread.unregisterTime thread)
  (Thread.processStartupTime thread) (Thread.processShutdownTime thread)
  (stackTable o) (frameTable o)
  (Thread.samples thread) (Thread.markers thread).
End ThreadObject.

(** A profile object: the merge reads [meta] and the [threads] array and
    writes neither. *)
Module ProfileObject.
Record t := mk {
  meta : ProfileMeta.t;
  threads : list ref }.
End ProfileObject.

(** [urlState.profileSpecific]; [committedRanges] refers to an array. *)
Module UrlStateObject.
Record t := mk {
  selectedThread : option nat;
  transforms : gmap nat TransformStack;
  implementation : ImplementationFilter;
  committedRanges : option ref }.
End UrlStateObject.

(** The objects the merge can reach. *)
Record Store := mkStore {
  threadObjects : list ThreadObject.t;
  stackTables : list StackTable.t;
  frameTables : list FrameTable.t;
  rangeStacks : list (list StartEndRange.t) }.

Definition set_threadObjects (v : list ThreadObject.t) (s : Store) : Store :=
mkStore v (stackTables s) (frameTables s) (rangeStacks s).
Definition set_stackTables (v : list StackTable.t) (s : Store) : Store :=
mkStore (threadObjects s) v (frameTables s) (rangeStacks s).
Definition set_frameTables (v : list FrameTable.t) (s : Store) : Store :=
mkStore (threadObjects s) (stackTables s) v (rangeStacks s).
Definition set_rangeStacks (v : list (list StartEndRange.t)) (s : Store)
  : Store :=
mkStore (threadObjects s) (stackTables s) (frameTables s) v.

(** What a reader of the store sees behind a thread reference. *)
Definition readThread (store : Store) (thread : ref) : option Thread.t :=
o ← threadObjects store !! thread;
stack ← stackTables store !! ThreadObject.stackTable o;
frame ← frameTables store !! ThreadObject.frameTable o;
Some (ThreadObject.read stack frame o).

Definition readProfile (store : Store) (p : ProfileObject.t)
  : option Profile.t :=
threads ← mapM (readThread store) (ProfileObject.threads p);
Some (Profile.mk (ProfileObject.meta p) threads).

Definition readUrlState (store : Store) (s : UrlStateObject.t) : UrlState.t :=
UrlState.mk
  (ProfileSpecific.mk (UrlStateObject.selectedThread s)
     (UrlStateObject.transforms s) (UrlStateObject.implementation s)
     (r ← UrlStateObject.committedRanges s; rangeStacks store !! r)).

Module InPlace.

(** [committedRanges && committedRanges.pop()] on the array itself. *)
Definition popCommittedRange (store : Store) (s : UrlStateObject.t)
  : option StartEndRange.t * Store :=
match UrlStateObject.committedRanges s with
| None => (None, store)
| Some r =>
    match rangeStacks store !! r with
    | None => (None, store)
    | Some ranges =>
        (last ranges,
         set_rangeStacks (<[r := removelast ranges]> (rangeStacks store))
           store)
    end
end.

(** What one round of the loop leaves: the store, the thread that line
    130 pushes, and what lines 67 and 68 read from the url state. *)
Record Round := mkRound {
  roundStore : Store;
  roundPushed : ref;
  roundTransformStack : option TransformStack;
  roundImplementation : ImplementationFilter }.

(** The locals of [mergeProfiles] that the loop updates, and the store as
    the loop leaves it. *)
Record MergeLoop := mkMergeLoop {
  loopStore : Store;
  loopThreads : list ref;
  loopTransformStacks : gmap nat (option TransformStack);
  loopImplementationFilters : list ImplementationFilter }.

(** The value returned by [mergeProfiles], whose profile is the empty
    profile with its interval, categories and threads filled in, and the
    store after the call. *)
Record MergeOutput := mkMergeOutput {
  store : Store;
  profile : ProfileObject.t;
  transformStacks : gmap nat (option TransformStack);
  implementationFilters : list ImplementationFilter }.

Section Merge.
Context {PD : ProfileData}.

(** Modelled from the spec: the thread [filterThreadSamplesToRange]
    returns is a new thread, with the samples and the markers restricted
    to the range and every other field preserved: the copy refers to the
    tables of its argument. *)
Definition cropToCommittedRange
  (zeroAt : JS.number) (committedRange : option StartEndRange.t)
  (thread : Thread.t) : Thread.t :=
match committedRange with
| Some committedRange =>
    let filtered :=
      filterThreadSamplesToRange thread
        (StartEndRange.start committedRange + zeroAt)%float
        (StartEndRange.end_ committedRange + zeroAt)%float in
    Thread.set_markers (Thread.markers filtered)
      (Thread.set_samples (Thread.samples filtered) thread)
| None => thread
end.

(** Body of the [for] loop, lines 60-128, on the store.  A reference that
    leads nowhere reads as [undefined]. *)
Definition mergeInput
  (profiles : list ProfileObject.t)
  (translationMapsForCategories : list (gmap nat nat))
  (i : nat) (profileSpecific : UrlStateObject.t) (store : Store)
  : Result Round :=
match UrlStateObject.selectedThread profileSpecific with
| None => Throw (NoThreadSelected i)
| Some selectedThreadIndex =>
  match profiles !! i with
  | None => Throw (TypeError "profile")
  | Some profile =>
    match ProfileObject.threads profile !! selectedThreadIndex with
    | None => Throw (TypeError "thread")
    | Some thread =>
      match threadObjects store !! thread,
            translationMapsForCategories !! i with
      | None, _ => Throw (TypeError "thread")
      | Some _, None => Throw (TypeError "translationMap")
      | Some o, Some translationMap =>
        (* lines 71-74 *)
        match stackTables store !! ThreadObject.stackTable o with
        | None => Throw (TypeError "stackTable")
        | Some stackTable =>
          stackCategory ←
            adjustCategories (StackTable.category stackTable) translationMap;
          let stackTable := StackTable.set_category stackCategory stackTable in
          let store :=
            set_stackTables
              (<[ThreadObject.stackTable o := stackTable]> (stackTables store))
              store in
          (* lines 75-78 *)
          match frameTables store !! ThreadObject.frameTable o with
          | None => Throw (TypeError "frameTable")
          | Some frameTable =>
            frameCategory ←
              adjustNullableCategories (FrameTable.category frameTable)
                translationMap;
            let frameTable :=
              FrameTable.set_category frameCategory frameTable in
            let store :=
              set_frameTables
                (<[ThreadObject.frameTable o := frameTable]>
                   (frameTables store))
                store in
            (* line 81: the helper reads every thread of the profile *)
            match readProfile store profile with
            | None => Throw (TypeError "threads")
            | Some whole =>
              let zeroAt :=
                StartEndRange.start (getTimeRangeIncludingAllThreads whole) in
              (* lines 82-83 *)
              let '(committedRange, store) :=
                popCommittedRange store profileSpecific in
              (* lines 84-128: the fields that the thread, or its copy,
                 ends with *)
              let cropped :=
                cropToCommittedRange zeroAt committedRange
                  (ThreadObject.read stackTable frameTable o) in
              let merged :=
                ThreadObject.assign (normalizeThread i whole cropped) o in
              match committedRange with
              | Some _ =>
                  (* the copy is a new object *)
                  Ok (mkRound
                        (set_threadObjects (threadObjects store ++ [merged])
                           store)
                        (length (threadObjects store))
                        (UrlStateObject.transforms profileSpecific
                           !! selectedThreadIndex)
                        (UrlStateObject.implementation profileSpecific))
              | None =>
                  Ok (mkRound
                        (set_threadObjects
                           (<[thread := merged]> (threadObjects store)) store)
                        thread
                        (UrlStateObject.transforms profileSpecific
                           !! selectedThreadIndex)
                        (UrlStateObject.implementation profileSpecific))
              end
            end
          end
        end
      end
    end
  end
end.

(** The [for] loop from index [i] on, over the url states not yet visited. *)
Fixpoint mergeLoop
  (profiles : list ProfileObject.t)
  (translationMapsForCategories : list (gmap nat nat))
  (i : nat) (profileStates : list UrlStateObject.t) (acc : MergeLoop)
  : Result MergeLoop :=
match profileStates with
| [] => Ok acc
| profileSpecific :: rest =>
    r ← mergeInput profiles translationMapsForCategories i profileSpecific
          (loopStore acc);
    mergeLoop profiles translationMapsForCategories (S i) rest
      (mkMergeLoop (roundStore r)
         (loopThreads acc ++ [roundPushed r])
         (<[i := roundTransformStack r]> (loopTransformStacks acc))
         (loopImplementationFilters acc ++ [roundImplementation r]))
end.

Definition mergeProfiles
  (store : Store) (profiles : list ProfileObject.t)
  (profileStates : list UrlStateObject.t) : Result MergeOutput :=
let interval :=
  JS.Math_min
    (map (fun profile => ProfileMeta.interval (ProfileObject.meta profile))
       profiles) in
let '(newCategories, translationMapsForCategories) :=
  mergeCategories
    (map (fun profile => ProfileMeta.categories (ProfileObject.meta profile))
       profiles) in
acc ← mergeLoop profiles translationMapsForCategories 0 profileStates
        (mkMergeLoop store [] ∅ []);
Ok (mkMergeOutput (loopStore acc)
      (ProfileObject.mk (ProfileMeta.mk interval newCategories)
         (loopThreads acc))
      (loopTransformStacks acc)
      (loopImplementationFilters acc)).

End Merge.

(** The translation maps [mergeProfiles] computes before its loop. *)
Definition translationMapsOf (profiles : list ProfileObject.t)
  : list (gmap nat nat) :=
(mergeCategories
   (map (fun profile => ProfileMeta.categories (ProfileObject.meta profile))
      profiles)).2.

(** The locals of [mergeProfiles] when its loop starts. *)
Definition loopStart (store : Store) : MergeLoop := mkMergeLoop store [] ∅ [].

End InPlace.

(** The thread that round [i] selects, if there is one. *)
Definition selectedRef (profiles : list ProfileObject.t)
  (i : nat) (profileSpecific : UrlStateObject.t) : option ref :=
profile ← profiles !! i;
selectedThreadIndex ← UrlStateObject.selectedThread profileSpecific;
ProfileObject.threads profile !! selectedThreadIndex.

(** The threads that the rounds select, in order. *)
Definition selections (profiles : list ProfileObject.t)
  (profileStates : list UrlStateObject.t) : list ref :=
omap id (imap (selectedRef profiles) profileStates).

(** The thread references of all the profiles, in order. *)
Definition allThreads (profiles : list ProfileObject.t) : list ref :=
profiles ≫= ProfileObject.threads.

(** Inputs that are separate objects, as profiles loaded one by one are:
    every listed thread is an object of the store, with its tables; no
    thread object is listed twice, in one profile or in two; no two of the
    listed threads refer to the same stack table or to the same frame
    table; and no two url states refer to the same array of committed
    ranges. *)
Record separate (store : Store) (profiles : list ProfileObject.t)
  (profileStates : list UrlStateObject.t) : Prop := mkSeparate {
  separate_objects :
    Forall (fun thread => is_Some (readThread store thread))
      (allThreads profiles);
  separate_threads : NoDup (allThreads profiles);
  separate_stackTables :
    NoDup (omap (fun thread =>
                   ThreadObject.stackTable <$> threadObjects store !! thread)
             (allThreads profiles));
  separate_frameTables :
    NoDup (omap (fun thread =>
                   ThreadObject.frameTable <$> threadObjects store !! thread)
             (allThreads profiles));
  separate_ranges :
    NoDup (omap UrlStateObject.committedRanges profileStates) }.

(** ** Invariants of the loop on objects *)

(** Two stores that hold the same thread object behind [t], and the same
    tables behind its references. *)
Definition sameThread (st st' : Store) (t : ref) : Prop :=
  threadObjects st !! t = threadObjects st' !! t /\
  forall o, threadObjects st !! t = Some o ->
    stackTables st !! ThreadObject.stackTable o
      = stackTables st' !! ThreadObject.stackTable o /\
    frameTables st !! ThreadObject.frameTable o
      = frameTables st' !! ThreadObject.frameTable o.

(** The store once both category columns of the tables of [o] have been
    assigned. *)
Definition remappedStore (o : ThreadObject.t)
  (stack : StackTable.t) (frame : FrameTable.t) (st : Store) : Store :=
set_frameTables (<[ThreadObject.frameTable o := frame]> (frameTables st))
  (set_stackTables (<[ThreadObject.stackTable o := stack]> (stackTables st))
     st).

(** What a round may write: the selected thread object, or a new one,
    the two tables of the selected thread and the array of ranges of its
    url state. *)
Definition roundFrame (st st' : Store) (t : ref) (o : ThreadObject.t)
  (s : UrlStateObject.t) (pushed : ref) : Prop :=
  (exists m,
     threadObjects st' !! pushed = Some m /\
     ThreadObject.stackTable m = ThreadObject.stackTable o /\
     ThreadObject.frameTable m = ThreadObject.frameTable o) /\
  (pushed = t \/ pushed = length (threadObjects st)) /\
  length (threadObjects st) <= length (threadObjects st') /\
  (forall t', t' <> t -> t' < length (threadObjects st) ->
     threadObjects st' !! t' = threadObjects st !! t') /\
  (forall a, a <> ThreadObject.stackTable o ->
     stackTables st' !! a = stackTables st !! a) /\
  (forall a, a <> ThreadObject.frameTable o ->
     frameTables st' !! a = frameTables st !! a) /\
  (forall a, UrlStateObject.committedRanges s <> Some a ->
     rangeStacks st' !! a = rangeStacks st !! a).

(** A thread pushed in an earlier round and the object behind it are out
    of reach of the rounds from [i] on. *)
Definition settled (store0 : Store) (profiles : list ProfileObject.t)
  (i : nat) (st : Store) (res : ref) : Prop :=
  exists m,
    threadObjects st !! res = Some m /\
    forall k p t o,
      i <= k -> profiles !! k = Some p -> t ∈ ProfileObject.threads p ->
      threadObjects store0 !! t = Some o ->
      res <> t /\
      ThreadObject.stackTable m <> ThreadObject.stackTable o /\
      ThreadObject.frameTable m <> ThreadObject.frameTable o.

(** Invariant of the loop on objects, before round [i]: the inputs not
    yet visited are as they were, and the threads pushed so far read as
    the threads of the merge on values. *)
Definition loopInv (store0 : Store) (profiles : list ProfileObject.t)
  (states : list UrlStateObject.t) (pre : list UrlStateObject.t)
  (acc : InPlace.MergeLoop) (accV : MergeLoop) : Prop :=
  let i := length pre in
  let st := InPlace.loopStore acc in
  (forall k p t,
     i <= k -> profiles !! k = Some p -> t ∈ ProfileObject.threads p ->
     sameThread st store0 t) /\
  (forall k s,
     i <= k -> states !! k = Some s ->
     readUrlState st s = readUrlState store0 s) /\
  length (threadObjects store0) <= length (threadObjects st) /\
  Forall2 (fun res thread =>
             readThread st res = Some thread /\ settled store0 profiles i st res)
    (InPlace.loopThreads acc) (loopThreads accV) /\
  loopStates accV = readUrlState st <$> pre /\
  InPlace.loopTransformStacks acc = loopTransformStacks accV /\
  InPlace.loopImplementationFilters acc
    = loopImplementationFilters accV.

(** Invariant of the loop, before round [length pre], when no thread is
    selected twice: the threads still to be selected are untouched, and
    each thread pushed bears the identity its round gave it. *)
Definition identityInv (store0 : Store) (profiles : list ProfileObject.t)
  (states : list UrlStateObject.t) (pre : list UrlStateObject.t)
  (acc : InPlace.MergeLoop)
  : Prop :=
  let i := length pre in
  let st := InPlace.loopStore acc in
  length (InPlace.loopThreads acc) = i /\
  length (threadObjects store0) <= length (threadObjects st) /\
  (forall k s t,
     i <= k -> states !! k = Some s -> selectedRef profiles k s = Some t ->
     threadObjects st !! t = threadObjects store0 !! t) /\
  (forall j s,
     j < i -> states !! j = Some s ->
     exists t o pushed merged,
       selectedRef profiles j s = Some t /\
       threadObjects store0 !! t = Some o /\
       InPlace.loopThreads acc !! j = Some pushed /\
       threadObjects st !! pushed = Some merged /\
       ThreadObject.pid merged =
         (ThreadObject.pid o ++ " from profile "
            ++ JS.toString (j + 1))%string /\
       ThreadObject.processName merged =
         Some ("Profile " ++ JS.toString (j + 1) ++ ": "
                 ++ JS.orElse (ThreadObject.processName o)
                      (ThreadObject.name o))%string /\
       forall k s' t',
         i <= k -> states !! k = Some s' ->
         selectedRef profiles k s' = Some t' -> pushed <> t').

(** ** Sample objects *)

Module SampleObjects.

(** The object for a thread, referring to the tables at [stack] and
    [frame]. *)
Definition object (thread : Thread.t) (stack frame : ref) : ThreadObject.t :=
ThreadObject.mk (Thread.pid thread) (Thread.processName thread)
  (Thread.name thread) (Thread.registerTime thread)
  (Thread.unregisterTime thread) (Thread.processStartupTime thread)
  (Thread.processShutdownTime thread) stack frame
  (Thread.samples thread) (Thread.markers thread).

(** The three threads of [Sample.profile1] and [Sample.profile2]. *)
Definition threads : list Thread.t :=
Profile.threads Sample.profile1 ++ Profile.threads Sample.profile2.

(** A store that holds the three threads, each with tables of its own,
    and three arrays of committed ranges. *)
Definition store : Store :=
mkStore
  (imap (fun k thread => object thread k k) threads)
  (Thread.stackTable <$> threads)
  (Thread.frameTable <$> threads)
  [ []; [StartEndRange.mk 0 10; StartEndRange.mk 6996 6998]%float; [] ].

Definition profile1 : ProfileObject.t :=
ProfileObject.mk (Profile.meta Sample.profile1) [0].

Definition profile2 : ProfileObject.t :=
ProfileObject.mk (Profile.meta Sample.profile2) [1; 2].

Definition state (selectedThread : option nat) (committedRanges : ref)
  : UrlStateObject.t :=
UrlStateObject.mk selectedThread {[ 0 := ["focus-subtree"] ]} "combined"
  (Some committedRanges).

(** The inputs of [Sample], as objects: they read as [Sample.profiles]
    and [Sample.states]. *)
Definition profiles : list ProfileObject.t := [profile1; profile2].
Definition states : list UrlStateObject.t :=
[ state (Some 0) 0; state (Some 1) 1 ].

(** What the merge returns for them with the reference helpers. *)
Definition merged : InPlace.MergeOutput :=
match InPlace.mergeProfiles (PD := SpecProfileData.instance)
        store profiles states with
| Ok out => out
| Throw _ =>
    InPlace.mkMergeOutput store
      (ProfileObject.mk (ProfileMeta.mk 1%float []) []) ∅ []
end.

(** One profile object handed in twice, with the same thread selected. *)
Definition sharedProfiles : list ProfileObject.t := [profile1; profile1].
Definition sharedStates : list UrlStateObject.t :=
[ state (Some 0) 0; state (Some 0) 2 ].

(** One profile object handed in twice, after a profile that brings other
    categories. *)
Definition repeatedProfiles : list ProfileObject.t :=
[profile1; profile2; profile2].
Definition repeatedStates : list UrlStateObject.t :=
[ state (Some 0) 0; state (Some 0) 1; state (Some 0) 2 ].

(** Url states of a caller that breaks the contract: a selection past the
    end of the thread list, then no selection at all. *)
Definition staleStates : list UrlStateObject.t :=
[ state (Some 5) 0; state None 2 ].

End SampleObjects.

(** * Properties *)

Open Scope list_scope.

(** ** JavaScript numbers *)

Module NumberFacts.

Lemma SFcompare_diag (x : spec_float) :
  x <> S754_nan -> SFcompare x x = Some Eq.
Proof.
  destruct x as [s|s| |s m e]; simpl; try congruence; intros _.
  - by destruct s.
  - rewrite Z.compare_refl.
    change (Pos.compare_cont Eq m m) with (Pos.compare m m).
    rewrite Pos.compare_refl. by destruct s.
Qed.

Lemma is_nan_false (x : float) :
  is_nan x = false <-> Prim2SF x <> S754_nan.
Proof.
  unfold is_nan. rewrite FloatAxioms.eqb_spec. unfold SFeqb. split.
  - intros H E. rewrite E in H. discriminate.
  - intros H. by rewrite SFcompare_diag.
Qed.

Lemma is_finite_true (x : float) :
  is_finite x = true ->
  (exists s, Prim2SF x = S754_zero s) \/ (exists s m e, Prim2SF x = S754_finite s m e).
Proof.
  unfold is_finite, is_infinity, is_nan.
  rewrite !FloatAxioms.eqb_spec, abs_spec.
  change (Prim2SF infinity) with (S754_infinity false).
  destruct (Prim2SF x) as [s|s| |s m e]; simpl; try discriminate; eauto 6.
  all: try (destruct s; discriminate).
Qed.

Lemma cond_Zopp_cancel (s : bool) (z : Z) :
  (cond_Zopp s z + cond_Zopp (negb s) z = 0)%Z.
Proof. destruct s; simpl; lia. Qed.

Lemma add_opp_diag (x : float) :
  is_finite x = true -> (x + - x)%float = 0%float.
Proof.
  intros Hfin. apply Prim2SF_inj.
  rewrite add_spec, opp_spec.
  change (Prim2SF 0) with (S754_zero false).
  destruct (is_finite_true x Hfin) as [[s ->]|(s & m & e & ->)].
  - by destruct s.
  - unfold SF64add; simpl.
    by rewrite cond_Zopp_cancel.
Qed.


(** The order of [SFcompare], read off a spec float that is not NaN. *)
Ltac sf_order :=
  repeat match goal with
  | s : bool |- _ => destruct s
  | |- context [Z.compare ?a ?b] => destruct (Z.compare_spec a b)
  | |- context [Pos.compare_cont Eq ?a ?b] =>
      change (Pos.compare_cont Eq a b) with (Pos.compare a b);
      destruct (Pos.compare_spec a b)
  | H : context [Z.compare ?a ?b] |- _ => destruct (Z.compare_spec a b)
  | H : context [Pos.compare_cont Eq ?a ?b] |- _ =>
      change (Pos.compare_cont Eq a b) with (Pos.compare a b) in H;
      destruct (Pos.compare_spec a b)
  end; simpl in *; try congruence; try lia.

Lemma SFleb_trans (a b c : spec_float) :
  SFleb a b = true -> SFleb b c = true -> SFleb a c = true.
Proof.
  unfold SFleb.
  destruct a as [sa|sa| |sa ma ea], b as [sb|sb| |sb mb eb],
    c as [sc|sc| |sc mc ec]; simpl; try congruence; sf_order.
Qed.

Lemma SFltb_leb_trans (a b c : spec_float) :
  SFltb a b = true -> SFleb b c = true -> SFleb a c = true.
Proof.
  unfold SFleb, SFltb.
  destruct a as [sa|sa| |sa ma ea], b as [sb|sb| |sb mb eb],
    c as [sc|sc| |sc mc ec]; simpl; try congruence; sf_order.
Qed.

Lemma SFltb_false_leb (a b : spec_float) :
  a <> S754_nan -> b <> S754_nan -> SFltb a b = false -> SFleb b a = true.
Proof.
  unfold SFleb, SFltb.
  destruct a as [sa|sa| |sa ma ea], b as [sb|sb| |sb mb eb];
    simpl; try congruence; intros _ _; sf_order.
Qed.

Lemma SFleb_infinity (a : spec_float) :
  SFleb (S754_infinity false) a = true -> a = S754_infinity false.
Proof.
  unfold SFleb. destruct a as [sa|sa| |sa ma ea]; simpl; try congruence; sf_order.
Qed.

Lemma leb_trans (x y z : float) :
  (x <=? y)%float = true -> (y <=? z)%float = true -> (x <=? z)%float = true.
Proof. rewrite !leb_spec. apply SFleb_trans. Qed.

Lemma ltb_leb_trans (x y z : float) :
  (x <? y)%float = true -> (y <=? z)%float = true -> (x <=? z)%float = true.
Proof. rewrite ltb_spec, !leb_spec. apply SFltb_leb_trans. Qed.

Lemma ltb_false_leb (x y : float) :
  is_nan x = false -> is_nan y = false ->
  (x <? y)%float = false -> (y <=? x)%float = true.
Proof. rewrite !is_nan_false, ltb_spec, leb_spec. apply SFltb_false_leb. Qed.

Lemma leb_refl (x : float) : is_nan x = false -> (x <=? x)%float = true.
Proof.
  rewrite is_nan_false, leb_spec. intros H.
  unfold SFleb. by rewrite SFcompare_diag.
Qed.

Lemma infinity_leb (x : float) :
  (infinity <=? x)%float = true -> x = infinity.
Proof.
  rewrite leb_spec. intros Hle. apply Prim2SF_inj. by apply SFleb_infinity.
Qed.

Lemma is_zero_leb (x y : float) :
  is_zero x = true -> is_zero y = true -> (x <=? y)%float = true.
Proof.
  unfold is_zero. rewrite !FloatAxioms.eqb_spec, leb_spec.
  change (Prim2SF PrimFloat.zero) with (S754_zero false).
  unfold SFeqb, SFleb.
  destruct (Prim2SF x) as [sa|sa| |sa ma ea], (Prim2SF y) as [sb|sb| |sb mb eb];
    simpl; try congruence; sf_order.
Qed.


Lemma SFadd_comm (prec emax : Z) (a b : spec_float) :
  SFadd prec emax a b = SFadd prec emax b a.
Proof.
  destruct a as [sa|sa| |sa ma ea], b as [sb|sb| |sb mb eb]; simpl;
    try reflexivity; try (by destruct sa, sb).
  by rewrite (Z.min_comm eb ea), Z.add_comm.
Qed.

(** The sum of two numbers does not depend on the order of the operands. *)
Lemma add_comm (x y : float) : (x + y)%float = (y + x)%float.
Proof. apply Prim2SF_inj. rewrite !add_spec. apply SFadd_comm. Qed.

(** [JS.min2] on two numbers that are not NaN picks one of them, below
    both. *)
Lemma min2_spec (lowest x : float) :
  is_nan lowest = false -> is_nan x = false ->
  let m := JS.min2 lowest x in
  is_nan m = false /\ (m = lowest \/ m = x) /\
  (m <=? lowest)%float = true /\ (m <=? x)%float = true.
Proof.
  intros Hl Hx. unfold JS.min2. rewrite Hl, Hx. simpl.
  destruct (x <? lowest)%float eqn:Hlt.
  - split_and!; [done|by right| |by apply leb_refl].
    eapply ltb_leb_trans; [exact Hlt|by apply leb_refl].
  - destruct (is_zero x && is_zero lowest && get_sign x)%bool eqn:Hz.
    + apply andb_true_iff in Hz as [[Hzx Hzl]%andb_true_iff _].
      split_and!; [done|by right|by apply is_zero_leb|by apply leb_refl].
    + split_and!; [done|by left|by apply leb_refl|by apply ltb_false_leb].
Qed.

Lemma fold_min2_nan (values : list float) :
  fold_left JS.min2 values nan = nan.
Proof. induction values as [|x values IH]; [done|]. simpl.
  replace (JS.min2 nan x) with nan; [done|].
  unfold JS.min2. by rewrite orb_true_r.
Qed.

Lemma fold_min2_Exists_nan (values : list float) (lowest : float) :
  Exists (fun x => is_nan x = true) values ->
  fold_left JS.min2 values lowest = nan.
Proof.
  intros Hex. revert lowest.
  induction Hex as [x values Hx|x values _ IH]; intros lowest; simpl.
  - unfold JS.min2 at 2. rewrite Hx. simpl. apply fold_min2_nan.
  - apply IH.
Qed.

Lemma fold_min2_spec (values : list float) (lowest : float) :
  is_nan lowest = false ->
  Forall (fun x => is_nan x = false) values ->
  let m := fold_left JS.min2 values lowest in
  (m = lowest \/ m ∈ values) /\
  (m <=? lowest)%float = true /\
  Forall (fun x => (m <=? x)%float = true) values.
Proof.
  intros Hl Hvalues. revert lowest Hl.
  induction Hvalues as [|x values Hx _ IH]; intros lowest Hl; simpl.
  - split_and!; [by left|by apply leb_refl|constructor].
  - destruct (min2_spec lowest x Hl Hx) as (Hn & Hm & Hml & Hmx).
    destruct (IH _ Hn) as (Hin & Hle & Hall).
    split_and!.
    + destruct Hin as [->|Hin]; [|right; by right].
      destruct Hm as [->| ->]; [by left|right; by left].
    + by eapply leb_trans.
    + constructor; [by eapply leb_trans|done].
Qed.

(** [Math.min] of numbers, none of them NaN, is their minimum. *)
Lemma Math_min_minimum (values : list float) :
  values <> [] ->
  Forall (fun x => is_nan x = false) values ->
  JS.Math_min values ∈ values /\
  Forall (fun x => (JS.Math_min values <=? x)%float = true) values.
Proof.
  intros Hne Hvalues.
  destruct (fold_min2_spec values infinity eq_refl Hvalues)
    as ([Hinf|Hin] & _ & Hall); fold (JS.Math_min values) in *;
    [|done].
  split; [|done]. destruct values as [|x values]; [done|].
  apply Forall_cons in Hall as [Hx _].
  rewrite Hinf in Hx. apply infinity_leb in Hx as ->. rewrite Hinf. by left.
Qed.

End NumberFacts.

(** ** The category merge *)

Section CategoryFacts.
Implicit Types (l scanned : CategoryList) (n : string) (c : Category.t).

Lemma names_firstOccurrences l n :
  n ∈ Category.name <$> firstOccurrences l <-> n ∈ Category.name <$> l.
Proof.
  induction l as [|c l IH]; [done|]. simpl.
  rewrite !elem_of_cons, <- IH, !list_elem_of_fmap.
  split.
  - intros [->|(c' & -> & Hc')]; [by left|].
    apply list_elem_of_filter in Hc' as [_ Hc']. right; eauto.
  - intros [->|(c' & -> & Hc')]; [by left|].
    destruct (decide (Category.name c' = Category.name c)) as [E|E]; [by left|].
    right. exists c'. split; [done|]. by apply list_elem_of_filter.
Qed.

Lemma firstOccurrences_snoc l c :
  firstOccurrences (l ++ [c]) =
  if decide (Category.name c ∈ Category.name <$> l)
  then firstOccurrences l else firstOccurrences l ++ [c].
Proof.
  induction l as [|c' l IH]; simpl.
  - done.
  - rewrite IH.
    destruct (decide (Category.name c ∈ Category.name <$> l)) as [Hin|Hin];
      destruct (decide (Category.name c ∈ _ :: _)) as [Hin'|Hin']; try done.
    + exfalso. apply Hin'. by right.
    + apply elem_of_cons in Hin' as [E|?]; [|done].
      rewrite filter_app, filter_cons_False, filter_nil, app_nil_r; [done|].
      intros H; by apply H.
    + rewrite not_elem_of_cons in Hin'. destruct Hin' as [Hne _].
      by rewrite filter_app, filter_cons_True.
Qed.

Lemma firstWithName_is_Some n l :
  is_Some (firstWithName n l) <-> n ∈ Category.name <$> l.
Proof.
  unfold firstWithName. split.
  - intros [[i c] H]. apply list_find_Some in H as (Hl & <- & _).
    apply list_elem_of_fmap. exists c. split; [done|].
    by eapply list_elem_of_lookup_2.
  - intros (c & -> & Hc)%list_elem_of_fmap. by eapply list_find_elem_of.
Qed.

Lemma firstWithName_None n l :
  firstWithName n l = None <-> n ∉ Category.name <$> l.
Proof.
  rewrite <- firstWithName_is_Some, eq_None_not_Some. done.
Qed.

Lemma firstWithName_app_l n l ext p :
  firstWithName n l = Some p -> firstWithName n (l ++ ext) = Some p.
Proof. destruct p. apply list_find_app_l. Qed.

Lemma firstWithName_snoc_fresh l c :
  Category.name c ∉ Category.name <$> l ->
  firstWithName (Category.name c) (l ++ [c]) = Some (length l, c).
Proof.
  intros Hfresh. unfold firstWithName. apply list_find_Some.
  split_and!; [by apply list_lookup_middle|done|].
  intros j y Hj Hlt E. apply Hfresh. rewrite <- E.
  rewrite lookup_app_l in Hj by done.
  apply list_elem_of_fmap. exists y. split; [done|]. by eapply list_elem_of_lookup_2.
Qed.

Lemma firstWithName_snoc_other n l c :
  Category.name c <> n ->
  firstWithName n (l ++ [c]) = firstWithName n l.
Proof.
  intros Hne. destruct (firstWithName n l) as [p|] eqn:E.
  - by apply firstWithName_app_l.
  - apply firstWithName_None. apply firstWithName_None in E.
    rewrite fmap_app, elem_of_app. simpl. rewrite list_elem_of_singleton.
    intros [?|?]; [done|]. by apply Hne.
Qed.

(** Looking a name up among the first occurrences finds the category that
    the scan met first. *)
Lemma firstWithName_filter n m l :
  n <> m ->
  snd <$> firstWithName n (filter (fun later => Category.name later <> m) l)
  = snd <$> firstWithName n l.
Proof.
  intros Hne. unfold firstWithName. induction l as [|c l IH]; [done|].
  destruct (decide (Category.name c = m)) as [E|E].
  - rewrite filter_cons_False by (intros H; by apply H).
    rewrite IH. simpl. rewrite decide_False by congruence.
    by destruct (list_find _ l) as [[]|].
  - rewrite filter_cons_True by done. simpl.
    case_decide; [done|].
    revert IH.
    by destruct (list_find _ (filter _ l)) as [[]|], (list_find _ l) as [[]|].
Qed.

Lemma firstWithName_firstOccurrences n l :
  snd <$> firstWithName n (firstOccurrences l) = snd <$> firstWithName n l.
Proof.
  induction l as [|c l IH]; [done|].
  unfold firstWithName in *. simpl.
  case_decide as E; [done|].
  pose proof (firstWithName_filter n (Category.name c) (firstOccurrences l)) as F.
  unfold firstWithName in F.
  assert (n <> Category.name c) as Hne by congruence.
  specialize (F Hne). revert F IH.
  by destruct (list_find _ (filter _ _)) as [[]|], (list_find _ (firstOccurrences l)) as [[]|],
    (list_find _ l) as [[]|]; simpl; intros; simplify_eq.
Qed.

Lemma NoDup_firstOccurrences l :
  NoDup (Category.name <$> firstOccurrences l).
Proof.
  induction l as [|c l IH]; simpl; [constructor|].
  constructor.
  - intros (c' & E & Hc')%list_elem_of_fmap.
    apply list_elem_of_filter in Hc' as [Hne _]. by apply Hne.
  - revert IH. generalize (firstOccurrences l). intros k.
    induction k as [|c' k IHk]; [done|].
    rewrite fmap_cons, NoDup_cons. intros [Hnin Hk].
    destruct (decide (Category.name c' = Category.name c)).
    + rewrite filter_cons_False by (intros H; by apply H). auto.
    + rewrite filter_cons_True by done. rewrite fmap_cons. constructor; [|auto].
      intros (c'' & E & Hc'')%list_elem_of_fmap.
      apply list_elem_of_filter in Hc'' as [_ Hc''].
      apply Hnin. apply list_elem_of_fmap. eauto.
Qed.

Lemma length_firstOccurrences l : length (firstOccurrences l) <= length l.
Proof.
  induction l as [|c l IH]; simpl; [done|].
  pose proof (length_filter (fun later => Category.name later <> Category.name c)
                (firstOccurrences l)). lia.
Qed.


Lemma forEachCategory_snoc i l c st :
  forEachCategory i (l ++ [c]) st =
  mergeCategory (i + length l) c (forEachCategory i l st).
Proof.
  revert i st. induction l as [|c' l IH]; intros i st; simpl.
  - by rewrite Nat.add_0_r.
  - rewrite IH. f_equal. lia.
Qed.

Lemma mergeCategory_fresh i c st :
  insertedCategories st !! Category.name c = None ->
  mergeCategory i c st =
  mkCategoryLoop (newCategories st ++ [c])
    (<[Category.name c := length (newCategories st)]> (insertedCategories st))
    (<[i := length (newCategories st)]> (translationMap st)).
Proof. unfold mergeCategory. by intros ->. Qed.

Lemma mergeCategory_seen i c st j :
  insertedCategories st !! Category.name c = Some j ->
  mergeCategory i c st =
  mkCategoryLoop (newCategories st) (insertedCategories st)
    (<[i := j]> (translationMap st)).
Proof. unfold mergeCategory. by intros ->. Qed.

Lemma mergeCategory_inv scanned i c st :
  categoriesInv scanned (newCategories st) (insertedCategories st) ->
  let st' := mergeCategory i c st in
  categoriesInv (scanned ++ [c]) (newCategories st') (insertedCategories st') /\
  (exists ext, newCategories st' = newCategories st ++ ext) /\
  exists j, translationMap st' = <[i := j]> (translationMap st) /\
            fst <$> firstWithName (Category.name c) (newCategories st') = Some j.
Proof.
  intros [Hnc Hins]. unfold mergeCategory. simpl.
  pose proof (Hins (Category.name c)) as Hc.
  destruct (insertedCategories st !! Category.name c) as [j|] eqn:E; simpl.
  - assert (Category.name c ∈ Category.name <$> scanned) as Hin.
    { apply names_firstOccurrences. rewrite <- Hnc.
      apply firstWithName_is_Some. by destruct (firstWithName _ _). }
    split_and!.
    + split; simpl; [|done].
      by rewrite firstOccurrences_snoc, decide_True.
    + exists []. by rewrite app_nil_r.
    + eauto.
  - assert (Category.name c ∉ Category.name <$> newCategories st) as Hfresh.
    { apply firstWithName_None. by destruct (firstWithName _ _). }
    split_and!.
    + split; simpl.
      * rewrite firstOccurrences_snoc, decide_False, Hnc; [done|].
        by rewrite <- names_firstOccurrences, <- Hnc.
      * intros n. destruct (decide (Category.name c = n)) as [<-|Hne].
        -- by rewrite lookup_insert_eq, firstWithName_snoc_fresh.
        -- by rewrite lookup_insert_ne, firstWithName_snoc_other.
    + eauto.
    + exists (length (newCategories st)). split; [done|].
      by rewrite firstWithName_snoc_fresh.
Qed.

Lemma forEachCategory_inv scanned l st :
  categoriesInv scanned (newCategories st) (insertedCategories st) -> translationMap st = ∅ ->
  let st' := forEachCategory 0 l st in
  categoriesInv (scanned ++ l) (newCategories st') (insertedCategories st') /\
  (exists ext, newCategories st' = newCategories st ++ ext) /\
  forall k, translationMap st' !! k =
            c ← l !! k; fst <$> firstWithName (Category.name c) (newCategories st').
Proof.
  intros Hinv Hempty. induction l as [|c l IH] using rev_ind; simpl.
  - rewrite app_nil_r. split_and!; [done|exists []; by rewrite app_nil_r|].
    intros k. by rewrite Hempty, lookup_empty.
  - destruct IH as (Hinv' & [ext Hext] & Htm).
    rewrite forEachCategory_snoc. simpl.
    destruct (mergeCategory_inv (scanned ++ l) (length l) c _ Hinv')
      as (Hinv'' & [ext' Hext'] & j & Hj & Hfind).
    split_and!.
    + by rewrite app_assoc.
    + exists (ext ++ ext'). by rewrite Hext', Hext, app_assoc.
    + intros k. rewrite Hj, Hext'.
      destruct (decide (k = length l)) as [->|Hne].
      * rewrite lookup_insert_eq, list_lookup_middle by done. simpl.
        by rewrite <- Hext'.
      * rewrite lookup_insert_ne, Htm by done.
        destruct (decide (k < length l)).
        -- rewrite lookup_app_l by done.
           destruct (l !! k) as [c'|] eqn:Ec'; [simpl|done].
           assert (is_Some (firstWithName (Category.name c')
                              (newCategories (forEachCategory 0 l st))))
             as [p Hp].
           { apply firstWithName_is_Some. destruct Hinv' as [-> _].
             apply names_firstOccurrences. rewrite fmap_app, elem_of_app.
             right. apply list_elem_of_fmap. exists c'. split; [done|].
             by eapply list_elem_of_lookup_2. }
           by rewrite (firstWithName_app_l _ _ ext' _ Hp), Hp.
        -- rewrite !lookup_ge_None_2; [done| |lia].
           rewrite length_app. simpl. lia.
Qed.


Lemma mergeCategoryList_inv (inputs : list CategoryList) :
  let acc := fold_left mergeCategoryList inputs (mkCategoriesAcc [] ∅ []) in
  categoriesInv (concat inputs) (accCategories acc) (accInserted acc) /\
  length (accTranslationMaps acc) = length inputs /\
  forall k l tm,
    inputs !! k = Some l -> accTranslationMaps acc !! k = Some tm ->
    forall i, tm !! i =
              c ← l !! i; fst <$> firstWithName (Category.name c) (accCategories acc).
Proof.
  induction inputs as [|l inputs IH] using rev_ind; simpl.
  - split_and!; [split; [done|]|done|done].
    intros n. by rewrite lookup_empty.
  - rewrite fold_left_app. simpl.
    destruct IH as (Hinv & Hlen & Htms).
    remember (fold_left mergeCategoryList inputs _) as acc eqn:Hacc. clear Hacc.
    destruct (forEachCategory_inv (concat inputs) l
                (mkCategoryLoop _ _ (@empty _ gmap_empty)) Hinv eq_refl)
    as (Hinv' & [ext Hext] & Htm).
    simpl in Hext.
    split_and!.
    + by rewrite concat_app; simpl; rewrite app_nil_r.
    + rewrite !length_app. simpl. lia.
    + intros k l' tm Hk Htmk i.
      destruct (decide (k = length inputs)) as [->|Hne].
      * rewrite list_lookup_middle in Hk by done.
        rewrite list_lookup_middle in Htmk by done.
        simplify_eq. apply Htm.
      * assert (k < length inputs) as Hlt.
        { apply lookup_lt_Some in Hk. rewrite length_app in Hk. simpl in Hk. lia. }
        rewrite lookup_app_l in Hk by done.
        rewrite lookup_app_l in Htmk by lia.
        rewrite (Htms k l' tm Hk Htmk i).
        destruct (l' !! i) as [c|] eqn:Ec; [simpl|done].
        rewrite Hext.
        assert (is_Some (firstWithName (Category.name c) (accCategories acc)))
          as [p Hp].
        { apply firstWithName_is_Some. destruct Hinv as [-> _].
          apply names_firstOccurrences, list_elem_of_fmap. exists c.
          split; [done|]. apply list_elem_of_In, in_concat. exists l'.
          split; apply list_elem_of_In; by eapply list_elem_of_lookup_2. }
        by rewrite (firstWithName_app_l _ _ ext _ Hp), Hp.
Qed.

End CategoryFacts.

(** C1.  [mergeCategories] scans the inputs in order and the categories of
    each input in order.  The merged list is the list of the first
    occurrences of each name, kept verbatim ([firstOccurrences] of the
    scanned categories), so no name occurs twice in it.  There is one
    translation map per input; its domain is the index range of that
    input, and it sends the index of a category to the index, in the merged
    list, of the first scanned category bearing the same name.  The merged
    list is no longer than the inputs together.  For two inputs [a; b] and
    [b'; c] in which only [b] and [b'] share a name, the result is
    [a; b; c] with the maps {0 -> 0, 1 -> 1} and {0 -> 1, 1 -> 2}. *)
Theorem mergeCategories_first_occurrence_wins
  (categoriesPerThread : list CategoryList) :
  let merged := (mergeCategories categoriesPerThread).1 in
  let translationMaps := (mergeCategories categoriesPerThread).2 in
  let scanned := concat categoriesPerThread in
  merged = firstOccurrences scanned /\
  NoDup (Category.name <$> merged) /\
  length translationMaps = length categoriesPerThread /\
  (forall k categories,
     categoriesPerThread !! k = Some categories ->
     exists tm,
       translationMaps !! k = Some tm /\
       (forall i, categories !! i = None -> tm !! i = None) /\
       forall i category,
         categories !! i = Some category ->
         exists j first p,
           tm !! i = Some j /\
           merged !! j = Some first /\
           Category.name first = Category.name category /\
           firstWithName (Category.name category) scanned = Some (p, first)) /\
  length merged <= list_sum (length <$> categoriesPerThread) /\
  (forall a b b' c,
     Category.name b' = Category.name b ->
     Category.name a <> Category.name b ->
     Category.name c <> Category.name a ->
     Category.name c <> Category.name b ->
     mergeCategories [[a; b]; [b'; c]] =
     ([a; b; c], [ {[0 := 0; 1 := 1]}; {[0 := 1; 1 := 2]} ])).
Proof.
  intros merged translationMaps scanned.
  destruct (mergeCategoryList_inv categoriesPerThread) as ([Hm Hins] & Hlen & Htms).
  change (merged = firstOccurrences scanned) in Hm.
  change (length translationMaps = length categoriesPerThread) in Hlen.
  change (forall k l tm,
    categoriesPerThread !! k = Some l -> translationMaps !! k = Some tm ->
    forall i, tm !! i =
              c ← l !! i; fst <$> firstWithName (Category.name c) merged)
    in Htms.
  clearbody merged translationMaps. subst scanned. clear Hins.
  split_and!.
  - done.
  - rewrite Hm. apply NoDup_firstOccurrences.
  - done.
  - intros k categories Hk.
    destruct (lookup_lt_is_Some_2 translationMaps k) as [tm Htm].
    { rewrite Hlen. by eapply lookup_lt_Some. }
    exists tm. split; [done|].
    pose proof (Htms k categories tm Hk Htm) as Hi.
    split.
    + intros i Hnone. by rewrite Hi, Hnone.
    + intros i category Hcat. rewrite Hi, Hcat. simpl.
      assert (is_Some (firstWithName (Category.name category) merged))
        as [[j first] Hfind].
      { apply firstWithName_is_Some. rewrite Hm.
        apply names_firstOccurrences, list_elem_of_fmap. exists category.
        split; [done|]. apply list_elem_of_In, in_concat. exists categories.
        split; apply list_elem_of_In; by eapply list_elem_of_lookup_2. }
      pose proof (firstWithName_firstOccurrences (Category.name category)
                    (concat categoriesPerThread))
        as Hfirst.
      rewrite <- Hm, Hfind in Hfirst. simpl in Hfirst.
      destruct (firstWithName _ (concat _)) as [[p first']|] eqn:Hscan;
        simplify_eq/=.
      exists j, first', p. rewrite Hfind.
      apply list_find_Some in Hfind as (Hj & Hname & _). done.
  - rewrite Hm. etrans; [apply length_firstOccurrences|].
    by rewrite length_concat.
  - intros a b b' c Hbb Hab Hca Hcb.
    unfold mergeCategories. simpl. unfold mergeCategoryList. simpl.
    rewrite (mergeCategory_fresh 0 a) by done. simpl.
    rewrite (mergeCategory_fresh 1 b) by (by simpl; rewrite lookup_insert_ne).
    simpl.
    rewrite (mergeCategory_seen 0 b' _ 1)
      by (by simpl; rewrite Hbb, lookup_insert_eq).
    simpl.
    rewrite (mergeCategory_fresh 1 c)
      by (by simpl; rewrite !lookup_insert_ne).
    simpl. by rewrite (insert_insert_ne _ 1 0 1 0), (insert_insert_ne _ 1 0 2 1).
Qed.

(** [mergeProfiles] has a translation map for each profile. *)
Lemma translationMapsOf_length (profiles : list Profile.t) :
  length (translationMapsOf profiles) = length profiles.
Proof.
  unfold translationMapsOf, mergeCategories. simpl.
  destruct (mergeCategoryList_inv
              (map (fun profile => ProfileMeta.categories (Profile.meta profile))
                 profiles)) as (_ & -> & _).
  apply length_map.
Qed.

(** ** The index remapping *)

Section ArrayMap.
Context {A B : Type} (f : A -> Result B).

Lemma arrayMap_Ok (l : list A) (out : list B) :
  arrayMap f l = Ok out <-> Forall2 (fun a b => f a = Ok b) l out.
Proof.
  revert out. induction l as [|a l IH]; intros out; simpl.
  - split; [intros [= <-]; constructor|by intros ->%Forall2_nil_inv_l].
  - split.
    + destruct (f a) as [b|e] eqn:Ea; [|done]. simpl.
      destruct (arrayMap f l) as [bs|e] eqn:El; [|done]. simpl.
      intros [= <-]. constructor; [done|]. by apply IH.
    + intros (b & bs & Hb & Hbs & ->)%Forall2_cons_inv_l.
      apply IH in Hbs. by rewrite Hb, Hbs.
Qed.

Lemma arrayMap_Throw (l : list A) (e : Error) :
  arrayMap f l = Throw e <->
  exists pre a post,
    l = pre ++ a :: post /\
    Forall (fun x => exists b, f x = Ok b) pre /\ f a = Throw e.
Proof.
  split.
  - induction l as [|a l IH]; simpl; [done|].
    destruct (f a) as [b|e'] eqn:Ea; simpl.
    + destruct (arrayMap f l) as [bs|e'']; simpl; [done|].
      intros [= ->]. destruct IH as (pre & a' & post & -> & Hpre & Ha'); [done|].
      exists (a :: pre), a', post. split_and!; [done| |done].
      constructor; eauto.
    + intros [= ->]. exists [], a, l. by split_and!.
  - intros (pre & a & post & -> & Hpre & Ha).
    induction Hpre as [|x pre [b Hb] _ IH]; simpl.
    + by rewrite Ha.
    + by rewrite Hb, IH.
Qed.

End ArrayMap.

Section Remap.
Implicit Types (tm : gmap nat nat) (categories : list nat)
  (nullable : list (option nat)).

Lemma adjustCategories_Ok tm categories out :
  adjustCategories categories tm = Ok out <->
  Forall2 (fun category result => tm !! category = Some result) categories out.
Proof.
  unfold adjustCategories. rewrite arrayMap_Ok.
  split; intros H; (eapply Forall2_impl; [exact H|]);
    intros category result; simpl.
  - destruct (tm !! category); [by intros [= <-]|done].
  - by intros ->.
Qed.

Lemma adjustNullableCategories_Ok tm nullable out :
  adjustNullableCategories nullable tm = Ok out <->
  Forall2 (fun category result =>
             match category with
             | None => result = None
             | Some category =>
                 exists new, tm !! category = Some new /\ result = Some new
             end) nullable out.
Proof.
  unfold adjustNullableCategories. rewrite arrayMap_Ok.
  split; intros H; (eapply Forall2_impl; [exact H|]);
    intros [category|] result; simpl.
  - destruct (tm !! category); [intros [= <-]; eauto|done].
  - by intros [= <-].
  - by intros (new & -> & ->).
  - by intros ->.
Qed.

Lemma adjustCategories_Throw tm categories e :
  adjustCategories categories tm = Throw e <->
  exists pre bad post,
    categories = pre ++ bad :: post /\
    Forall (fun category => is_Some (tm !! category)) pre /\
    tm !! bad = None /\ e = CategoryNotFound bad.
Proof.
  unfold adjustCategories. rewrite arrayMap_Throw. split.
  - intros (pre & bad & post & -> & Hpre & Hbad).
    exists pre, bad, post. split_and!; [done| |..].
    + eapply Forall_impl; [exact Hpre|]. intros c [b Hb].
      destruct (tm !! c); [eauto|done].
    + by destruct (tm !! bad).
    + destruct (tm !! bad); congruence.
  - intros (pre & bad & post & -> & Hpre & Hbad & ->).
    exists pre, bad, post. split_and!; [done| |by rewrite Hbad].
    eapply Forall_impl; [exact Hpre|]. intros c [b Hb]. rewrite Hb. eauto.
Qed.

Lemma adjustNullableCategories_Throw tm nullable e :
  adjustNullableCategories nullable tm = Throw e <->
  exists pre bad post,
    nullable = pre ++ Some bad :: post /\
    Forall (fun category =>
              match category with
              | None => True
              | Some category => is_Some (tm !! category)
              end) pre /\
    tm !! bad = None /\ e = CategoryNotFound bad.
Proof.
  unfold adjustNullableCategories. rewrite arrayMap_Throw. split.
  - intros (pre & [bad|] & post & -> & Hpre & Hbad); [|done].
    exists pre, bad, post. split_and!; [done| |..].
    + eapply Forall_impl; [exact Hpre|]. intros [c|] [b Hb]; [|done].
      destruct (tm !! c); [eauto|done].
    + by destruct (tm !! bad).
    + destruct (tm !! bad); congruence.
  - intros (pre & bad & post & -> & Hpre & Hbad & ->).
    exists pre, (Some bad), post. split_and!; [done| |by rewrite Hbad].
    eapply Forall_impl; [exact Hpre|]. intros [c|]; [|by eauto].
    intros [b Hb]. rewrite Hb. eauto.
Qed.

(** The first element of a list that satisfies a decidable predicate. *)
Lemma Exists_first {A} (P : A -> Prop) `{!forall x, Decision (P x)} (l : list A) :
  Exists P l ->
  exists pre a post, l = pre ++ a :: post /\ Forall (fun x => ~ P x) pre /\ P a.
Proof.
  induction 1 as [a l Ha|a l _ IH].
  - exists [], a, l. by split_and!.
  - destruct (decide (P a)) as [Ha|Ha].
    + exists [], a, l. by split_and!.
    + destruct IH as (pre & a' & post & -> & Hpre & Ha').
      exists (a :: pre), a', post. split_and!; [done| |done]. by constructor.
Qed.

End Remap.

(** C2.  When every index of the input lies in the domain of the translation
    map, [adjustCategories] returns the list of the mapped values, position
    by position.  When some index lies outside the domain, it throws
    [CategoryNotFound bad], where [bad] is the first such index of the
    input.  [adjustNullableCategories] does the same on the non-null
    entries and maps [null] to [null]; on a list of nulls it succeeds
    whatever the map is. *)
Theorem adjustCategories_maps_or_fails (translationMap : gmap nat nat) :
  (forall categories,
     Forall (fun category => is_Some (translationMap !! category)) categories ->
     exists out,
       adjustCategories categories translationMap = Ok out /\
       length out = length categories /\
       forall k category,
         categories !! k = Some category ->
         out !! k = translationMap !! category) /\
  (forall categories,
     Exists (fun category => translationMap !! category = None) categories ->
     exists pre bad post,
       categories = pre ++ bad :: post /\
       Forall (fun category => is_Some (translationMap !! category)) pre /\
       translationMap !! bad = None /\
       adjustCategories categories translationMap =
       Throw (CategoryNotFound bad)) /\
  (forall nullable,
     Forall (fun category =>
               match category with
               | None => True
               | Some category => is_Some (translationMap !! category)
               end) nullable ->
     exists out,
       adjustNullableCategories nullable translationMap = Ok out /\
       length out = length nullable /\
       forall k category,
         nullable !! k = Some category ->
         out !! k =
         Some match category with
              | None => None
              | Some category => translationMap !! category
              end) /\
  (forall nullable,
     Exists (fun category =>
               match category with
               | None => False
               | Some category => translationMap !! category = None
               end) nullable ->
     exists pre bad post,
       nullable = pre ++ Some bad :: post /\
       translationMap !! bad = None /\
       adjustNullableCategories nullable translationMap =
       Throw (CategoryNotFound bad)) /\
  (forall n other,
     adjustNullableCategories (replicate n None) other = Ok (replicate n None)).
Proof.
  split_and!.
  - intros categories Hdom.
    assert (exists out, Forall2 (fun category result =>
                translationMap !! category = Some result) categories out)
      as [out Hout].
    { induction Hdom as [|c l [r Hr] _ [out IH]]; [by exists []|].
      exists (r :: out). by constructor. }
    exists out. split; [by apply adjustCategories_Ok|].
    split; [symmetry; by eapply Forall2_length|].
    intros k category Hk.
    destruct (Forall2_lookup_l _ _ _ _ _ Hout Hk) as (r & -> & Hr). done.
  - intros categories Hex.
    apply Exists_first in Hex as (pre & bad & post & -> & Hpre & Hbad);
      [|apply _].
    exists pre, bad, post. 
    assert (Forall (fun category => is_Some (translationMap !! category)) pre).
    { eapply Forall_impl; [exact Hpre|]. intros c Hc. simpl in Hc.
      by apply not_eq_None_Some. }
    split_and!; [done..|]. apply adjustCategories_Throw. eauto 10.
  - intros nullable Hdom.
    assert (exists out, Forall2 (fun category result =>
              match category with
              | None => result = None
              | Some category =>
                  exists new, translationMap !! category = Some new /\
                              result = Some new
              end) nullable out) as [out Hout].
    { induction Hdom as [|c l Hc _ [out IH]]; [by exists []|].
      destruct c as [c|].
      - destruct Hc as [r Hr]. exists (Some r :: out). constructor; eauto.
      - exists (None :: out). by constructor. }
    exists out. split; [by apply adjustNullableCategories_Ok|].
    split; [symmetry; by eapply Forall2_length|].
    intros k category Hk.
    destruct (Forall2_lookup_l _ _ _ _ _ Hout Hk) as (r & -> & Hr).
    destruct category as [c|]; [|by subst].
    destruct Hr as (new & -> & ->). done.
  - intros nullable Hex.
    apply Exists_first in Hex as (pre & [bad|] & post & -> & Hpre & Hbad);
      [|done|intros [c|]; apply _].
    exists pre, bad, post. split_and!; [done..|].
    apply adjustNullableCategories_Throw. exists pre, bad, post.
    split_and!; [done| |done..].
    eapply Forall_impl; [exact Hpre|]. intros [c|] Hc; [|done].
    by apply not_eq_None_Some.
  - intros n other. apply adjustNullableCategories_Ok.
    induction n; simpl; by constructor.
Qed.

(** ** The loop of mergeProfiles *)

Section LoopFacts.
Context {PD : ProfileData}.
Implicit Types (profiles : list Profile.t) (tms : list (gmap nat nat))
  (states : list UrlState.t) (acc : MergeLoop).

(** What [selectInput] has gone through when it returns. *)
Lemma selectInput_Ok profiles tms i state round :
  selectInput profiles tms i state = Ok round <->
  exists selected profile thread tm remapped,
    ProfileSpecific.selectedThread (UrlState.profileSpecific state)
      = Some selected /\
    profiles !! i = Some profile /\
    Profile.threads profile !! selected = Some thread /\
    tms !! i = Some tm /\
    remapCategories tm thread = Ok remapped /\
    let profile' := Profile.set_thread selected remapped profile in
    let zeroAt :=
      StartEndRange.start (getTimeRangeIncludingAllThreads profile') in
    let popped := popCommittedRange (UrlState.profileSpecific state) in
    round = mkLoopRound profile'
              (cropToCommittedRange zeroAt popped.1 remapped)
              (ProfileSpecific.transforms (UrlState.profileSpecific state)
                 !! selected)
              (ProfileSpecific.implementation (UrlState.profileSpecific state))
              (UrlState.mk popped.2).
Proof.
  unfold selectInput.
  split.
  - destruct (ProfileSpecific.selectedThread _) as [selected|]; [|done].
    destruct (profiles !! i) as [profile|]; [|done].
    destruct (Profile.threads profile !! selected) as [thread|] eqn:Ht; [|done].
    destruct (tms !! i) as [tm|]; [|done].
    destruct (remapCategories tm thread) as [remapped|e] eqn:Hremap; [|done].
    simpl.
    destruct (popCommittedRange _) as [committedRange profileSpecific'].
    intros [= <-]. by exists selected, profile, thread, tm, remapped.
  - intros (selected & profile & thread & tm & remapped
            & -> & -> & -> & -> & Hremap & ->).
    rewrite Hremap. simpl. by destruct (popCommittedRange _).
Qed.

Lemma remapCategories_Throw tm thread e :
  remapCategories tm thread = Throw e -> exists bad, e = CategoryNotFound bad.
Proof.
  unfold remapCategories.
  destruct (adjustCategories _ tm) as [sc|e'] eqn:Hs; simpl.
  - destruct (adjustNullableCategories _ tm) as [fc|e'] eqn:Hf; simpl; [done|].
    intros [= ->]. apply adjustNullableCategories_Throw in Hf.
    destruct Hf as (?&bad&?&?&?&?&?). eauto.
  - intros [= ->]. apply adjustCategories_Throw in Hs.
    destruct Hs as (?&bad&?&?&?&?&?). eauto.
Qed.

(** The caller-contract error is thrown for a null selection only, and it
    names the round. *)
Lemma selectInput_NoThreadSelected profiles tms i state k :
  selectInput profiles tms i state = Throw (NoThreadSelected k) <->
  ProfileSpecific.selectedThread (UrlState.profileSpecific state) = None /\
  k = i.
Proof.
  unfold selectInput. split.
  - destruct (ProfileSpecific.selectedThread _) as [selected|];
      [|by intros [= ->]].
    destruct (profiles !! i) as [profile|]; [|done].
    destruct (Profile.threads profile !! selected) as [thread|]; [|done].
    destruct (tms !! i) as [tm|]; [|done].
    destruct (remapCategories tm thread) as [remapped|e] eqn:Hremap; simpl.
    + by destruct (popCommittedRange _).
    + intros [= ->]. by apply remapCategories_Throw in Hremap as [bad ?].
  - by intros [-> ->].
Qed.

Lemma mergeInput_Ok profiles tms i state r :
  mergeInput profiles tms i state = Ok r <->
  exists round,
    selectInput profiles tms i state = Ok round /\
    r = mkLoopRound (roundProfile round)
          (normalizeThread i (roundProfile round) (roundThread round))
          (roundTransformStack round) (roundImplementation round)
          (roundState round).
Proof.
  unfold mergeInput. destruct (selectInput profiles tms i state) as [round|e];
    simpl.
  - split; [intros [= <-]; eauto|]. by intros (? & [= <-] & ->).
  - split; [done|]. by intros (? & ? & _).
Qed.

Lemma mergeInput_Throw profiles tms i state e :
  mergeInput profiles tms i state = Throw e <->
  selectInput profiles tms i state = Throw e.
Proof.
  unfold mergeInput. destruct (selectInput profiles tms i state); simpl;
    split; congruence.
Qed.

(** The results of the rounds of a loop that has run to its end. *)
Lemma mergeLoop_Ok profiles tms states i acc acc' :
  mergeLoop profiles tms i states acc = Ok acc' ->
  exists rs,
    length rs = length states /\
    (forall k state r,
       states !! k = Some state -> rs !! k = Some r ->
       mergeInput profiles tms (i + k) state = Ok r) /\
    loopThreads acc' = loopThreads acc ++ (roundThread <$> rs) /\
    loopImplementationFilters acc' =
      loopImplementationFilters acc ++ (roundImplementation <$> rs) /\
    loopStates acc' = loopStates acc ++ (roundState <$> rs).
Proof.
  revert i acc. induction states as [|state states IH]; intros i acc; simpl.
  - intros [= <-]. exists []. by rewrite !app_nil_r.
  - destruct (mergeInput profiles tms i state) as [r|e] eqn:Hr; [simpl|done].
    intros (rs & Hlen & Hrs & Ht & Hi & Hs)%IH. simpl in *.
    exists (r :: rs). split_and!.
    + simpl. by rewrite Hlen.
    + intros [|k] state' r' Hk Hk'; simplify_eq/=.
      * by rewrite Nat.add_0_r.
      * rewrite <- Nat.add_succ_comm. eauto.
    + by rewrite Ht, <- app_assoc.
    + by rewrite Hi, <- app_assoc.
    + by rewrite Hs, <- app_assoc.
Qed.

(** The loop stops at the first round that throws. *)
Lemma mergeLoop_Throw profiles tms states i acc e :
  mergeLoop profiles tms i states acc = Throw e <->
  exists pre state post,
    states = pre ++ state :: post /\
    (forall k earlier,
       pre !! k = Some earlier ->
       exists r, mergeInput profiles tms (i + k) earlier = Ok r) /\
    mergeInput profiles tms (i + length pre) state = Throw e.
Proof.
  split.
  - revert i acc. induction states as [|state states IH]; intros i acc; simpl;
      [done|].
    destruct (mergeInput profiles tms i state) as [r|e'] eqn:Hr; simpl.
    + intros (pre & state' & post & -> & Hpre & Hstate)%IH.
      exists (state :: pre), state', post. split_and!; [done| |].
      * intros [|k] earlier Hk; simplify_eq/=.
        -- rewrite Nat.add_0_r. eauto.
        -- rewrite <- Nat.add_succ_comm. eauto.
      * simpl. by rewrite <- Nat.add_succ_comm.
    + intros [= ->]. exists [], state, states.
      split_and!; [done|done|]. simpl. by rewrite Nat.add_0_r.
  - intros (pre & state & post & -> & Hpre & Hstate).
    revert i acc Hpre Hstate.
    induction pre as [|earlier pre IH]; intros i acc Hpre Hstate; simpl in *.
    + rewrite Nat.add_0_r in Hstate. by rewrite Hstate.
    + destruct (Hpre 0 earlier eq_refl) as [r Hr].
      rewrite Nat.add_0_r in Hr. rewrite Hr. simpl.
      apply IH.
      * intros k earlier' Hk. rewrite Nat.add_succ_comm. by apply (Hpre (S k)).
      * by rewrite Nat.add_succ_comm.
Qed.


Lemma mergeProfiles_unfold profiles states :
  mergeProfiles profiles states =
  acc ← mergeLoop profiles (translationMapsOf profiles) 0 states
          (mkMergeLoop [] ∅ [] []);
  Ok (mkMergeOutput
        (Profile.mk
           (ProfileMeta.mk
              (JS.Math_min
                 (map (fun profile => ProfileMeta.interval (Profile.meta profile))
                    profiles))
              (mergeCategories
                 (map (fun profile =>
                         ProfileMeta.categories (Profile.meta profile))
                    profiles)).1)
           (loopThreads acc))
        (loopTransformStacks acc) (loopImplementationFilters acc)
        (loopStates acc)).
Proof.
  unfold mergeProfiles, translationMapsOf.
  by destruct (mergeCategories _).
Qed.

(** A successful merge has run every round; round [i] produced the thread
    and the url state found at index [i] of the output. *)
Lemma mergeProfiles_Ok profiles states out :
  mergeProfiles profiles states = Ok out ->
  Profile.meta (profile out) =
    ProfileMeta.mk
      (JS.Math_min
         (map (fun profile => ProfileMeta.interval (Profile.meta profile))
            profiles))
      (mergeCategories
         (map (fun profile => ProfileMeta.categories (Profile.meta profile))
            profiles)).1 /\
  length (Profile.threads (profile out)) = length states /\
  length (profileStatesAfter out) = length states /\
  forall i state,
    states !! i = Some state ->
    exists round,
      selectInput profiles (translationMapsOf profiles) i state = Ok round /\
      Profile.threads (profile out) !! i =
        Some (normalizeThread i (roundProfile round) (roundThread round)) /\
      profileStatesAfter out !! i = Some (roundState round).
Proof.
  rewrite mergeProfiles_unfold.
  destruct (mergeLoop _ _ _ _ _) as [acc|e] eqn:Hloop; [simpl|done].
  intros [= <-]. simpl.
  apply mergeLoop_Ok in Hloop as (rs & Hlen & Hrs & Ht & _ & Hs).
  simpl in *. rewrite Ht, Hs, !length_fmap.
  split_and!; [done..|].
  intros i state Hi.
  destruct (lookup_lt_is_Some_2 rs i) as [r Hr].
  { rewrite Hlen. by eapply lookup_lt_Some. }
  apply (Hrs i state r Hi) in Hr as Hround.
  apply mergeInput_Ok in Hround as (round & Hround & ->).
  exists round. rewrite !list_lookup_fmap, Hr. done.
Qed.

(** A failed merge stopped at the first round that throws. *)
Lemma mergeProfiles_Throw profiles states e :
  mergeProfiles profiles states = Throw e <->
  exists pre state post,
    states = pre ++ state :: post /\
    (forall k earlier,
       pre !! k = Some earlier ->
       exists round,
         selectInput profiles (translationMapsOf profiles) k earlier
         = Ok round) /\
    selectInput profiles (translationMapsOf profiles) (length pre) state
    = Throw e.
Proof.
  rewrite mergeProfiles_unfold.
  destruct (mergeLoop _ _ _ _ _) as [acc|e'] eqn:Hloop; simpl.
  - split; [done|]. intros (pre & state & post & -> & Hpre & Hstate).
    assert (mergeLoop profiles (translationMapsOf profiles) 0
              (pre ++ state :: post) (mkMergeLoop [] ∅ [] []) = Throw e)
      as Habs; [|congruence].
    apply mergeLoop_Throw. exists pre, state, post. split_and!; [done| |].
    + intros k earlier Hk. destruct (Hpre k earlier Hk) as [round Hround].
      eexists. apply mergeInput_Ok. eauto.
    + by apply mergeInput_Throw.
  - apply mergeLoop_Throw in Hloop as (pre & state & post & -> & Hpre & Hstate).
    simpl in *. apply mergeInput_Throw in Hstate. split.
    + intros [= <-]. exists pre, state, post. split_and!; [done| |done].
      intros k earlier Hk. destruct (Hpre k earlier Hk) as [r Hr].
      apply mergeInput_Ok in Hr as (round & Hround & _). eauto.
    + intros (pre' & state' & post' & Heq & Hpre' & Hstate').
      (* both decompositions single out the first failing round *)
      destruct (Nat.lt_total (length pre) (length pre')) as [Hlt|[Heq'|Hgt]].
      * assert (pre' !! length pre = Some state) as Hin.
        { rewrite <- (lookup_app_l _ (state' :: post')) by done.
          rewrite <- Heq. by apply list_lookup_middle. }
        destruct (Hpre' _ _ Hin) as [round Hround]. congruence.
      * assert (state' = state) as ->.
        { apply (inj Some).
          rewrite <- (list_lookup_middle pre' post' state' (length pre))
            by done.
          rewrite <- Heq. by apply list_lookup_middle. }
        rewrite <- Heq' in Hstate'. congruence.
      * assert (pre !! length pre' = Some state') as Hin.
        { rewrite <- (lookup_app_l _ (state :: post)) by done.
          rewrite Heq. by apply list_lookup_middle. }
        destruct (Hpre _ _ Hin) as [r Hr].
        apply mergeInput_Ok in Hr as (round & Hround & _). congruence.
Qed.

End LoopFacts.

(** ** The normalizer *)

Section NormalizerFacts.
Context {PD : ProfileData}.
Implicit Types (thread : Thread.t) (profile : Profile.t).


Lemma alignStart_fields thread :
  let offset := startTimeAdjustment thread in
  let shiftBy := fun time : JS.number => (time + offset)%float in
  let aligned := alignStart thread in
  SamplesTable.time (Thread.samples aligned) =
    shiftBy <$> SamplesTable.time (Thread.samples thread) /\
  SamplesTable.stack (Thread.samples aligned) =
    SamplesTable.stack (Thread.samples thread) /\
  MarkersTable.time (Thread.markers aligned) =
    shiftBy <$> MarkersTable.time (Thread.markers thread) /\
  Thread.registerTime aligned = shiftBy (Thread.registerTime thread) /\
  Thread.processStartupTime aligned =
    shiftBy (Thread.processStartupTime thread) /\
  Thread.processShutdownTime aligned =
    shiftBy <$> Thread.processShutdownTime thread /\
  Thread.unregisterTime aligned =
    shiftBy <$> Thread.unregisterTime thread /\
  Thread.pid aligned = Thread.pid thread /\
  Thread.processName aligned = Thread.processName thread /\
  Thread.stackTable aligned = Thread.stackTable thread /\
  Thread.frameTable aligned = Thread.frameTable thread.
Proof.
  destruct thread as [? ? ? ? [u|] ? [s|] ? ? ? ?]; by split_and!.
Qed.

Lemma synthesizeUnregisterTime_fields profile thread :
  let merged := synthesizeUnregisterTime profile thread in
  Thread.set_unregisterTime (Thread.unregisterTime merged) thread = merged /\
  (Thread.processShutdownTime thread = None ->
   Thread.unregisterTime thread = None ->
   Thread.unregisterTime merged =
     Some (StartEndRange.end_
             (getTimeRangeForThread thread
                (ProfileMeta.interval (Profile.meta profile))))) /\
  (is_Some (Thread.processShutdownTime thread) \/
   is_Some (Thread.unregisterTime thread) ->
   Thread.unregisterTime merged = Thread.unregisterTime thread).
Proof.
  unfold synthesizeUnregisterTime.
  destruct thread as [? ? ? ? [u|] ? [s|] ? ? ? ?]; simpl;
    (split_and!; [done|done|]); try done.
  intros [[? [=]]|[? [=]]].
Qed.

End NormalizerFacts.

Section MergedThreads.
Context {PD : ProfileData}.

(** C3.  In a successful merge, let [cropped] be the selected thread of
    input [i] once remapped and cropped to its committed range, and let
    [offset] be the negation of its first sample time.  The merged thread
    has every sample time, every marker time, [registerTime] and
    [processStartupTime] of [cropped] moved by [offset]; a non-null
    [processShutdownTime] or [unregisterTime] is moved by [offset] and a
    null one stays null in the shifting step.  When [cropped] has a first
    sample, at a finite time, the first sample time of the merged thread
    is 0. *)
Theorem merged_thread_starts_at_zero
  (profiles : list Profile.t) (states : list UrlState.t)
  (out : MergeOutput) (i : nat) (state : UrlState.t) :
  mergeProfiles profiles states = Ok out ->
  states !! i = Some state ->
  exists round merged,
    selectInput profiles (translationMapsOf profiles) i state = Ok round /\
    Profile.threads (profile out) !! i = Some merged /\
    let cropped := roundThread round in
    let shifted := alignStart (resetProcessIdentity i cropped) in
    let offset :=
      JS.negate (SamplesTable.time (Thread.samples cropped) !! 0) in
    let shift := fun time : JS.number => (time + offset)%float in
    merged = synthesizeUnregisterTime (roundProfile round) shifted /\
    SamplesTable.time (Thread.samples merged) =
      shift <$> SamplesTable.time (Thread.samples cropped) /\
    MarkersTable.time (Thread.markers merged) =
      shift <$> MarkersTable.time (Thread.markers cropped) /\
    Thread.registerTime merged = shift (Thread.registerTime cropped) /\
    Thread.processStartupTime merged =
      shift (Thread.processStartupTime cropped) /\
    Thread.processShutdownTime merged =
      shift <$> Thread.processShutdownTime cropped /\
    Thread.unregisterTime shifted = shift <$> Thread.unregisterTime cropped /\
    (forall first,
       SamplesTable.time (Thread.samples cropped) !! 0 = Some first ->
       is_finite first = true ->
       SamplesTable.time (Thread.samples merged) !! 0 = Some 0%float).
Proof.
  intros Hmerge Hstate.
  destruct (mergeProfiles_Ok _ _ _ Hmerge) as (_ & _ & _ & Hrounds).
  destruct (Hrounds i state Hstate) as (round & Hround & Hthread & _).
  exists round, (normalizeThread i (roundProfile round) (roundThread round)).
  split; [done|]. split; [done|]. simpl.
  set (cropped := roundThread round).
  set (renamed := resetProcessIdentity i cropped).
  destruct (alignStart_fields renamed)
    as (Hs & _ & Hm & Hr & Hp & Hsd & Hu & _).
  destruct (synthesizeUnregisterTime_fields (roundProfile round)
              (alignStart renamed)) as (Hset & _).
  unfold normalizeThread. fold renamed.
  change (startTimeAdjustment renamed)
    with (JS.negate (SamplesTable.time (Thread.samples cropped) !! 0))
    in *.
  split_and!; [done|by rewrite <- Hset..|done|].
  intros first Hfirst Hfin. rewrite <- Hset. simpl.
  rewrite Hs, list_lookup_fmap.
  change (Thread.samples renamed) with (Thread.samples cropped).
  rewrite Hfirst. simpl. f_equal. by apply NumberFacts.add_opp_diag.
Qed.

(** C5.  In a successful merge, let [shifted] be the thread of input [i]
    after the shifting step (its optional times are null exactly when
    those of the cropped thread are).  If [processShutdownTime] and
    [unregisterTime] of [shifted] are both null, the merged thread has
    [unregisterTime] set to the end of
    [getTimeRangeForThread shifted interval], with the interval of the
    input profile; otherwise its [unregisterTime] is the one of [shifted].
    No other field differs between [shifted] and the merged thread. *)
Theorem unregisterTime_synthesized_without_recorded_end
  (profiles : list Profile.t) (states : list UrlState.t)
  (out : MergeOutput) (i : nat) (state : UrlState.t) (inputProfile : Profile.t) :
  mergeProfiles profiles states = Ok out ->
  states !! i = Some state ->
  profiles !! i = Some inputProfile ->
  exists round merged,
    selectInput profiles (translationMapsOf profiles) i state = Ok round /\
    Profile.threads (profile out) !! i = Some merged /\
    let cropped := roundThread round in
    let shifted := alignStart (resetProcessIdentity i cropped) in
    (Thread.processShutdownTime shifted = None <->
     Thread.processShutdownTime cropped = None) /\
    (Thread.unregisterTime shifted = None <->
     Thread.unregisterTime cropped = None) /\
    Thread.set_unregisterTime (Thread.unregisterTime merged) shifted = merged /\
    (Thread.processShutdownTime shifted = None ->
     Thread.unregisterTime shifted = None ->
     Thread.unregisterTime merged =
       Some (StartEndRange.end_
               (getTimeRangeForThread shifted
                  (ProfileMeta.interval (Profile.meta inputProfile))))) /\
    (is_Some (Thread.processShutdownTime shifted) \/
     is_Some (Thread.unregisterTime shifted) ->
     Thread.unregisterTime merged = Thread.unregisterTime shifted).
Proof.
  intros Hmerge Hstate Hprofile.
  destruct (mergeProfiles_Ok _ _ _ Hmerge) as (_ & _ & _ & Hrounds).
  destruct (Hrounds i state Hstate) as (round & Hround & Hthread & _).
  exists round, (normalizeThread i (roundProfile round) (roundThread round)).
  split; [done|]. split; [done|]. simpl.
  assert (Profile.meta (roundProfile round) = Profile.meta inputProfile) as Hmeta.
  { apply selectInput_Ok in Hround
      as (selected & profile' & thread & tm & remapped & _ & Hp & _ & _ & _ & ->).
    simpl. congruence. }
  set (renamed := resetProcessIdentity i (roundThread round)).
  destruct (alignStart_fields renamed)
    as (_ & _ & _ & _ & _ & Hsd & Hu & _).
  destruct (synthesizeUnregisterTime_fields (roundProfile round)
              (alignStart renamed)) as (Hset & Hnone & Hsome).
  rewrite Hmeta in Hnone. unfold normalizeThread. fold renamed.
  split_and!; try done.
  - rewrite Hsd. change (Thread.processShutdownTime renamed)
      with (Thread.processShutdownTime (roundThread round)).
    by rewrite fmap_None.
  - rewrite Hu. change (Thread.unregisterTime renamed)
      with (Thread.unregisterTime (roundThread round)).
    by rewrite fmap_None.
Qed.

End MergedThreads.

(** ** Identity strings, remapped tables and the committed range *)

Section StringFacts.
Open Scope string_scope.
Implicit Types (a b d : string).

Lemma string_of_uint_spaceless (u : Decimal.uint) :
  spaceless (NilEmpty.string_of_uint u).
Proof.
  induction u as [|u IH|u IH|u IH|u IH|u IH|u IH|u IH|u IH|u IH|u IH];
    intros [|c a] b; simpl; try discriminate;
    intros [= ? H]; by apply IH in H.
Qed.

Lemma toString_inj (n m : nat) : JS.toString n = JS.toString m -> n = m.
Proof.
  unfold JS.toString. intros H. apply Unsigned.to_uint_inj.
  assert (Some (Nat.to_uint n) = Some (Nat.to_uint m)) as [= ->]; [|done].
  by rewrite <- !NilEmpty.usu, H.
Qed.

(** Two strings that end with a space followed by spaceless words end with
    the same word. *)
Lemma last_word_inj a b d1 d2 :
  spaceless d1 -> spaceless d2 ->
  a ++ String " " d1 = b ++ String " " d2 -> d1 = d2.
Proof.
  intros H1 H2. revert b. induction a as [|c a IH]; intros [|c' b]; simpl.
  - by intros [= ->].
  - intros [= <- H]. by apply H1 in H.
  - intros [= -> H]. symmetry in H. by apply H2 in H.
  - intros [= _ H]. by apply IH in H.
Qed.

Lemma append_assoc a b d : (a ++ b) ++ d = a ++ (b ++ d).
Proof.
  induction a as [|c a IH]; [done|].
  change (String c ((a ++ b) ++ d) = String c (a ++ (b ++ d))). by f_equal.
Qed.

Lemma pid_ordinal_inj a b (n m : nat) :
  a ++ " from profile " ++ JS.toString n =
  b ++ " from profile " ++ JS.toString m -> n = m.
Proof.
  intros H. apply toString_inj.
  apply (last_word_inj (a ++ " from profile") (b ++ " from profile")).
  - apply string_of_uint_spaceless.
  - apply string_of_uint_spaceless.
  - rewrite !append_assoc. exact H.
Qed.

End StringFacts.

Section RemapFacts.
Context {PD : ProfileData}.

Lemma remapCategories_Ok tm thread remapped :
  remapCategories tm thread = Ok remapped <->
  exists stackCategory frameCategory,
    adjustCategories (StackTable.category (Thread.stackTable thread)) tm
      = Ok stackCategory /\
    adjustNullableCategories
      (FrameTable.category (Thread.frameTable thread)) tm
      = Ok frameCategory /\
    remapped =
      Thread.set_frameTable
        (FrameTable.set_category frameCategory (Thread.frameTable thread))
        (Thread.set_stackTable
           (StackTable.set_category stackCategory (Thread.stackTable thread))
           thread).
Proof.
  unfold remapCategories.
  destruct (adjustCategories _ tm) as [sc|e]; simpl.
  - destruct (adjustNullableCategories _ tm) as [fc|e]; simpl.
    + split; [intros [= <-]; eauto|]. by intros (? & ? & [= <-] & [= <-] & ->).
    + split; [done|]. by intros (? & ? & _ & ? & _).
  - split; [done|]. by intros (? & ? & ? & _).
Qed.

(** Every value of a translation map is an index of the merged list. *)
Lemma translationMap_range
  (categoriesPerThread : list CategoryList) (k : nat) (tm : gmap nat nat)
  (old new : nat) :
  (mergeCategories categoriesPerThread).2 !! k = Some tm ->
  tm !! old = Some new ->
  new < length (mergeCategories categoriesPerThread).1.
Proof.
  intros Htm Hold.
  destruct (mergeCategoryList_inv categoriesPerThread) as (_ & Hlen & Htms).
  destruct (lookup_lt_is_Some_2 categoriesPerThread k) as [l Hl].
  { rewrite <- Hlen. by eapply lookup_lt_Some. }
  rewrite (Htms k l tm Hl Htm old) in Hold.
  destruct (l !! old) as [c|]; [simpl in Hold|done].
  destruct (firstWithName _ _) as [[j first]|] eqn:Hfind; simplify_eq/=.
  apply list_find_Some in Hfind as (Hj & _). by eapply lookup_lt_Some.
Qed.

Lemma adjustCategories_range tm categories out (bound : nat) :
  (forall old new, tm !! old = Some new -> new < bound) ->
  adjustCategories categories tm = Ok out ->
  Forall (fun category => category < bound) out.
Proof.
  intros Hrange Hout%adjustCategories_Ok.
  induction Hout; constructor; eauto.
Qed.

Lemma adjustNullableCategories_range tm categories out (bound : nat) :
  (forall old new, tm !! old = Some new -> new < bound) ->
  adjustNullableCategories categories tm = Ok out ->
  Forall (fun category =>
            match category with
            | Some category => category < bound
            | None => True
            end) out.
Proof.
  intros Hrange Hout%adjustNullableCategories_Ok.
  induction Hout as [|[c|] r l k Hr _ IH]; constructor; try done.
  - destruct Hr as (new & Hnew & ->). eauto.
  - by subst.
Qed.

Context {Laws : ProfileDataLaws PD}.

Lemma cropToCommittedRange_preserves zeroAt committedRange thread :
  let cropped := cropToCommittedRange zeroAt committedRange thread in
  cropped =
  Thread.set_markers (Thread.markers cropped)
    (Thread.set_samples (Thread.samples cropped) thread).
Proof.
  destruct committedRange as [range|]; simpl.
  - apply filter_preserves.
  - by destruct thread.
Qed.

End RemapFacts.

Section Orchestrator.
Context {PD : ProfileData}.


End Orchestrator.

Section Identity.
Context {PD : ProfileData} {Laws : ProfileDataLaws PD}.

Lemma normalizeThread_fields (k : nat) (profile : Profile.t) (t : Thread.t) :
  let merged := normalizeThread k profile t in
  Thread.pid merged =
    (Thread.pid t ++ " from profile " ++ JS.toString (k + 1))%string /\
  Thread.processName merged =
    Some ("Profile " ++ JS.toString (k + 1) ++ ": "
            ++ JS.orElse (Thread.processName t) (Thread.name t))%string /\
  Thread.name merged = Thread.name t /\
  Thread.stackTable merged = Thread.stackTable t /\
  Thread.frameTable merged = Thread.frameTable t.
Proof.
  unfold normalizeThread, synthesizeUnregisterTime.
  destruct t as [? ? ? ? [u|] ? [s|] ? ? ? ?]; by split_and!.
Qed.

(** C8.  With range helpers that preserve the fields they do not filter:
    every thread of a successfully merged profile satisfies the
    category-reference invariant with respect to the merged category list.
    (A successful merge implies that the selected threads satisfied it for
    their own lists: a dangling index makes the remapping throw.) *)
Theorem merged_categories_valid
  (profiles : list Profile.t) (states : list UrlState.t)
  (out : MergeOutput) (i : nat) (merged : Thread.t) :
  mergeProfiles profiles states = Ok out ->
  Profile.threads (profile out) !! i = Some merged ->
  validCategories (ProfileMeta.categories (Profile.meta (profile out))) merged.
Proof.
  intros Hmerge Hmerged.
  destruct (mergeProfiles_Ok _ _ _ Hmerge) as (-> & Hlen & _ & Hrounds).
  destruct (lookup_lt_is_Some_2 states i) as [state Hstate].
  { rewrite <- Hlen. by eapply lookup_lt_Some. }
  destruct (Hrounds i state Hstate) as (round & Hround & Hmerged' & _).
  rewrite Hmerged in Hmerged'. injection Hmerged' as ->.
  apply selectInput_Ok in Hround
    as (selected & inputProfile & thread & tm & remapped
        & _ & _ & _ & Htm & Hremap & ->).
  simpl.
  apply remapCategories_Ok in Hremap as (sc & fc & Hsc & Hfc & ->).
  match goal with
  | |- context [cropToCommittedRange ?z ?r ?t] =>
      pose proof (cropToCommittedRange_preserves z r t) as Hcrop;
      cbv zeta in Hcrop;
      set (cropped := cropToCommittedRange z r t) in *
  end.
  unfold validCategories.
  match goal with
  | |- context [normalizeThread i ?p cropped] =>
      destruct (normalizeThread_fields i p cropped) as (_ & _ & _ & -> & ->)
  end.
  replace (Thread.stackTable cropped)
    with (StackTable.set_category sc (Thread.stackTable thread))
    by (by rewrite Hcrop).
  replace (Thread.frameTable cropped)
    with (FrameTable.set_category fc (Thread.frameTable thread))
    by (by rewrite Hcrop).
  assert (forall old new, tm !! old = Some new ->
            new < length (mergeCategories
              (map (fun profile : Profile.t =>
                      ProfileMeta.categories (Profile.meta profile))
                 profiles)).1) as Hrange.
  { intros old new. by apply translationMap_range with (k := i). }
  simpl.
  split; [by eapply adjustCategories_range
         |by eapply adjustNullableCategories_range].
Qed.

End Identity.

(** ** The contract of mergeProfiles *)

Section Contract.
Context {PD : ProfileData}.

(** C9.  The interval of the merged profile is [Math.min] of the intervals
    of the inputs: for at least one input and no NaN among the intervals, it
    is one of them and is below or equal to each; it is NaN if one of them
    is, and +Infinity when there is no input. *)
Theorem merged_interval_is_minimum
  (profiles : list Profile.t) (states : list UrlState.t) (out : MergeOutput) :
  mergeProfiles profiles states = Ok out ->
  let intervals :=
    map (fun profile => ProfileMeta.interval (Profile.meta profile)) profiles in
  let merged := ProfileMeta.interval (Profile.meta (profile out)) in
  merged = JS.Math_min intervals /\
  (intervals <> [] ->
   Forall (fun interval => is_nan interval = false) intervals ->
   merged ∈ intervals /\
   Forall (fun interval => (merged <=? interval)%float = true) intervals) /\
  (Exists (fun interval => is_nan interval = true) intervals -> merged = nan) /\
  (profiles = [] -> merged = infinity).
Proof.
  intros Hmerge intervals merged.
  destruct (mergeProfiles_Ok _ _ _ Hmerge) as (Hmeta & _).
  assert (merged = JS.Math_min intervals) as -> by (unfold merged; by rewrite Hmeta).
  split_and!; [done| | |].
  - apply NumberFacts.Math_min_minimum.
  - apply NumberFacts.fold_min2_Exists_nan.
  - unfold intervals. by intros ->.
Qed.

(** C10.  A selected thread index past the end of the thread list of its
    profile is not reported as a contract violation: round [i] throws the
    [TypeError] of the property read on the missing thread, in the
    remapping step, so [mergeProfiles] throws, never with "No thread has
    been selected in profile i"; it throws that [TypeError] when the
    rounds before [i] have gone through. *)
Theorem out_of_range_selection_throws_TypeError
  (profiles : list Profile.t) (states : list UrlState.t)
  (i : nat) (state : UrlState.t) (inputProfile : Profile.t) (selected : nat) :
  states !! i = Some state ->
  profiles !! i = Some inputProfile ->
  ProfileSpecific.selectedThread (UrlState.profileSpecific state)
    = Some selected ->
  length (Profile.threads inputProfile) <= selected ->
  selectInput profiles (translationMapsOf profiles) i state
    = Throw (TypeError "thread") /\
  (exists e,
     mergeProfiles profiles states = Throw e /\ e <> NoThreadSelected i) /\
  ((forall k earlier,
      k < i -> states !! k = Some earlier ->
      exists round,
        selectInput profiles (translationMapsOf profiles) k earlier
        = Ok round) ->
   mergeProfiles profiles states = Throw (TypeError "thread")).
Proof.
  intros Hstate Hprofile Hselected Hrange.
  assert (selectInput profiles (translationMapsOf profiles) i state
          = Throw (TypeError "thread")) as Hthrow.
  { unfold selectInput. rewrite Hselected, Hprofile.
    by rewrite lookup_ge_None_2. }
  split_and!; [done| |].
  - destruct (mergeProfiles profiles states) as [out|e] eqn:Hmerge.
    + destruct (mergeProfiles_Ok _ _ _ Hmerge) as (_ & _ & _ & Hrounds).
      destruct (Hrounds i state Hstate) as (round & Hround & _). congruence.
    + exists e. split; [done|]. intros ->.
      apply mergeProfiles_Throw in Hmerge
        as (pre & failing & post & -> & Hpre & Hfailing).
      apply selectInput_NoThreadSelected in Hfailing as [Hnull ->].
      rewrite list_lookup_middle in Hstate by done.
      injection Hstate as ->. congruence.
  - intros Hearlier.
    apply list_elem_of_split_length in Hstate as (pre & post & -> & ->).
    apply mergeProfiles_Throw. exists pre, state, post.
    split_and!; [done| |done].
    intros k earlier Hk. apply (Hearlier k earlier).
    + by eapply lookup_lt_Some.
    + by rewrite lookup_app_l by (by eapply lookup_lt_Some).
Qed.

End Contract.

(** ** The properties on the sample inputs *)

(** The reference helpers preserve the fields they do not filter. *)
Lemma specProfileData_laws : ProfileDataLaws SpecProfileData.instance.
Proof. constructor. by intros [] ? ?. Qed.

(** The merge of the two sample profiles goes through. *)
Lemma sample_merged :
  mergeProfiles (PD := SpecProfileData.instance) Sample.profiles Sample.states
  = Ok Sample.merged.
Proof. vm_compute. reflexivity. Qed.

(** The category lists [Idle; Other] and [Other; Layout]. *)
Lemma mergeCategories_first_occurrence_wins_witness :
  (mergeCategories
     [[Sample.catA; Sample.catB]; [Sample.catB'; Sample.catC]]).1 =
  firstOccurrences [Sample.catA; Sample.catB; Sample.catB'; Sample.catC] /\
  mergeCategories
    [[Sample.catA; Sample.catB]; [Sample.catB'; Sample.catC]] =
  ([Sample.catA; Sample.catB; Sample.catC],
   [ {[0 := 0; 1 := 1]}; {[0 := 1; 1 := 2]} ]).
Proof.
  pose proof (mergeCategories_first_occurrence_wins
                [[Sample.catA; Sample.catB]; [Sample.catB'; Sample.catC]])
    as H.
  cbv zeta in H. destruct H as (Hmerged & _ & _ & _ & _ & Hexample).
  split; [exact Hmerged|]. by apply Hexample.
Defined.

(** Remapping with the second translation map of the lists above. *)
Lemma adjustCategories_maps_or_fails_witness :
  (exists out,
     adjustCategories [1; 0; 1] {[0 := 1; 1 := 2]} = Ok out /\
     length out = 3 /\
     forall k category,
       [1; 0; 1] !! k = Some category ->
       out !! k = ({[0 := 1; 1 := 2]} : gmap nat nat) !! category) /\
  (exists pre bad post,
     [0; 7; 1; 9] = pre ++ bad :: post /\
     Forall (fun category =>
               is_Some (({[0 := 1; 1 := 2]} : gmap nat nat) !! category)) pre /\
     ({[0 := 1; 1 := 2]} : gmap nat nat) !! bad = None /\
     adjustCategories [0; 7; 1; 9] {[0 := 1; 1 := 2]}
     = Throw (CategoryNotFound bad)) /\
  adjustNullableCategories [None; None] {[0 := 1; 1 := 2]}
  = Ok [None; None].
Proof.
  destruct (adjustCategories_maps_or_fails {[0 := 1; 1 := 2]})
    as (Hok & Hthrow & _ & _ & Hnull).
  split_and!.
  - apply Hok. repeat constructor; by eexists.
  - apply Hthrow. apply Exists_cons_tl, Exists_cons_hd. reflexivity.
  - exact (Hnull 2 _).
Defined.

(** The second sample thread starts at 7000 and is cropped to the samples
    at 7001 and 7002: merged, they are at 0 and 1. *)
Lemma merged_thread_starts_at_zero_witness :
  exists merged,
    Profile.threads (profile Sample.merged) !! 1 = Some merged /\
    SamplesTable.time (Thread.samples merged) = [0; 1]%float.
Proof.
  destruct (merged_thread_starts_at_zero (PD := SpecProfileData.instance)
              Sample.profiles Sample.states Sample.merged 1
              (Sample.state (Some 1)
                 [StartEndRange.mk 0 10; StartEndRange.mk 6996 6998]%float)
              sample_merged eq_refl)
    as (round & merged & Hround & Hmerged & _ & Htime & _).
  exists merged. split; [exact Hmerged|].
  vm_compute in Hround. injection Hround as <-.
  rewrite Htime. vm_compute. reflexivity.
Defined.


(** The first sample thread records no end: its last sample is at 2 once
    shifted, and the interval of its profile is 1. *)
Lemma unregisterTime_synthesized_without_recorded_end_witness :
  exists merged,
    Profile.threads (profile Sample.merged) !! 0 = Some merged /\
    Thread.unregisterTime merged = Some 3%float.
Proof.
  destruct (unregisterTime_synthesized_without_recorded_end
              (PD := SpecProfileData.instance)
              Sample.profiles Sample.states Sample.merged 0
              (Sample.state (Some 0) []) Sample.profile1
              sample_merged eq_refl eq_refl)
    as (round & merged & Hround & Hmerged & _ & _ & _ & Hsynth & _).
  exists merged. split; [exact Hmerged|].
  vm_compute in Hround. injection Hround as <-.
  rewrite Hsynth by reflexivity. vm_compute. reflexivity.
Defined.

(** The categories of the second merged thread point into the three
    merged categories. *)
Lemma merged_categories_valid_witness :
  exists merged,
    Profile.threads (profile Sample.merged) !! 1 = Some merged /\
    validCategories [Sample.catA; Sample.catB; Sample.catC] merged.
Proof.
  eexists. split; [vm_compute; reflexivity|].
  exact (merged_categories_valid
           (PD := SpecProfileData.instance) (Laws := specProfileData_laws)
           Sample.profiles Sample.states Sample.merged 1 _
           sample_merged eq_refl).
Defined.

(** Intervals 1 and 0.5 merge into 0.5. *)
Lemma merged_interval_is_minimum_witness :
  ProfileMeta.interval (Profile.meta (profile Sample.merged)) = 0.5%float /\
  Forall (fun interval =>
            (ProfileMeta.interval (Profile.meta (profile Sample.merged))
             <=? interval)%float = true) [1; 0.5]%float.
Proof.
  destruct (merged_interval_is_minimum (PD := SpecProfileData.instance)
              Sample.profiles Sample.states Sample.merged sample_merged)
    as (Hmin & Hleast & _).
  split; [by rewrite Hmin|].
  apply Hleast; [done|]. by repeat constructor.
Defined.

(** Thread 5 of a profile that has one thread. *)
Lemma out_of_range_selection_throws_TypeError_witness :
  mergeProfiles (PD := SpecProfileData.instance)
    Sample.profiles Sample.staleStates = Throw (TypeError "thread").
Proof.
  apply (out_of_range_selection_throws_TypeError
           (PD := SpecProfileData.instance)
           Sample.profiles Sample.staleStates 0 (Sample.state (Some 5) [])
           Sample.profile1 5 eq_refl eq_refl eq_refl).
  - vm_compute. lia.
  - intros k earlier Hk. lia.
Defined.

(** * Further properties of the merge and of the marker context menu *)

Section TranslationMaps.
Local Arguments mergeCategories : simpl never.
Implicit Types (inputs : list CategoryList) (l : CategoryList)
  (tm : gmap nat nat).

(** An entry of a translation map: the category it stands for, and the
    merged category of that name it points to. *)
Lemma translationMap_entry inputs k l tm (old : nat) :
  inputs !! k = Some l ->
  (mergeCategories inputs).2 !! k = Some tm ->
  tm !! old =
    category ← l !! old;
    fst <$> firstWithName (Category.name category) (mergeCategories inputs).1.
Proof.
  intros Hl Htm.
  destruct (mergeCategoryList_inv inputs) as (_ & _ & Htms).
  exact (Htms k l tm Hl Htm old).
Qed.

Lemma translationMap_Some inputs k l tm (old new : nat) :
  inputs !! k = Some l ->
  (mergeCategories inputs).2 !! k = Some tm ->
  tm !! old = Some new <->
  exists category first,
    l !! old = Some category /\
    firstWithName (Category.name category) (mergeCategories inputs).1
    = Some (new, first).
Proof.
  intros Hl Htm. rewrite (translationMap_entry inputs k l tm old Hl Htm).
  split.
  - destruct (l !! old) as [category|]; [simpl|done].
    destruct (firstWithName _ _) as [[n first]|] eqn:Hfind; [|done].
    intros [= <-]. eauto.
  - intros (category & first & -> & Hfind).
    change (fst <$> firstWithName (Category.name category)
                      (mergeCategories inputs).1 = Some new).
    by rewrite Hfind.
Qed.

(** The domain of a translation map is the index range of its input. *)
Lemma translationMap_dom inputs k l tm (old : nat) :
  inputs !! k = Some l ->
  (mergeCategories inputs).2 !! k = Some tm ->
  is_Some (tm !! old) <-> old < length l.
Proof.
  intros Hl Htm. rewrite (translationMap_entry inputs k l tm old Hl Htm).
  rewrite <- lookup_lt_is_Some. split.
  - destruct (l !! old); [eauto|by intros [? ?]].
  - intros [category Hc]. rewrite Hc.
    change (is_Some (fst <$> firstWithName (Category.name category)
                               (mergeCategories inputs).1)).
    assert (is_Some (firstWithName (Category.name category)
                       (mergeCategories inputs).1)) as [[n first] ->];
      [|by eexists].
    apply firstWithName_is_Some.
    destruct (mergeCategoryList_inv inputs) as ([Hm _] & _).
    change (accCategories _) with (mergeCategories inputs).1 in Hm.
    rewrite Hm. apply names_firstOccurrences, list_elem_of_fmap.
    exists category. split; [done|]. apply list_elem_of_In, in_concat.
    exists l. split; apply list_elem_of_In; by eapply list_elem_of_lookup_2.
Qed.

End TranslationMaps.

Section Success.
Context {PD : ProfileData}.
Local Arguments mergeCategories : simpl never.

Lemma adjustCategories_is_Ok (tm : gmap nat nat) (categories : list nat) :
  (exists out, adjustCategories categories tm = Ok out) <->
  Forall (fun category => is_Some (tm !! category)) categories.
Proof.
  split.
  - intros [out Hout%adjustCategories_Ok].
    induction Hout; constructor; eauto.
  - induction 1 as [|c l [r Hr] _ [out IH]]; [by exists []|].
    exists (r :: out). apply adjustCategories_Ok.
    constructor; [done|]. by apply adjustCategories_Ok.
Qed.

Lemma adjustNullableCategories_is_Ok
  (tm : gmap nat nat) (categories : list (option nat)) :
  (exists out, adjustNullableCategories categories tm = Ok out) <->
  Forall (fun category =>
            match category with
            | Some category => is_Some (tm !! category)
            | None => True
            end) categories.
Proof.
  split.
  - intros [out Hout%adjustNullableCategories_Ok].
    induction Hout as [|[c|] r l k Hr _ IH]; constructor; try done.
    destruct Hr as (new & Hnew & _). eauto.
  - induction 1 as [|c l Hc _ [out IH]]; [by exists []|].
    apply adjustNullableCategories_Ok in IH.
    destruct c as [c|].
    + destruct Hc as [r Hr]. exists (Some r :: out).
      apply adjustNullableCategories_Ok. constructor; eauto.
    + exists (None :: out). apply adjustNullableCategories_Ok.
      by constructor.
Qed.

Lemma remapCategories_is_Ok (tm : gmap nat nat) (thread : Thread.t) :
  (exists remapped, remapCategories tm thread = Ok remapped) <->
  Forall (fun category => is_Some (tm !! category))
    (StackTable.category (Thread.stackTable thread)) /\
  Forall (fun category =>
            match category with
            | Some category => is_Some (tm !! category)
            | None => True
            end)
    (FrameTable.category (Thread.frameTable thread)).
Proof.
  rewrite <- adjustCategories_is_Ok, <- adjustNullableCategories_is_Ok.
  split.
  - intros [remapped (sc & fc & Hsc & Hfc & _)%remapCategories_Ok]. eauto.
  - intros [[sc Hsc] [fc Hfc]]. eexists. apply remapCategories_Ok. eauto.
Qed.

(** A round goes through exactly for a selected thread that exists and
    whose category indexes point into the categories of its profile. *)
Lemma selectInput_is_Ok
  (profiles : list Profile.t) (i : nat) (state : UrlState.t) :
  (exists round,
     selectInput profiles (translationMapsOf profiles) i state = Ok round) <->
  exists selected inputProfile thread,
    ProfileSpecific.selectedThread (UrlState.profileSpecific state)
      = Some selected /\
    profiles !! i = Some inputProfile /\
    Profile.threads inputProfile !! selected = Some thread /\
    validCategories (ProfileMeta.categories (Profile.meta inputProfile)) thread.
Proof.
  assert (forall inputProfile tm thread,
    profiles !! i = Some inputProfile ->
    translationMapsOf profiles !! i = Some tm ->
    (exists remapped, remapCategories tm thread = Ok remapped) <->
    validCategories (ProfileMeta.categories (Profile.meta inputProfile)) thread)
    as Hvalid.
  { intros inputProfile tm thread Hp Htm. rewrite remapCategories_is_Ok.
    assert (forall old, is_Some (tm !! old) <->
              old < length (ProfileMeta.categories (Profile.meta inputProfile)))
      as Hdom.
    { intros old. eapply translationMap_dom; [|exact Htm].
      by rewrite list_lookup_fmap, Hp. }
    unfold validCategories.
    split; intros [Hstack Hframe]; split.
    - eapply Forall_impl; [exact Hstack|]. intros old. apply Hdom.
    - eapply Forall_impl; [exact Hframe|]. intros [old|]; [apply Hdom|done].
    - eapply Forall_impl; [exact Hstack|]. intros old. apply Hdom.
    - eapply Forall_impl; [exact Hframe|]. intros [old|]; [apply Hdom|done]. }
  split.
  - intros [round (selected & inputProfile & thread & tm & remapped
                   & Hs & Hp & Ht & Htm & Hremap & _)%selectInput_Ok].
    exists selected, inputProfile, thread. split_and!; [done..|].
    eapply Hvalid; eauto.
  - intros (selected & inputProfile & thread & Hs & Hp & Ht & Hv).
    destruct (lookup_lt_is_Some_2 (translationMapsOf profiles) i) as [tm Htm].
    { rewrite translationMapsOf_length. by eapply lookup_lt_Some. }
    destruct (proj2 (Hvalid inputProfile tm thread Hp Htm) Hv)
      as [remapped Hremap].
    eexists. apply selectInput_Ok.
    exists selected, inputProfile, thread, tm, remapped. by split_and!.
Qed.

(** On values, [mergeProfiles] returns an output exactly when every url
    state selects a thread that exists in the input profile of the same
    position and every category index of that thread is an index of the
    category list of its profile. *)
Lemma mergeProfiles_Ok_iff
  (profiles : list Profile.t) (states : list UrlState.t) :
  (exists out, mergeProfiles profiles states = Ok out) <->
  forall i state,
    states !! i = Some state ->
    exists selected inputProfile thread,
      ProfileSpecific.selectedThread (UrlState.profileSpecific state)
        = Some selected /\
      profiles !! i = Some inputProfile /\
      Profile.threads inputProfile !! selected = Some thread /\
      validCategories
        (ProfileMeta.categories (Profile.meta inputProfile)) thread.
Proof.
  split.
  - intros [out Hmerge] i state Hstate.
    destruct (mergeProfiles_Ok _ _ _ Hmerge) as (_ & _ & _ & Hrounds).
    destruct (Hrounds i state Hstate) as (round & Hround & _).
    apply selectInput_is_Ok. eauto.
  - intros Hall.
    destruct (mergeProfiles profiles states) as [out|e] eqn:Hmerge; [eauto|].
    apply mergeProfiles_Throw in Hmerge
      as (pre & state & post & -> & _ & Hthrow).
    destruct (proj2 (selectInput_is_Ok profiles (length pre) state))
      as [round Hround]; [|congruence].
    apply Hall. by apply list_lookup_middle.
Qed.

End Success.

Section Failure.
Context {PD : ProfileData}.
Local Arguments mergeCategories : simpl never.

(** X2.  When [mergeProfiles] throws, the error is the one of the first
    round that fails, and the checks of that round are made in the order
    of the source: a null selection first, then the missing input
    profile, then the missing thread, then the first dangling category
    index of the stack table, and only after the whole stack table has
    been remapped the first dangling index of the frame table. *)
Theorem mergeProfiles_throws_first_violation
  (profiles : list Profile.t) (states : list UrlState.t) (e : Error) :
  mergeProfiles profiles states = Throw e ->
  exists k state,
    states !! k = Some state /\
    (forall j earlier,
       j < k -> states !! j = Some earlier ->
       exists round,
         selectInput profiles (translationMapsOf profiles) j earlier
         = Ok round) /\
    match ProfileSpecific.selectedThread (UrlState.profileSpecific state) with
    | None => e = NoThreadSelected k
    | Some selected =>
      match profiles !! k with
      | None => e = TypeError "profile"
      | Some inputProfile =>
        match Profile.threads inputProfile !! selected with
        | None => e = TypeError "thread"
        | Some thread =>
          let bound :=
            length (ProfileMeta.categories (Profile.meta inputProfile)) in
          let stackCategories :=
            StackTable.category (Thread.stackTable thread) in
          let frameCategories :=
            FrameTable.category (Thread.frameTable thread) in
          let inBounds := fun category : option nat =>
            match category with
            | Some category => category < bound
            | None => True
            end in
          exists bad,
            e = CategoryNotFound bad /\ bound <= bad /\
            ((exists pre post,
                stackCategories = pre ++ bad :: post /\
                Forall (fun category => category < bound) pre) \/
             (Forall (fun category => category < bound) stackCategories /\
              exists pre post,
                frameCategories = pre ++ Some bad :: post /\
                Forall inBounds pre))
        end
      end
    end.
Proof.
  intros (pre & state & post & -> & Hpre & Hthrow)%mergeProfiles_Throw.
  exists (length pre), state. split; [by apply list_lookup_middle|].
  split.
  { intros j earlier Hj Hearlier. apply (Hpre j).
    by rewrite lookup_app_l in Hearlier. }
  unfold selectInput in Hthrow.
  destruct (ProfileSpecific.selectedThread _) as [selected|];
    [|congruence].
  destruct (profiles !! length pre) as [inputProfile|] eqn:Hp; [|congruence].
  destruct (Profile.threads inputProfile !! selected) as [thread|];
    [|congruence].
  destruct (lookup_lt_is_Some_2 (translationMapsOf profiles) (length pre))
    as [tm Htm].
  { rewrite translationMapsOf_length. by eapply lookup_lt_Some. }
  rewrite Htm in Hthrow.
  assert (forall old, is_Some (tm !! old) <->
            old < length (ProfileMeta.categories (Profile.meta inputProfile)))
    as Hdom.
  { intros old. eapply translationMap_dom; [|exact Htm].
    by rewrite list_lookup_fmap, Hp. }
  assert (forall old, tm !! old = None ->
            length (ProfileMeta.categories (Profile.meta inputProfile)) <= old)
    as Hout.
  { intros old Hnone. destruct (decide (old <
      length (ProfileMeta.categories (Profile.meta inputProfile)))) as [Hlt|];
      [|lia].
    apply Hdom in Hlt as [? ?]. congruence. }
  destruct (remapCategories tm thread) as [remapped|e'] eqn:Hremap.
  { simpl in Hthrow. by destruct (popCommittedRange _). }
  simpl in Hthrow. injection Hthrow as ->.
  unfold remapCategories in Hremap. simpl.
  destruct (adjustCategories _ tm) as [sc|e'] eqn:Hs; simpl in Hremap.
  - destruct (adjustNullableCategories _ tm) as [fc|e'] eqn:Hf;
      simpl in Hremap; [done|]. injection Hremap as ->.
    apply adjustNullableCategories_Throw in Hf
      as (fpre & bad & fpost & Heq & Hfpre & Hbad & ->).
    exists bad. split_and!; [done|by apply Hout|]. right. split.
    + assert (exists out, adjustCategories
                (StackTable.category (Thread.stackTable thread)) tm = Ok out)
        as Hok by eauto.
      apply adjustCategories_is_Ok in Hok.
      eapply Forall_impl; [exact Hok|]. intros old. apply Hdom.
    + exists fpre, fpost. split; [exact Heq|].
      eapply Forall_impl; [exact Hfpre|]. intros [old|]; [apply Hdom|done].
  - injection Hremap as ->.
    apply adjustCategories_Throw in Hs
      as (spre & bad & spost & Heq & Hspre & Hbad & ->).
    exists bad. split_and!; [done|by apply Hout|]. left.
    exists spre, spost. split; [exact Heq|].
    eapply Forall_impl; [exact Hspre|]. intros old. apply Hdom.
Qed.

End Failure.

Section Preservation.
Context {PD : ProfileData} {Laws : ProfileDataLaws PD}.
Local Arguments mergeCategories : simpl never.

(** The tables of a merged thread, read off the selected thread. *)
Lemma merged_thread_tables
  (profiles : list Profile.t) (states : list UrlState.t)
  (out : MergeOutput) (i : nat) (state : UrlState.t)
  (inputProfile : Profile.t) (selected : nat) (thread : Thread.t) :
  mergeProfiles profiles states = Ok out ->
  states !! i = Some state ->
  profiles !! i = Some inputProfile ->
  ProfileSpecific.selectedThread (UrlState.profileSpecific state)
    = Some selected ->
  Profile.threads inputProfile !! selected = Some thread ->
  exists tm stackCategory frameCategory merged,
    translationMapsOf profiles !! i = Some tm /\
    adjustCategories (StackTable.category (Thread.stackTable thread)) tm
      = Ok stackCategory /\
    adjustNullableCategories
      (FrameTable.category (Thread.frameTable thread)) tm
      = Ok frameCategory /\
    Profile.threads (profile out) !! i = Some merged /\
    Thread.name merged = Thread.name thread /\
    Thread.stackTable merged =
      StackTable.set_category stackCategory (Thread.stackTable thread) /\
    Thread.frameTable merged =
      FrameTable.set_category frameCategory (Thread.frameTable thread).
Proof.
  intros Hmerge Hstate Hprofile Hselected Hthread.
  destruct (mergeProfiles_Ok _ _ _ Hmerge) as (_ & _ & _ & Hrounds).
  destruct (Hrounds i state Hstate) as (round & Hround & Hmerged & _).
  apply selectInput_Ok in Hround
    as (selected' & profile' & thread' & tm & remapped
        & Hs & Hp & Ht & Htm & Hremap & ->).
  simplify_eq/=.
  apply remapCategories_Ok in Hremap as (sc & fc & Hsc & Hfc & ->).
  exists tm, sc, fc. eexists. split_and!; [done..|exact Hmerged| | |].
  all: match goal with
       | |- context [normalizeThread ?k ?p (cropToCommittedRange ?z ?r ?t)] =>
           destruct (normalizeThread_fields k p (cropToCommittedRange z r t))
             as (_ & _ & Hn & Hs & Hf);
           rewrite ?Hn, ?Hs, ?Hf;
           rewrite (cropToCommittedRange_preserves z r t)
       end; done.
Qed.

(** On values, remapping keeps the name of every category: position by
    position, the merged category a stack or a frame of the merged thread
    points to has the name of the input category the original index
    pointed to, and a null frame category stays null. *)
Lemma remapCategories_keeps_names
  (profiles : list Profile.t) (states : list UrlState.t)
  (out : MergeOutput) (i : nat) (state : UrlState.t)
  (inputProfile : Profile.t) (selected : nat) (thread : Thread.t) :
  mergeProfiles profiles states = Ok out ->
  states !! i = Some state ->
  profiles !! i = Some inputProfile ->
  ProfileSpecific.selectedThread (UrlState.profileSpecific state)
    = Some selected ->
  Profile.threads inputProfile !! selected = Some thread ->
  exists merged,
    Profile.threads (profile out) !! i = Some merged /\
    let before := ProfileMeta.categories (Profile.meta inputProfile) in
    let after := ProfileMeta.categories (Profile.meta (profile out)) in
    let sameName := fun old new : nat =>
      exists category first,
        before !! old = Some category /\ after !! new = Some first /\
        Category.name first = Category.name category in
    Forall2 sameName
      (StackTable.category (Thread.stackTable thread))
      (StackTable.category (Thread.stackTable merged)) /\
    Forall2 (fun old new =>
               match old, new with
               | Some old, Some new => sameName old new
               | None, None => True
               | _, _ => False
               end)
      (FrameTable.category (Thread.frameTable thread))
      (FrameTable.category (Thread.frameTable merged)).
Proof.
  intros Hmerge Hstate Hprofile Hselected Hthread.
  destruct (merged_thread_tables _ _ _ _ _ _ _ _
              Hmerge Hstate Hprofile Hselected Hthread)
    as (tm & sc & fc & merged & Htm & Hsc & Hfc & Hmerged & _ & Hst & Hft).
  exists merged. split; [done|]. simpl.
  destruct (mergeProfiles_Ok _ _ _ Hmerge) as (-> & _). simpl.
  rewrite Hst, Hft. simpl.
  assert (forall old new, tm !! old = Some new ->
    exists category first,
      ProfileMeta.categories (Profile.meta inputProfile) !! old
        = Some category /\
      (mergeCategories
         (map (fun profile => ProfileMeta.categories (Profile.meta profile))
            profiles)).1 !! new = Some first /\
      Category.name first = Category.name category) as Hname.
  { intros old new Hold.
    assert (map (fun profile => ProfileMeta.categories (Profile.meta profile))
              profiles !! i
            = Some (ProfileMeta.categories (Profile.meta inputProfile)))
      as Hinput by (by rewrite list_lookup_fmap, Hprofile).
    destruct (proj1 (translationMap_Some _ i _ tm old new Hinput Htm) Hold)
      as (category & first & Hc & Hfind).
    apply list_find_Some in Hfind as (Hnew & Hn & _). eauto. }
  split.
  - apply adjustCategories_Ok in Hsc.
    eapply Forall2_impl; [exact Hsc|]. intros old new. apply Hname.
  - apply adjustNullableCategories_Ok in Hfc.
    eapply Forall2_impl; [exact Hfc|]. intros [old|] new; simpl.
    + intros (new' & Hnew & ->). by apply Hname.
    + by intros ->.
Qed.

(** X4.  The merge leaves the shape of a selected thread alone: its
    name, the frame and prefix columns of its stack table and the func
    column of its frame table are unchanged, and the category columns
    keep their lengths.  With no committed range to apply the sample
    stacks and marker names are unchanged too, and no sample or marker
    time is added or dropped. *)
Theorem merge_keeps_thread_structure
  (profiles : list Profile.t) (states : list UrlState.t)
  (out : MergeOutput) (i : nat) (state : UrlState.t)
  (inputProfile : Profile.t) (selected : nat) (thread : Thread.t) :
  mergeProfiles profiles states = Ok out ->
  states !! i = Some state ->
  profiles !! i = Some inputProfile ->
  ProfileSpecific.selectedThread (UrlState.profileSpecific state)
    = Some selected ->
  Profile.threads inputProfile !! selected = Some thread ->
  exists merged,
    Profile.threads (profile out) !! i = Some merged /\
    Thread.name merged = Thread.name thread /\
    StackTable.frame (Thread.stackTable merged)
      = StackTable.frame (Thread.stackTable thread) /\
    StackTable.prefix (Thread.stackTable merged)
      = StackTable.prefix (Thread.stackTable thread) /\
    FrameTable.func (Thread.frameTable merged)
      = FrameTable.func (Thread.frameTable thread) /\
    length (StackTable.category (Thread.stackTable merged))
      = length (StackTable.category (Thread.stackTable thread)) /\
    length (FrameTable.category (Thread.frameTable merged))
      = length (FrameTable.category (Thread.frameTable thread)) /\
    (ProfileSpecific.committedRanges (UrlState.profileSpecific state) = None \/
     ProfileSpecific.committedRanges (UrlState.profileSpecific state) = Some [] ->
     SamplesTable.stack (Thread.samples merged)
       = SamplesTable.stack (Thread.samples thread) /\
     length (SamplesTable.time (Thread.samples merged))
       = length (SamplesTable.time (Thread.samples thread)) /\
     MarkersTable.name (Thread.markers merged)
       = MarkersTable.name (Thread.markers thread) /\
     length (MarkersTable.time (Thread.markers merged))
       = length (MarkersTable.time (Thread.markers thread))).
Proof.
  intros Hmerge Hstate Hprofile Hselected Hthread.
  destruct (merged_thread_tables _ _ _ _ _ _ _ _
              Hmerge Hstate Hprofile Hselected Hthread)
    as (tm & sc & fc & merged & Htm & Hsc & Hfc & Hmerged & Hn & Hst & Hft).
  exists merged. rewrite Hst, Hft. simpl.
  apply adjustCategories_Ok, Forall2_length in Hsc.
  apply adjustNullableCategories_Ok, Forall2_length in Hfc.
  split_and!; [done..|].
  intros Hnone.
  destruct (mergeProfiles_Ok _ _ _ Hmerge) as (_ & _ & _ & Hrounds).
  destruct (Hrounds i state Hstate) as (round & Hround & Hmerged' & _).
  rewrite Hmerged in Hmerged'. injection Hmerged' as ->.
  apply selectInput_Ok in Hround
    as (selected' & profile' & thread' & tm' & remapped
        & Hs & Hp & Ht & Htm' & Hremap & ->).
  simplify_eq/=.
  apply remapCategories_Ok in Hremap as (sc' & fc' & _ & _ & ->).
  assert ((popCommittedRange (UrlState.profileSpecific state)).1 = None)
    as ->.
  { unfold popCommittedRange. by destruct Hnone as [-> | ->]. }
  simpl. unfold normalizeThread, synthesizeUnregisterTime.
  destruct thread as [? ? ? ? [u|] ? [s|] ? ? [] []]; simpl;
    by rewrite !length_map.
Qed.

End Preservation.

Section Bookkeeping.
Context {PD : ProfileData}.

(** The keys the loop writes in [transformStacks] are the indexes of its
    rounds. *)
Lemma mergeLoop_transformStacks
  (profiles : list Profile.t) (tms : list (gmap nat nat))
  (states : list UrlState.t) (i : nat) (acc acc' : MergeLoop) :
  mergeLoop profiles tms i states acc = Ok acc' ->
  (forall k, k < i \/ i + length states <= k ->
     loopTransformStacks acc' !! k = loopTransformStacks acc !! k) /\
  (forall k state,
     states !! k = Some state ->
     exists r,
       mergeInput profiles tms (i + k) state = Ok r /\
       loopTransformStacks acc' !! (i + k) = Some (roundTransformStack r)).
Proof.
  revert i acc. induction states as [|state states IH]; intros i acc; simpl.
  - intros [= <-]. split; [done|]. by intros k state.
  - destruct (mergeInput profiles tms i state) as [r|e] eqn:Hr; [simpl|done].
    intros [Hout Hin]%IH. simpl in *. split.
    + intros k Hk. rewrite Hout by lia. apply lookup_insert_ne. lia.
    + intros [|k] state' Hk; simplify_eq/=.
      * exists r. rewrite !Nat.add_0_r. split; [done|].
        rewrite Hout by lia. apply lookup_insert_eq.
      * destruct (Hin k state' Hk) as (r' & Hr' & Hstack).
        exists r'. by rewrite <- !Nat.add_succ_comm.
Qed.

(** X5.  A successful merge has one thread, one implementation filter
    and one url state per input url state, in the order of the inputs;
    [transformStacks] has exactly the keys [0 .. length states - 1], key
    [i] holding the transform stack of the thread selected in input [i]
    (undefined when that thread has none). *)
Theorem mergeProfiles_output_per_url_state
  (profiles : list Profile.t) (states : list UrlState.t) (out : MergeOutput) :
  mergeProfiles profiles states = Ok out ->
  length (Profile.threads (profile out)) = length states /\
  length (implementationFilters out) = length states /\
  length (profileStatesAfter out) = length states /\
  (forall i state,
     states !! i = Some state ->
     implementationFilters out !! i =
       Some (ProfileSpecific.implementation (UrlState.profileSpecific state)) /\
     exists selected,
       ProfileSpecific.selectedThread (UrlState.profileSpecific state)
         = Some selected /\
       transformStacks out !! i =
         Some (ProfileSpecific.transforms (UrlState.profileSpecific state)
                 !! selected)) /\
  (forall i, length states <= i -> transformStacks out !! i = None).
Proof.
  rewrite mergeProfiles_unfold.
  destruct (mergeLoop _ _ _ _ _) as [acc|e] eqn:Hloop; [simpl|done].
  intros [= <-]. simpl.
  destruct (mergeLoop_transformStacks _ _ _ _ _ _ Hloop) as [Hout Hin].
  apply mergeLoop_Ok in Hloop as (rs & Hlen & Hrs & Ht & Hi & Hs).
  simpl in *. rewrite Ht, Hi, Hs, !length_fmap.
  split_and!; [done..| |].
  - intros i state Hstate.
    destruct (Hin i state Hstate) as (r & Hr & Hstack).
    destruct (lookup_lt_is_Some_2 rs i) as [r' Hr'].
    { rewrite Hlen. by eapply lookup_lt_Some. }
    pose proof (Hrs i state r' Hstate Hr') as Hsame.
    rewrite Hr in Hsame. injection Hsame as <-.
    apply mergeInput_Ok in Hr as (round & Hround & ->).
    apply selectInput_Ok in Hround
      as (selected & inputProfile & thread & tm & remapped
          & Hselected & _ & _ & _ & _ & ->).
    simpl in *. rewrite list_lookup_fmap, Hr'. simpl. split; [done|].
    exists selected. by rewrite Hstack.
  - intros i Hi'. rewrite Hout by lia. apply lookup_empty.
Qed.

End Bookkeeping.

Section CategoryMore.
Implicit Types (inputs more : list CategoryList) (l : CategoryList).
Local Arguments mergeCategories : simpl never.

Lemma mergeCategory_extends (i : nat) (c : Category.t) (st : CategoryLoop) :
  exists ext, newCategories (mergeCategory i c st) = newCategories st ++ ext.
Proof.
  unfold mergeCategory. destruct (insertedCategories st !! _); simpl.
  - exists []. by rewrite app_nil_r.
  - eauto.
Qed.

Lemma forEachCategory_extends (i : nat) l (st : CategoryLoop) :
  exists ext, newCategories (forEachCategory i l st) = newCategories st ++ ext.
Proof.
  revert i st. induction l as [|c l IH]; intros i st; simpl.
  - exists []. by rewrite app_nil_r.
  - destruct (IH (S i) (mergeCategory i c st)) as [ext ->].
    destruct (mergeCategory_extends i c st) as [ext' ->].
    exists (ext' ++ ext). by rewrite app_assoc.
Qed.

Lemma fold_mergeCategoryList_extends more (acc : CategoriesAcc) :
  exists ext tms,
    accCategories (fold_left mergeCategoryList more acc)
    = accCategories acc ++ ext /\
    accTranslationMaps (fold_left mergeCategoryList more acc)
    = accTranslationMaps acc ++ tms.
Proof.
  revert acc. induction more as [|l more IH]; intros acc; simpl.
  - exists [], []. by rewrite !app_nil_r.
  - destruct (IH (mergeCategoryList acc l)) as (ext & tms & -> & ->).
    unfold mergeCategoryList. simpl.
    destruct (forEachCategory_extends 0 l
                (mkCategoryLoop (accCategories acc) (accInserted acc)
                   (@empty _ gmap_empty))) as [ext' Hext'].
    simpl in Hext'. rewrite Hext'.
    exists (ext' ++ ext). eexists (_ :: tms).
    by rewrite <- !app_assoc.
Qed.

(** X6.  Merging further category lists after [inputs] only appends to
    the merged list and to the translation maps: the merged list of
    [inputs] is a prefix of the longer merge, and the first maps are the
    maps of [inputs] alone. *)
Theorem mergeCategories_further_inputs inputs more :
  (exists ext,
     (mergeCategories (inputs ++ more)).1 = (mergeCategories inputs).1 ++ ext) /\
  take (length inputs) (mergeCategories (inputs ++ more)).2
  = (mergeCategories inputs).2 /\
  length (mergeCategories (inputs ++ more)).2 = length inputs + length more.
Proof.
  unfold mergeCategories. simpl. rewrite fold_left_app.
  destruct (fold_mergeCategoryList_extends more
              (fold_left mergeCategoryList inputs
                 (mkCategoriesAcc [] (@empty _ gmap_empty) [])))
    as (ext & tms & Hc & Ht).
  destruct (mergeCategoryList_inv inputs) as (_ & Hlen & _).
  destruct (mergeCategoryList_inv (inputs ++ more)) as (_ & Hlen' & _).
  rewrite fold_left_app, length_app in Hlen'.
  split_and!; [eauto| |done].
  rewrite Ht, take_app_length'; done.
Qed.

Lemma firstOccurrences_NoDup l :
  NoDup (Category.name <$> l) -> firstOccurrences l = l.
Proof.
  induction l as [|c l IH]; [done|]. rewrite fmap_cons, NoDup_cons.
  intros [Hfresh Hl]. simpl. rewrite IH by done. f_equal.
  clear IH Hl. induction l as [|c' l IH]; [done|].
  rewrite fmap_cons, not_elem_of_cons in Hfresh. destruct Hfresh as [Hne Hl].
  rewrite filter_cons_True by congruence. by rewrite IH.
Qed.

Lemma firstOccurrences_app_seen l l' :
  (forall n, n ∈ Category.name <$> l' -> n ∈ Category.name <$> l) ->
  firstOccurrences (l ++ l') = firstOccurrences l.
Proof.
  induction l' as [|c l' IH] using rev_ind; intros Hsub.
  - by rewrite app_nil_r.
  - rewrite app_assoc, firstOccurrences_snoc.
    assert (forall n, n ∈ Category.name <$> l' -> n ∈ Category.name <$> l)
      as Hsub'.
    { intros n Hn. apply Hsub. rewrite fmap_app, elem_of_app. by left. }
    rewrite decide_True; [by apply IH|].
    rewrite fmap_app, elem_of_app. left. apply Hsub.
    rewrite fmap_app, elem_of_app. right. simpl. by left.
Qed.

Lemma firstWithName_NoDup l (i : nat) (c : Category.t) :
  NoDup (Category.name <$> l) -> l !! i = Some c ->
  firstWithName (Category.name c) l = Some (i, c).
Proof.
  intros Hnodup Hi. apply list_find_Some. split_and!; [done..|].
  intros j y Hj Hlt Heq.
  assert (j = i); [|lia].
  eapply NoDup_lookup; [exact Hnodup| |].
  - by rewrite list_lookup_fmap, Hj.
  - rewrite list_lookup_fmap, Hi. simpl. by rewrite Heq.
Qed.

(** X7.  When the names of the first category list are pairwise
    distinct, that list is a prefix of the merged list, every input
    equal to it gets the identity translation map on its index range,
    and merging copies of it gives the list back. *)
Theorem mergeCategories_distinct_names_first l (rest : list CategoryList) :
  NoDup (Category.name <$> l) ->
  (exists ext, (mergeCategories (l :: rest)).1 = l ++ ext) /\
  (forall k tm,
     (l :: rest) !! k = Some l ->
     (mergeCategories (l :: rest)).2 !! k = Some tm ->
     forall i, tm !! i = if decide (i < length l) then Some i else None) /\
  (Forall (fun other => other = l) rest -> (mergeCategories (l :: rest)).1 = l).
Proof.
  intros Hnodup.
  assert (exists ext, (mergeCategories (l :: rest)).1 = l ++ ext) as [ext Hext].
  { destruct (fold_mergeCategoryList_extends rest
                (mergeCategoryList
                   (mkCategoriesAcc [] (@empty _ gmap_empty) []) l))
      as (ext & _ & Hext & _).
    exists ext.
    change ((mergeCategories (l :: rest)).1)
      with (accCategories
              (fold_left mergeCategoryList rest
                 (mergeCategoryList
                    (mkCategoriesAcc [] (@empty _ gmap_empty) []) l))).
    rewrite Hext. f_equal.
    destruct (mergeCategoryList_inv [l]) as ([Hm _] & _).
    change (accCategories _)
      with (accCategories
              (mergeCategoryList
                 (mkCategoriesAcc [] (@empty _ gmap_empty) []) l)) in Hm.
    rewrite Hm. simpl. rewrite app_nil_r. by apply firstOccurrences_NoDup. }
  split_and!; [eauto| |].
  - intros k tm Hk Htm i.
    rewrite (translationMap_entry _ k l tm i Hk Htm), Hext.
    destruct (l !! i) as [c|] eqn:Hc.
    + rewrite decide_True by (by eapply lookup_lt_Some).
      change (fst <$> firstWithName (Category.name c) (l ++ ext) = Some i).
      by rewrite (firstWithName_app_l _ _ ext _
                    (firstWithName_NoDup l i c Hnodup Hc)).
    + rewrite decide_False; [done|]. apply lookup_ge_None in Hc. lia.
  - intros Hsame.
    destruct (mergeCategoryList_inv (l :: rest)) as ([Hm _] & _).
    change (accCategories _) with (mergeCategories (l :: rest)).1 in Hm.
    rewrite Hm. simpl.
    rewrite firstOccurrences_app_seen; [by apply firstOccurrences_NoDup|].
    intros n (c & -> & Hc)%list_elem_of_fmap.
    apply list_elem_of_In, in_concat in Hc as (other & Hother & Hc).
    apply list_elem_of_In in Hother, Hc.
    rewrite Forall_forall in Hsame. rewrite (Hsame other Hother) in Hc.
    apply list_elem_of_fmap. eauto.
Qed.

(** X8.  Two categories, of the same or of different inputs, are sent to
    the same merged index exactly when they have the same name. *)
Theorem translation_maps_merge_by_name
  inputs (k k' : nat) l l' (tm tm' : gmap nat nat)
  (i j : nat) (c c' : Category.t) :
  inputs !! k = Some l -> inputs !! k' = Some l' ->
  (mergeCategories inputs).2 !! k = Some tm ->
  (mergeCategories inputs).2 !! k' = Some tm' ->
  l !! i = Some c -> l' !! j = Some c' ->
  tm !! i = tm' !! j <-> Category.name c = Category.name c'.
Proof.
  intros Hl Hl' Htm Htm' Hc Hc'.
  destruct (proj2 (translationMap_dom inputs k l tm i Hl Htm)
              (lookup_lt_Some _ _ _ Hc)) as [n Hn].
  destruct (proj2 (translationMap_dom inputs k' l' tm' j Hl' Htm')
              (lookup_lt_Some _ _ _ Hc')) as [n' Hn'].
  rewrite Hn, Hn'.
  apply (translationMap_Some inputs k l tm i n Hl Htm) in Hn
    as (c1 & first & Hc1 & Hfind).
  apply (translationMap_Some inputs k' l' tm' j n' Hl' Htm') in Hn'
    as (c2 & first' & Hc2 & Hfind').
  simplify_eq. split.
  - intros [= <-].
    apply list_find_Some in Hfind as (Hn & <- & _).
    apply list_find_Some in Hfind' as (Hn' & <- & _). congruence.
  - intros Heq. rewrite Heq in Hfind. congruence.
Qed.

(** X9.  On a list without null, [adjustNullableCategories] agrees with
    [adjustCategories]: same values, and the same error at the same
    index. *)
Theorem adjustNullableCategories_without_null
  (categories : list nat) (tm : gmap nat nat) :
  adjustNullableCategories (Some <$> categories) tm =
  match adjustCategories categories tm with
  | Ok out => Ok (Some <$> out)
  | Throw e => Throw e
  end.
Proof.
  unfold adjustNullableCategories, adjustCategories.
  induction categories as [|c l IH]; [done|].
  rewrite fmap_cons.
  cbn [arrayMap]. rewrite IH.
  destruct (tm !! c); [|done].
  by destruct (arrayMap _ l).
Qed.

End CategoryMore.

(** Adding -0 changes no number. *)
Lemma add_neg_zero (x : float) : (x + - 0)%float = x.
Proof.
  apply Prim2SF_inj. rewrite add_spec, opp_spec.
  change (Prim2SF 0) with (S754_zero false).
  by destruct (Prim2SF x) as [[]|[]| |].
Qed.

Section Aligned.
Context {PD : ProfileData}.

(** X10.  A thread whose first sample, after cropping, is already at
    time zero is shifted by [-0], which changes no number: its samples,
    markers, register, startup and shutdown times come out of the merge
    as they were, and so does [unregisterTime] when an end was
    recorded. *)
Theorem aligned_thread_keeps_its_times
  (profiles : list Profile.t) (states : list UrlState.t)
  (out : MergeOutput) (i : nat) (state : UrlState.t) :
  mergeProfiles profiles states = Ok out ->
  states !! i = Some state ->
  exists round merged,
    selectInput profiles (translationMapsOf profiles) i state = Ok round /\
    Profile.threads (profile out) !! i = Some merged /\
    let cropped := roundThread round in
    (SamplesTable.time (Thread.samples cropped) !! 0 = Some 0%float ->
     Thread.samples merged = Thread.samples cropped /\
     Thread.markers merged = Thread.markers cropped /\
     Thread.registerTime merged = Thread.registerTime cropped /\
     Thread.processStartupTime merged = Thread.processStartupTime cropped /\
     Thread.processShutdownTime merged = Thread.processShutdownTime cropped /\
     (is_Some (Thread.processShutdownTime cropped) \/
      is_Some (Thread.unregisterTime cropped) ->
      Thread.unregisterTime merged = Thread.unregisterTime cropped)).
Proof.
  intros Hmerge Hstate.
  destruct (mergeProfiles_Ok _ _ _ Hmerge) as (_ & _ & _ & Hrounds).
  destruct (Hrounds i state Hstate) as (round & Hround & Hthread & _).
  exists round, (normalizeThread i (roundProfile round) (roundThread round)).
  split; [done|]. split; [done|]. simpl. intros Hzero.
  assert (forall l : list float,
            map (fun time => (time + - 0)%float) l = l) as Hmap.
  { intros l. induction l as [|t l IH]; [done|].
    cbn [map]. f_equal; [apply add_neg_zero|exact IH]. }
  unfold normalizeThread, synthesizeUnregisterTime, alignStart,
    startTimeAdjustment, adjustSampleTimestamps, adjustMarkerTimestamps.
  destruct (roundThread round)
    as [? ? ? ? [u|] ? [s|] ? ? [times stacks] [mtimes mnames]];
    cbn [Thread.samples SamplesTable.time] in Hzero;
    cbn -[PrimFloat.add PrimFloat.opp]; rewrite Hzero;
    cbn -[PrimFloat.add PrimFloat.opp];
    rewrite ?Hmap, ?add_neg_zero; split_and!; try done.
  all: intros [[? [=]]|[? [=]]].
Qed.

End Aligned.

Section ContextMenuFacts.
Import MarkersContextMenu.
Context {H : CallNodeHelpers}.

(** X11.  With a marker selected, [setStartRange] moves the start of
    the selection to the marker's start and keeps its end (the end of
    the committed range when there is no selection), [setEndRange]
    moves the end to the marker's start plus its duration (plus 0.0001
    for a duration of zero or NaN) and keeps the start; applied one
    after the other, in either order, they select the marker's own
    extent. *)
Theorem marker_range_selection (props : Props) (marker : Marker.t) :
  selected props = Some marker ->
  let markerEnd :=
    (Marker.start marker
     + numberOrElse (Marker.dur marker) smallDuration)%float in
  let keptEnd :=
    match previewSelection props with
    | Selection _ _ selectionEnd => selectionEnd
    | NoSelection => StartEndRange.end_ (committedRange props)
    end in
  let keptStart :=
    match previewSelection props with
    | Selection _ selectionStart _ => selectionStart
    | NoSelection => StartEndRange.start (committedRange props)
    end in
  setStartRange props
    = Ok (UpdatePreviewSelection
            (Selection false (Marker.start marker) keptEnd)) /\
  setEndRange props
    = Ok (UpdatePreviewSelection (Selection false keptStart markerEnd)) /\
  setEndRange
    (set_previewSelection
       (Selection false (Marker.start marker) keptEnd) props)
    = Ok (UpdatePreviewSelection
            (Selection false (Marker.start marker) markerEnd)) /\
  setStartRange
    (set_previewSelection (Selection false keptStart markerEnd) props)
    = Ok (UpdatePreviewSelection
            (Selection false (Marker.start marker) markerEnd)).
Proof.
  intros Hmarker. unfold setStartRange, setEndRange.
  change (selected (set_previewSelection ?s props)) with (selected props).
  rewrite Hmarker. by destruct (previewSelection props).
Qed.

(** X12.  The selected marker is undefined exactly when the index is
    negative or past the end of [markers]; [setStartRange],
    [setEndRange] and [copyMarkerName] throw a [TypeError] in exactly
    that case and dispatch or copy otherwise, while [copyMarkerCause]
    never throws and copies nothing then. *)
Theorem handlers_throw_without_marker (props : Props) :
  (selected props = None <->
   (selectedMarker props < 0 \/
    Z.of_nat (length (markers props)) <= selectedMarker props)%Z) /\
  (selected props = None <->
   setStartRange props = Throw (TypeError "marker")) /\
  (selected props = None <->
   setEndRange props = Throw (TypeError "marker")) /\
  (selected props = None <->
   copyMarkerName props = Throw (TypeError "marker")) /\
  (is_Some (selected props) ->
   exists s s' name,
     setStartRange props = Ok (UpdatePreviewSelection s) /\
     setEndRange props = Ok (UpdatePreviewSelection s') /\
     copyMarkerName props = Ok (Copy name)) /\
  (selected props = None -> copyMarkerCause props = Ok None) /\
  (exists call, copyMarkerCause props = Ok call).
Proof.
  split_and!.
  - unfold selected. destruct (Z.ltb_spec (selectedMarker props) 0).
    + split; [intros _; by left|done].
    + rewrite lookup_ge_None. lia.
  - unfold setStartRange. by destruct (selected props).
  - unfold setEndRange. by destruct (selected props).
  - unfold copyMarkerName. by destruct (selected props).
  - intros [marker Hmarker].
    unfold setStartRange, setEndRange, copyMarkerName. rewrite Hmarker.
    by eexists _, _, _.
  - unfold copyMarkerCause. by intros ->.
  - unfold copyMarkerCause.
    destruct (selected props) as [[? ? ? [[[cause|]]|]]|]; eauto.
Qed.

(** X13.  [render] always shows the four fixed items, in the order of
    the source, followed by at most the item for copying the cause; that
    item is shown exactly when [copyMarkerCause] would copy a text, that
    is, when the selected marker exists and has a payload with a
    cause. *)
Theorem copy_cause_item_shown_iff_copied (props : Props) :
  take 4 (render props)
  = [SetStartRange; SetEndRange; CopyMarkerJSON; CopyMarkerName] /\
  drop 4 (render props) ⊆ [CopyMarkerCause] /\
  (CopyMarkerCause ∈ render props <->
   exists text, copyMarkerCause props = Ok (Some (Copy text))) /\
  (CopyMarkerCause ∈ render props <->
   exists marker data cause,
     selected props = Some marker /\ Marker.data marker = Some data /\
     Payload.cause data = Some cause).
Proof.
  assert (CopyMarkerCause ∉
            [SetStartRange; SetEndRange; CopyMarkerJSON; CopyMarkerName])
    as Hfixed.
  { rewrite !not_elem_of_cons. split_and!; [done..|apply not_elem_of_nil]. }
  assert (CopyMarkerCause ∈
            [SetStartRange; SetEndRange; CopyMarkerJSON; CopyMarkerName;
             CopyMarkerCause]) as Hshown.
  { do 4 right. left. }
  unfold render, copyMarkerCause.
  destruct (selected props) as [marker|];
    [destruct (Marker.data marker) as [data|] eqn:Hdata;
     [destruct (Payload.cause data) as [cause|] eqn:Hcause|]|]; simpl.
  - split_and!; [done|done| |].
    + split; [eauto|done].
    + split; [intros _; by exists marker, data, cause|done].
  - split_and!; [done|apply list_subseteq_nil| |].
    + split; [done|by intros [? [=]]].
    + split; [done|]. intros (m & d & c & [= <-] & Hd & Hc). congruence.
  - split_and!; [done|apply list_subseteq_nil| |].
    + split; [done|by intros [? [=]]].
    + split; [done|]. intros (m & d & c & [= <-] & Hd & Hc). congruence.
  - split_and!; [done|apply list_subseteq_nil| |].
    + split; [done|by intros [? [=]]].
    + split; [done|]. by intros (m & d & c & [=] & _).
Qed.

End ContextMenuFacts.

(** A dangling category index in the only round. *)
Lemma mergeProfiles_throws_first_violation_witness :
  exists k bad,
    k = 0 /\ CategoryNotFound 7 = CategoryNotFound bad /\ 2 <= bad.
Proof.
  destruct (mergeProfiles_throws_first_violation
              (PD := SpecProfileData.instance)
              [SampleMore.danglingProfile] [Sample.state (Some 0) []]
              (CategoryNotFound 7) eq_refl)
    as (k & state & Hstate & _ & Hviolation).
  destruct k as [|k]; [|by destruct k].
  injection Hstate as <-. simpl in Hviolation.
  destruct Hviolation as (bad & Hbad & Hbound & _).
  by exists 0, bad.
Defined.

Lemma merge_keeps_thread_structure_witness :
  exists merged,
    Profile.threads (profile Sample.merged) !! 0 = Some merged /\
    Thread.name merged = "GeckoMain" /\
    StackTable.prefix (Thread.stackTable merged) = [None; Some 0] /\
    SamplesTable.stack (Thread.samples merged) = [Some 0; Some 1; None].
Proof.
  destruct (merge_keeps_thread_structure
              (PD := SpecProfileData.instance) (Laws := specProfileData_laws)
              Sample.profiles Sample.states Sample.merged 0
              (Sample.state (Some 0) []) Sample.profile1 0
              (Sample.thread "1234" (Some "Web Content") 0 100%float)
              sample_merged eq_refl eq_refl eq_refl eq_refl)
    as (merged & Hmerged & Hname & _ & Hprefix & _ & _ & _ & Hsamples).
  exists merged. split_and!; [done..|].
  apply Hsamples. by right.
Defined.

Lemma mergeProfiles_output_per_url_state_witness :
  implementationFilters Sample.merged = ["combined"; "combined"] /\
  transformStacks Sample.merged !! 0 = Some (Some ["focus-subtree"]) /\
  transformStacks Sample.merged !! 1 = Some None /\
  transformStacks Sample.merged !! 2 = None.
Proof.
  destruct (mergeProfiles_output_per_url_state
              (PD := SpecProfileData.instance)
              Sample.profiles Sample.states Sample.merged sample_merged)
    as (_ & _ & _ & Hin & Hout).
  split; [by vm_compute|].
  destruct (Hin 0 _ eq_refl) as (_ & s0 & [= <-] & H0).
  destruct (Hin 1 _ eq_refl) as (_ & s1 & [= <-] & H1).
  split_and!; [exact H0|exact H1|]. apply Hout. simpl. lia.
Defined.

Lemma mergeCategories_distinct_names_first_witness :
  (mergeCategories
     [[Sample.catA; Sample.catB]; [Sample.catA; Sample.catB]]).1
  = [Sample.catA; Sample.catB].
Proof.
  apply (mergeCategories_distinct_names_first
           [Sample.catA; Sample.catB] [[Sample.catA; Sample.catB]]).
  - apply (bool_decide_unpack _). by vm_compute.
  - by repeat constructor.
Defined.

Lemma translation_maps_merge_by_name_witness :
  exists tm tm' : gmap nat nat,
    (mergeCategories
       [[Sample.catA; Sample.catB]; [Sample.catB'; Sample.catC]]).2 !! 0
    = Some tm /\
    (mergeCategories
       [[Sample.catA; Sample.catB]; [Sample.catB'; Sample.catC]]).2 !! 1
    = Some tm' /\
    tm !! 1 = tm' !! 0.
Proof.
  eexists _, _. split; [by vm_compute|]. split; [by vm_compute|].
  by apply (translation_maps_merge_by_name
              [[Sample.catA; Sample.catB]; [Sample.catB'; Sample.catC]]
              0 1 [Sample.catA; Sample.catB] [Sample.catB'; Sample.catC]
              _ _ 1 0 Sample.catB Sample.catB').
Defined.

Lemma sample_alignedMerged :
  mergeProfiles (PD := SpecProfileData.instance)
    [SampleMore.alignedProfile] [Sample.state (Some 0) []]
  = Ok SampleMore.alignedMerged.
Proof. vm_compute. reflexivity. Qed.

Lemma aligned_thread_keeps_its_times_witness :
  exists merged,
    Profile.threads (profile SampleMore.alignedMerged) !! 0 = Some merged /\
    SamplesTable.time (Thread.samples merged) = [0; 1; 2]%float /\
    Thread.unregisterTime merged = Some 8%float.
Proof.
  destruct (aligned_thread_keeps_its_times (PD := SpecProfileData.instance)
              [SampleMore.alignedProfile] [Sample.state (Some 0) []]
              SampleMore.alignedMerged 0 (Sample.state (Some 0) [])
              sample_alignedMerged eq_refl)
    as (round & merged & Hround & Hmerged & Hkeeps).
  vm_compute in Hround. injection Hround as <-.
  destruct (Hkeeps eq_refl) as (Hsamples & _ & _ & _ & _ & Hunregister).
  exists merged. split; [exact Hmerged|]. split.
  - by rewrite Hsamples.
  - rewrite Hunregister; [done|]. right. by eexists.
Defined.

Lemma marker_range_selection_witness :
  MarkersContextMenu.setStartRange SampleMore.menuProps
  = Ok (MarkersContextMenu.UpdatePreviewSelection
          (MarkersContextMenu.Selection false 4%float 9%float)) /\
  MarkersContextMenu.setEndRange
    (MarkersContextMenu.set_previewSelection
       (MarkersContextMenu.Selection false 4%float 9%float)
       SampleMore.menuProps)
  = Ok (MarkersContextMenu.UpdatePreviewSelection
          (MarkersContextMenu.Selection false 4%float
             (4 + MarkersContextMenu.smallDuration)%float)).
Proof.
  destruct (marker_range_selection SampleMore.menuProps
              (MarkersContextMenu.Marker.mk 4%float 0%float "Styles" None)
              eq_refl)
    as (Hstart & _ & Hboth & _).
  split; [exact Hstart|exact Hboth].
Defined.

(** * The merge on objects *)

Section StoreFacts.

Lemma read_assign (thread : Thread.t) (o : ThreadObject.t) :
  ThreadObject.read (Thread.stackTable thread) (Thread.frameTable thread)
    (ThreadObject.assign thread o) = thread.
Proof. by destruct thread. Qed.

Lemma readThread_Some (store : Store) (t : ref) (thread : Thread.t) :
  readThread store t = Some thread <->
  exists o stack frame,
    threadObjects store !! t = Some o /\
    stackTables store !! ThreadObject.stackTable o = Some stack /\
    frameTables store !! ThreadObject.frameTable o = Some frame /\
    thread = ThreadObject.read stack frame o.
Proof.
  unfold readThread. split.
  - intros H.
    destruct (threadObjects store !! t) as [o|]; [|done]. simpl in H.
    destruct (stackTables store !! _) as [stack|] eqn:Hs; [|done].
    simpl in H.
    destruct (frameTables store !! _) as [frame|] eqn:Hf; [|done].
    simpl in H. injection H as <-. by exists o, stack, frame.
  - intros (o & stack & frame & -> & Hs & Hf & ->). simpl.
    rewrite Hs. simpl. by rewrite Hf.
Qed.

Lemma sameThread_read st st' t :
  sameThread st st' t -> readThread st t = readThread st' t.
Proof.
  intros [Ho Htables]. unfold readThread. rewrite <- Ho.
  destruct (threadObjects st !! t) as [o|]; [|done]. simpl.
  destruct (Htables o eq_refl) as [-> ->]. done.
Qed.

Lemma readProfile_Some (store : Store) (p : ProfileObject.t) (v : Profile.t) :
  readProfile store p = Some v <->
  Profile.meta v = ProfileObject.meta p /\
  Forall2 (fun t thread => readThread store t = Some thread)
    (ProfileObject.threads p) (Profile.threads v).
Proof.
  unfold readProfile. split.
  - intros H.
    destruct (mapM _ _) as [threads|] eqn:Hthreads; [|done].
    injection H as <-. simpl. split; [done|]. by apply mapM_Some.
  - intros [Hmeta Hthreads]. apply mapM_Some in Hthreads. rewrite Hthreads.
    simpl. destruct v. simpl in *. by subst.
Qed.

(** A thread listed in one of the profiles is listed once. *)
Lemma allThreads_lookup (profiles : list ProfileObject.t) k p t :
  profiles !! k = Some p -> t ∈ ProfileObject.threads p ->
  t ∈ allThreads profiles.
Proof.
  intros Hp Ht. unfold allThreads. apply list_elem_of_bind.
  exists p. split; [done|]. by eapply list_elem_of_lookup_2.
Qed.

Lemma allThreads_NoDup_profile (profiles : list ProfileObject.t) k p :
  NoDup (allThreads profiles) -> profiles !! k = Some p ->
  NoDup (ProfileObject.threads p).
Proof.
  unfold allThreads. revert k.
  induction profiles as [|q profiles IH]; intros k Hnodup Hp; [done|].
  rewrite bind_cons in Hnodup. apply NoDup_app in Hnodup as (Hq & _ & Hrest).
  destruct k as [|k]; simpl in Hp; [by simplify_eq|]. by eapply IH.
Qed.

Lemma allThreads_NoDup_owner (profiles : list ProfileObject.t) k k' p p' t :
  NoDup (allThreads profiles) ->
  profiles !! k = Some p -> profiles !! k' = Some p' ->
  t ∈ ProfileObject.threads p -> t ∈ ProfileObject.threads p' -> k = k'.
Proof.
  unfold allThreads. revert k k'.
  induction profiles as [|q profiles IH]; intros k k' Hnodup Hp Hp' Ht Ht';
    [done|].
  rewrite bind_cons in Hnodup.
  apply NoDup_app in Hnodup as (Hq & Hdisjoint & Hrest).
  destruct k as [|k], k' as [|k']; simpl in *; simplify_eq.
  - done.
  - exfalso. apply (Hdisjoint t Ht). by eapply allThreads_lookup.
  - exfalso. apply (Hdisjoint t Ht'). by eapply allThreads_lookup.
  - f_equal. by eapply IH.
Qed.

(** A list without duplicates among the values a partial function takes
    on it. *)
Lemma NoDup_omap_lookup {A B} (f : A -> option B) (l : list A) a b x y z :
  NoDup (omap f l) ->
  l !! a = Some x -> l !! b = Some y -> f x = Some z -> f y = Some z ->
  a = b.
Proof.
  revert a b. induction l as [|c l IH]; intros a b Hnodup Ha Hb Hx Hy; [done|].
  assert (forall k w, l !! k = Some w -> f w = Some z -> z ∈ omap f l) as Hin.
  { intros k w Hk Hw. apply list_elem_of_omap. exists w.
    split; [by eapply list_elem_of_lookup_2|done]. }
  simpl in Hnodup.
  destruct a as [|a], b as [|b]; simpl in *; simplify_eq.
  - done.
  - rewrite Hx in Hnodup. apply NoDup_cons in Hnodup as [Hnotin _].
    exfalso. apply Hnotin. by eapply Hin.
  - rewrite Hy in Hnodup. apply NoDup_cons in Hnodup as [Hnotin _].
    exfalso. apply Hnotin. by eapply Hin.
  - f_equal. apply IH; try done.
    destruct (f c); [by apply NoDup_cons in Hnodup as [_ ?]|done].
Qed.

Lemma NoDup_omap_elem_of {A B} (f : A -> option B) (l : list A) x y z :
  NoDup (omap f l) ->
  x ∈ l -> y ∈ l -> f x = Some z -> f y = Some z -> x = y.
Proof.
  intros Hnodup [a Ha]%list_elem_of_lookup_1 [b Hb]%list_elem_of_lookup_1 Hx Hy.
  assert (a = b) by (by eapply NoDup_omap_lookup). by simplify_eq.
Qed.

End StoreFacts.

Section RoundAgreement.
Context {PD : ProfileData} {Laws : ProfileDataLaws PD}.

Lemma cropToCommittedRange_copy zeroAt committedRange thread :
  cropToCommittedRange zeroAt committedRange thread
  = InPlace.cropToCommittedRange zeroAt committedRange thread.
Proof. destruct committedRange; simpl; [apply filter_preserves|done]. Qed.

Lemma cropToCommittedRange_tables zeroAt committedRange thread :
  Thread.stackTable (InPlace.cropToCommittedRange zeroAt committedRange thread)
    = Thread.stackTable thread /\
  Thread.frameTable (InPlace.cropToCommittedRange zeroAt committedRange thread)
    = Thread.frameTable thread.
Proof. by destruct committedRange. Qed.

(** The round, once the selected thread and its tables have been read. *)
Lemma mergeInput_selected profiles tms i s st sel p t o tm stack frame :
  UrlStateObject.selectedThread s = Some sel ->
  profiles !! i = Some p ->
  ProfileObject.threads p !! sel = Some t ->
  threadObjects st !! t = Some o ->
  tms !! i = Some tm ->
  stackTables st !! ThreadObject.stackTable o = Some stack ->
  frameTables st !! ThreadObject.frameTable o = Some frame ->
  InPlace.mergeInput profiles tms i s st =
  (stackCategory ← adjustCategories (StackTable.category stack) tm;
   frameCategory ← adjustNullableCategories (FrameTable.category frame) tm;
   let stack' := StackTable.set_category stackCategory stack in
   let frame' := FrameTable.set_category frameCategory frame in
   let st' := remappedStore o stack' frame' st in
   match readProfile st' p with
   | None => Throw (TypeError "threads")
   | Some whole =>
     let zeroAt :=
       StartEndRange.start (getTimeRangeIncludingAllThreads whole) in
     let committedRange := (InPlace.popCommittedRange st' s).1 in
     let st'' := (InPlace.popCommittedRange st' s).2 in
     let merged :=
       ThreadObject.assign
         (normalizeThread i whole
            (InPlace.cropToCommittedRange zeroAt committedRange
               (ThreadObject.read stack' frame' o))) o in
     Ok (InPlace.mkRound
           (set_threadObjects
              match committedRange with
              | Some _ => threadObjects st'' ++ [merged]
              | None => <[t := merged]> (threadObjects st'')
              end
              st'')
           match committedRange with
           | Some _ => length (threadObjects st'')
           | None => t
           end
           (UrlStateObject.transforms s !! sel)
           (UrlStateObject.implementation s))
   end).
Proof.
  intros Hsel Hp Ht Ho Htm Hstack Hframe.
  unfold InPlace.mergeInput. rewrite Hsel, Hp, Ht, Ho, Htm, Hstack.
  destruct (adjustCategories _ tm) as [sc|e]; [|done]. simpl.
  rewrite Hframe.
  destruct (adjustNullableCategories _ tm) as [fc|e]; [|done]. simpl.
  unfold remappedStore.
  destruct (readProfile _ p) as [whole|]; [|done].
  destruct (InPlace.popCommittedRange _ s) as [[range|] st''] eqn:Hpop; done.
Qed.

(** Threads of one profile that share no table: assigning the columns of
    the tables of one of them shows in that thread alone. *)
Lemma readProfile_remapped st p v sel t o stack frame stack' frame' :
  readProfile st p = Some v ->
  NoDup (ProfileObject.threads p) ->
  (forall t' o',
     t' ∈ ProfileObject.threads p -> threadObjects st !! t' = Some o' ->
     ThreadObject.stackTable o' = ThreadObject.stackTable o \/
     ThreadObject.frameTable o' = ThreadObject.frameTable o -> t' = t) ->
  ProfileObject.threads p !! sel = Some t ->
  threadObjects st !! t = Some o ->
  stackTables st !! ThreadObject.stackTable o = Some stack ->
  frameTables st !! ThreadObject.frameTable o = Some frame ->
  readProfile (remappedStore o stack' frame' st) p
  = Some (Profile.set_thread sel (ThreadObject.read stack' frame' o) v).
Proof.
  intros [Hmeta Hthreads]%readProfile_Some Hnodup Hshare Ht Ho Hstack Hframe.
  apply readProfile_Some. split; [done|]. simpl.
  apply Forall2_same_length_lookup_2.
  { rewrite length_insert. by eapply Forall2_length. }
  intros a t' thread Ht' Hthread.
  destruct (decide (a = sel)) as [->|Hne].
  - rewrite list_lookup_insert_eq in Hthread.
    2:{ rewrite <- (Forall2_length _ _ _ Hthreads). by eapply lookup_lt_Some. }
    simplify_eq. apply readThread_Some. exists o, stack', frame'.
    split_and!; [done| | |done]; simpl.
    + apply list_lookup_insert_eq. by eapply lookup_lt_Some.
    + apply list_lookup_insert_eq. by eapply lookup_lt_Some.
  - rewrite list_lookup_insert_ne in Hthread by done.
    pose proof (Forall2_lookup_lr _ _ _ _ _ _ Hthreads Ht' Hthread) as Hread.
    rewrite <- Hread. apply sameThread_read. split; [done|].
    intros o' Ho'. simpl in Ho'. simpl.
    assert (t' <> t) as Hdiff.
    { intros ->. apply Hne. by eapply NoDup_lookup. }
    split; apply list_lookup_insert_ne; intros Heq; apply Hdiff;
      (eapply Hshare; [by eapply list_elem_of_lookup_2|done|]); auto.
Qed.

(** Popping the array in the store is popping the array a reader sees. *)
Lemma popCommittedRange_agrees st s :
  (InPlace.popCommittedRange st s).1
    = (popCommittedRange
         (UrlState.profileSpecific (readUrlState st s))).1 /\
  readUrlState (InPlace.popCommittedRange st s).2 s
    = UrlState.mk
        (popCommittedRange
           (UrlState.profileSpecific (readUrlState st s))).2 /\
  threadObjects (InPlace.popCommittedRange st s).2 = threadObjects st /\
  stackTables (InPlace.popCommittedRange st s).2 = stackTables st /\
  frameTables (InPlace.popCommittedRange st s).2 = frameTables st /\
  (forall a, UrlStateObject.committedRanges s <> Some a ->
     rangeStacks (InPlace.popCommittedRange st s).2 !! a = rangeStacks st !! a).
Proof.
  unfold InPlace.popCommittedRange, popCommittedRange, readUrlState.
  destruct s as [sel transforms implementation [r|]]; simpl; [|done].
  destruct (rangeStacks st !! r) as [ranges|] eqn:Hranges; simpl.
  2:{ by rewrite Hranges. }
  rewrite list_lookup_insert_eq by (by eapply lookup_lt_Some).
  split_and!; try done.
  intros a Ha. apply list_lookup_insert_ne. congruence.
Qed.

(** One round on objects against one round on values, for a profile
    whose threads share no table. *)
Lemma mergeInput_agrees profiles values tms i s st p v :
  profiles !! i = Some p -> values !! i = Some v ->
  readProfile st p = Some v ->
  NoDup (ProfileObject.threads p) ->
  (forall t t' o o',
     t ∈ ProfileObject.threads p -> t' ∈ ProfileObject.threads p ->
     threadObjects st !! t = Some o -> threadObjects st !! t' = Some o' ->
     ThreadObject.stackTable o' = ThreadObject.stackTable o \/
     ThreadObject.frameTable o' = ThreadObject.frameTable o -> t' = t) ->
  match mergeInput values tms i (readUrlState st s) with
  | Throw e => InPlace.mergeInput profiles tms i s st = Throw e
  | Ok r =>
      exists r' sel t o,
        InPlace.mergeInput profiles tms i s st = Ok r' /\
        UrlStateObject.selectedThread s = Some sel /\
        ProfileObject.threads p !! sel = Some t /\
        threadObjects st !! t = Some o /\
        InPlace.roundTransformStack r' = roundTransformStack r /\
        InPlace.roundImplementation r' = roundImplementation r /\
        readThread (InPlace.roundStore r') (InPlace.roundPushed r')
          = Some (roundThread r) /\
        readUrlState (InPlace.roundStore r') s = roundState r /\
        roundFrame st (InPlace.roundStore r') t o s (InPlace.roundPushed r')
  end.
Proof.
  intros Hp Hv Hread Hnodup Hshare.
  unfold mergeInput, selectInput. simpl.
  destruct (UrlStateObject.selectedThread s) as [sel|] eqn:Hsel; simpl.
  2:{ unfold InPlace.mergeInput. by rewrite Hsel. }
  rewrite Hv.
  pose proof Hread as [Hmeta Hthreads]%readProfile_Some.
  destruct (Profile.threads v !! sel) as [thread|] eqn:Hthread.
  2:{ unfold InPlace.mergeInput. rewrite Hsel, Hp.
      destruct (ProfileObject.threads p !! sel) as [t|] eqn:Ht; [|done].
      destruct (Forall2_lookup_l _ _ _ _ _ Hthreads Ht) as (? & ? & _).
      congruence. }
  destruct (Forall2_lookup_r _ _ _ _ _ Hthreads Hthread) as (t & Ht & Hreadt).
  apply readThread_Some in Hreadt as (o & stack & frame & Ho & Hstack & Hframe & ->).
  destruct (tms !! i) as [tm|] eqn:Htm.
  2:{ unfold InPlace.mergeInput. by rewrite Hsel, Hp, Ht, Ho, Htm. }
  rewrite (mergeInput_selected _ _ _ _ _ _ _ _ _ _ _ _
             Hsel Hp Ht Ho Htm Hstack Hframe).
  unfold remapCategories. simpl.
  destruct (adjustCategories _ tm) as [sc|e]; [simpl|done].
  destruct (adjustNullableCategories _ tm) as [fc|e]; [simpl|done].
  set (stack' := StackTable.set_category sc stack).
  set (frame' := FrameTable.set_category fc frame).
  assert (readProfile (remappedStore o stack' frame' st) p
          = Some (Profile.set_thread sel (ThreadObject.read stack' frame' o) v))
    as Hwhole.
  { eapply readProfile_remapped; try done.
    intros t' o' Hin Ho'. apply (Hshare t t' o o'); try done.
    by eapply list_elem_of_lookup_2. }
  rewrite Hwhole.
  change (Thread.set_frameTable _ (Thread.set_stackTable _ _))
    with (ThreadObject.read stack' frame' o).
  set (remapped := ThreadObject.read stack' frame' o).
  set (whole := Profile.set_thread sel remapped v).
  set (st1 := remappedStore o stack' frame' st).
  assert (Hlt : t < length (threadObjects st)) by (by eapply lookup_lt_Some).
  assert (Hslt : ThreadObject.stackTable o < length (stackTables st))
    by (by eapply lookup_lt_Some).
  assert (Hflt : ThreadObject.frameTable o < length (frameTables st))
    by (by eapply lookup_lt_Some).
  match goal with
  | |- context [popCommittedRange ?ps] =>
      replace ps with (UrlState.profileSpecific (readUrlState st1 s))
        by (unfold readUrlState; simpl; by rewrite Hsel)
  end.
  destruct (popCommittedRange_agrees st1 s)
    as (Hrange & Hstate & Hobjects & Hstacks & Hframes & Hranges).
  destruct (popCommittedRange _) as [range ps'] eqn:Hpop.
  simpl in Hrange, Hstate. simpl.
  set (st2 := (InPlace.popCommittedRange st1 s).2) in *.
  rewrite Hrange. clearbody st2.
  rewrite cropToCommittedRange_copy.
  set (merged := normalizeThread i whole _).
  assert (Thread.stackTable merged = stack' /\ Thread.frameTable merged = frame')
    as [Hms Hmf].
  { unfold merged.
    destruct (normalizeThread_fields i whole
                (InPlace.cropToCommittedRange
                   (StartEndRange.start (getTimeRangeIncludingAllThreads whole))
                   range remapped)) as (_ & _ & _ & -> & ->).
    apply cropToCommittedRange_tables. }
  eexists _, sel, t, o. split; [reflexivity|].
  assert (forall objects pushed,
            objects !! pushed = Some (ThreadObject.assign merged o) ->
            readThread (set_threadObjects objects st2) pushed = Some merged)
    as Hpushed.
  { intros objects pushed Hobject. apply readThread_Some.
    exists (ThreadObject.assign merged o), stack', frame'.
    split_and!; [done| | |]; simpl.
    - rewrite Hstacks. simpl. by apply list_lookup_insert_eq.
    - rewrite Hframes. simpl. by apply list_lookup_insert_eq.
    - by rewrite <- Hms, <- Hmf, read_assign. }
  simpl in Hobjects, Hstacks, Hframes, Hranges.
  split_and!; try done; simpl.
  - apply Hpushed. destruct range.
    + by rewrite list_lookup_middle.
    + rewrite Hobjects. by apply list_lookup_insert_eq.
  - unfold roundFrame. simpl. rewrite Hobjects, Hstacks, Hframes.
    split_and!.
    + exists (ThreadObject.assign merged o). split; [|done].
      destruct range.
      * by rewrite list_lookup_middle.
      * by apply list_lookup_insert_eq.
    + destruct range; auto.
    + destruct range; [rewrite length_app|rewrite length_insert]; lia.
    + intros t' Hne Hlt'. destruct range.
      * by apply lookup_app_l.
      * by apply list_lookup_insert_ne.
    + intros a Ha. by apply list_lookup_insert_ne.
    + intros a Ha. by apply list_lookup_insert_ne.
    + done.
Qed.

End RoundAgreement.

Section LoopAgreement.
Context {PD : ProfileData} {Laws : ProfileDataLaws PD}.

Lemma mergeInput_agrees_missing profiles values tms i s st :
  profiles !! i = None -> values !! i = None ->
  exists e,
    mergeInput values tms i (readUrlState st s) = Throw e /\
    InPlace.mergeInput profiles tms i s st = Throw e.
Proof.
  intros Hp Hv.
  unfold mergeInput, selectInput, InPlace.mergeInput. simpl.
  rewrite Hp, Hv.
  destruct (UrlStateObject.selectedThread s); by eexists.
Qed.

Lemma readUrlState_frame st st' s :
  (forall a, UrlStateObject.committedRanges s = Some a ->
     rangeStacks st' !! a = rangeStacks st !! a) ->
  readUrlState st' s = readUrlState st s.
Proof.
  intros Hframe. unfold readUrlState.
  destruct (UrlStateObject.committedRanges s) as [a|]; [|done].
  simpl. by rewrite Hframe.
Qed.

Lemma sameThread_trans st st' st'' t :
  sameThread st st' t -> sameThread st' st'' t -> sameThread st st'' t.
Proof.
  intros [Ho Htables] [Ho' Htables']. split; [congruence|].
  intros o Hlookup. destruct (Htables o Hlookup) as [-> ->].
  apply Htables'. congruence.
Qed.

Lemma readProfile_frame st st' p :
  (forall t, t ∈ ProfileObject.threads p -> sameThread st st' t) ->
  readProfile st p = readProfile st' p.
Proof.
  intros Hsame. unfold readProfile.
  rewrite (Forall_mapM_ext _ (readThread st')); [done|].
  apply Forall_forall. intros t Ht. by apply sameThread_read, Hsame.
Qed.

Variables (store0 : Store) (profiles : list ProfileObject.t)
  (states : list UrlStateObject.t) (values : list Profile.t)
  (tms : list (gmap nat nat)).
Hypothesis Hvalues :
  Forall2 (fun p v => readProfile store0 p = Some v) profiles values.
Hypothesis Hseparate : separate store0 profiles states.

(** A listed thread is an object of the store. *)
Lemma listed_thread k p t :
  profiles !! k = Some p -> t ∈ ProfileObject.threads p ->
  exists o, threadObjects store0 !! t = Some o.
Proof.
  intros Hp [a Ha]%list_elem_of_lookup_1.
  destruct (Forall2_lookup_l _ _ _ _ _ Hvalues Hp) as (v & _ & Hread).
  apply readProfile_Some in Hread as [_ Hthreads].
  destruct (Forall2_lookup_l _ _ _ _ _ Hthreads Ha) as (thread & _ & Hthread).
  apply readThread_Some in Hthread as (o & _ & _ & Ho & _). eauto.
Qed.

(** Two listed threads that share a table are the same thread. *)
Lemma listed_threads_tables k k' p p' t t' o o' :
  profiles !! k = Some p -> t ∈ ProfileObject.threads p ->
  profiles !! k' = Some p' -> t' ∈ ProfileObject.threads p' ->
  threadObjects store0 !! t = Some o -> threadObjects store0 !! t' = Some o' ->
  ThreadObject.stackTable o' = ThreadObject.stackTable o \/
  ThreadObject.frameTable o' = ThreadObject.frameTable o ->
  t' = t.
Proof.
  intros Hp Ht Hp' Ht' Ho Ho' [Heq|Heq].
  - eapply (NoDup_omap_elem_of _ _ t' t (ThreadObject.stackTable o));
      [apply (separate_stackTables _ _ _ Hseparate)
      |exact (allThreads_lookup _ _ _ _ Hp' Ht')
      |exact (allThreads_lookup _ _ _ _ Hp Ht)| |].
    + cbv beta. rewrite Ho'. simpl. by rewrite Heq.
    + cbv beta. by rewrite Ho.
  - eapply (NoDup_omap_elem_of _ _ t' t (ThreadObject.frameTable o));
      [apply (separate_frameTables _ _ _ Hseparate)
      |exact (allThreads_lookup _ _ _ _ Hp' Ht')
      |exact (allThreads_lookup _ _ _ _ Hp Ht)| |].
    + cbv beta. rewrite Ho'. simpl. by rewrite Heq.
    + cbv beta. by rewrite Ho.
Qed.

Lemma loopInv_step pre s rest acc accV r r' sel p t o :
  states = pre ++ s :: rest ->
  loopInv store0 profiles states pre acc accV ->
  profiles !! length pre = Some p ->
  ProfileObject.threads p !! sel = Some t ->
  threadObjects (InPlace.loopStore acc) !! t = Some o ->
  InPlace.roundTransformStack r' = roundTransformStack r ->
  InPlace.roundImplementation r' = roundImplementation r ->
  readThread (InPlace.roundStore r') (InPlace.roundPushed r')
    = Some (roundThread r) ->
  readUrlState (InPlace.roundStore r') s = roundState r ->
  roundFrame (InPlace.loopStore acc) (InPlace.roundStore r') t o s (InPlace.roundPushed r') ->
  loopInv store0 profiles states (pre ++ [s])
    (InPlace.mkMergeLoop (InPlace.roundStore r')
       (InPlace.loopThreads acc ++ [InPlace.roundPushed r'])
       (<[length pre := InPlace.roundTransformStack r']>
          (InPlace.loopTransformStacks acc))
       (InPlace.loopImplementationFilters acc
          ++ [InPlace.roundImplementation r']))
    (mkMergeLoop
       (loopThreads accV ++ [roundThread r])
       (<[length pre := roundTransformStack r]>
          (loopTransformStacks accV))
       (loopImplementationFilters accV
          ++ [roundImplementation r])
       (loopStates accV ++ [roundState r])).
Proof.
  intros Hstates (Hthreads & Hstate & Hlen & Hpushed & Hafter & Htransforms & Hfilters)
    Hp Ht Ho Htr Him Hread Hreadstate
    (Hobject & Hwhere & Hgrow & Hobjects & Hstacks & Hframes & Hranges).
  set (i := length pre) in *. set (st := InPlace.loopStore acc) in *.
  set (st' := InPlace.roundStore r') in *.
  assert (Hin : t ∈ ProfileObject.threads p) by (by eapply list_elem_of_lookup_2).
  assert (Ho0 : threadObjects store0 !! t = Some o).
  { destruct (Hthreads i p t (le_n _) Hp Hin) as [<- _]. done. }
  (* the threads of the other profiles are out of reach of this round *)
  assert (forall k q u w,
            k <> i -> profiles !! k = Some q -> u ∈ ProfileObject.threads q ->
            threadObjects store0 !! u = Some w ->
            u <> t /\
            ThreadObject.stackTable w <> ThreadObject.stackTable o /\
            ThreadObject.frameTable w <> ThreadObject.frameTable o) as Hother.
  { intros k q u w Hk Hq Hu Hw.
    assert (u <> t) as Hne.
    { intros ->. apply Hk.
      by eapply (allThreads_NoDup_owner profiles k i q p t);
        [apply (separate_threads _ _ _ Hseparate)|..]. }
    split_and!; [done|..]; intros Heq; apply Hne;
      eapply (listed_threads_tables i k p q t u o w); eauto. }
  (* the url states at other positions keep their ranges *)
  assert (forall k s', k <> i -> states !! k = Some s' ->
            readUrlState st' s' = readUrlState st s') as Hotherstate.
  { intros k s' Hk Hs'. apply readUrlState_frame. intros a Ha.
    apply Hranges. intros Hsa. apply Hk.
    eapply (NoDup_omap_lookup _ states k i s' s a);
      [apply (separate_ranges _ _ _ Hseparate)|done| |done|done].
    rewrite Hstates. by apply list_lookup_middle. }
  unfold loopInv. simpl. rewrite length_app. simpl.
  replace (length pre + 1) with (S i) by (unfold i; lia).
  split_and!.
  - intros k q u Hk Hq Hu.
    destruct (listed_thread k q u Hq Hu) as [w Hw].
    destruct (Hother k q u w ltac:(lia) Hq Hu Hw) as (Hne & Hs & Hf).
    eapply sameThread_trans; [|apply (Hthreads k q u ltac:(lia) Hq Hu)].
    destruct (Hthreads k q u ltac:(lia) Hq Hu) as [Hsame _].
    assert (threadObjects st !! u = Some w) as Hu' by congruence.
    split.
    + apply Hobjects; [done|]. by eapply lookup_lt_Some.
    + intros w' Hw'. rewrite Hobjects in Hw' by (done || by eapply lookup_lt_Some).
      assert (w' = w) as -> by congruence.
      split; [by apply Hstacks|by apply Hframes].
  - intros k s' Hk Hs'.
    rewrite (Hotherstate k s') by (lia || done).
    apply (Hstate k); [lia|done].
  - lia.
  - apply Forall2_app.
    + eapply Forall2_impl; [exact Hpushed|].
      intros res thread [Hres (m & Hm & Hsettled)].
      destruct (Hsettled i p t o (le_n _) Hp Hin Ho0) as (Hne & Hs & Hf).
      assert (threadObjects st' !! res = Some m) as Hm'.
      { rewrite Hobjects; [done|done|]. by eapply lookup_lt_Some. }
      split.
      * rewrite <- Hres. apply sameThread_read. split; [congruence|].
        intros m' Hm''. assert (m' = m) as -> by congruence.
        split; [by apply Hstacks|by apply Hframes].
      * exists m. split; [done|].
        intros k q u w Hk. apply Hsettled. lia.
    + constructor; [|constructor]. split; [done|].
      destruct Hobject as (m & Hm & Hms & Hmf).
      exists m. split; [done|].
      intros k q u w Hk Hq Hu Hw.
      destruct (Hother k q u w ltac:(lia) Hq Hu Hw) as (Hne & Hs & Hf).
      rewrite Hms, Hmf. split_and!; [|congruence|congruence].
      destruct Hwhere as [->| ->]; [congruence|].
      apply lookup_lt_Some in Hw. lia.
  - rewrite Hafter, fmap_app. simpl. rewrite Hreadstate. f_equal.
    apply list_eq_Forall2, Forall2_fmap, Forall_Forall2_diag, Forall_lookup.
    intros k s' Hs'. symmetry. apply (Hotherstate k).
    + apply lookup_lt_Some in Hs'. lia.
    + rewrite Hstates. by apply lookup_app_l_Some.
  - by rewrite Htransforms, Htr.
  - by rewrite Hfilters, Him.
Qed.

Lemma mergeLoop_agrees rest : forall pre acc accV,
  states = pre ++ rest ->
  loopInv store0 profiles states pre acc accV ->
  match mergeLoop values tms (length pre)
          (readUrlState store0 <$> rest) accV with
  | Ok accV' =>
      exists acc',
        InPlace.mergeLoop profiles tms (length pre) rest acc = Ok acc' /\
        loopInv store0 profiles states states acc' accV'
  | Throw e => InPlace.mergeLoop profiles tms (length pre) rest acc = Throw e
  end.
Proof.
  induction rest as [|s rest IH]; intros pre acc accV Hstates Hinv.
  { rewrite app_nil_r in Hstates. subst pre. simpl. by exists acc. }
  pose proof Hinv as (Hthreads & Hstate & _).
  rewrite fmap_cons. cbn [mergeLoop InPlace.mergeLoop].
  rewrite <- (Hstate (length pre) s (le_n _))
    by (rewrite Hstates; by apply list_lookup_middle).
  destruct (profiles !! length pre) as [p|] eqn:Hp.
  - destruct (Forall2_lookup_l _ _ _ _ _ Hvalues Hp) as (v & Hv & Hread).
    assert (readProfile (InPlace.loopStore acc) p = Some v) as Hread'.
    { rewrite <- Hread. apply readProfile_frame. intros t Ht.
      by apply (Hthreads (length pre) p t). }
    pose proof (mergeInput_agrees profiles values tms (length pre) s
                  (InPlace.loopStore acc) p v Hp Hv Hread') as Hround.
    destruct (mergeInput values tms (length pre) _) as [r|e].
    + destruct Hround
        as (r' & sel & t & o & -> & _ & Ht & Ho & Htr & Him & Hpushed
            & Hafter & Hframe).
      { eapply allThreads_NoDup_profile;
          [apply (separate_threads _ _ _ Hseparate)|done]. }
      { intros t t' o o' Ht Ht' Ho Ho'.
        destruct (Hthreads (length pre) p t (le_n _) Hp Ht) as [Hsame _].
        destruct (Hthreads (length pre) p t' (le_n _) Hp Ht') as [Hsame' _].
        apply (listed_threads_tables (length pre) (length pre) p p);
          congruence. }
      simpl.
      specialize (IH (pre ++ [s])
        (InPlace.mkMergeLoop (InPlace.roundStore r')
           (InPlace.loopThreads acc ++ [InPlace.roundPushed r'])
           (<[length pre := InPlace.roundTransformStack r']>
              (InPlace.loopTransformStacks acc))
           (InPlace.loopImplementationFilters acc
              ++ [InPlace.roundImplementation r']))
        (mkMergeLoop
           (loopThreads accV ++ [roundThread r])
           (<[length pre := roundTransformStack r]>
              (loopTransformStacks accV))
           (loopImplementationFilters accV
              ++ [roundImplementation r])
           (loopStates accV ++ [roundState r]))).
      rewrite length_app in IH. simpl in IH.
      replace (length pre + 1) with (S (length pre)) in IH by lia.
      apply IH.
      * by rewrite <- app_assoc.
      * by eapply loopInv_step.
    + simpl. rewrite Hround; [done|..].
      { eapply allThreads_NoDup_profile;
          [apply (separate_threads _ _ _ Hseparate)|done]. }
      { intros t t' o o' Ht Ht' Ho Ho'.
        destruct (Hthreads (length pre) p t (le_n _) Hp Ht) as [Hsame _].
        destruct (Hthreads (length pre) p t' (le_n _) Hp Ht') as [Hsame' _].
        apply (listed_threads_tables (length pre) (length pre) p p);
          congruence. }
  - assert (values !! length pre = None) as Hv.
    { apply lookup_ge_None. rewrite <- (Forall2_length _ _ _ Hvalues).
      by apply lookup_ge_None. }
    destruct (mergeInput_agrees_missing profiles values tms (length pre) s
                (InPlace.loopStore acc) Hp Hv) as (e & -> & ->).
    done.
Qed.

End LoopAgreement.

Section Agreement.
Context {PD : ProfileData} {Laws : ProfileDataLaws PD}.

(** On inputs that are separate objects the merge on objects and the
    merge on values do the same: they throw the same error, or the store
    reads, after the call, as the values that [mergeProfiles] returns. *)
Lemma mergeProfiles_agrees store profiles states values :
  Forall2 (fun p v => readProfile store p = Some v) profiles values ->
  separate store profiles states ->
  match mergeProfiles values (readUrlState store <$> states) with
  | Ok outV =>
      exists out,
        InPlace.mergeProfiles store profiles states = Ok out /\
        readProfile (InPlace.store out) (InPlace.profile out)
          = Some (profile outV) /\
        InPlace.transformStacks out = transformStacks outV /\
        InPlace.implementationFilters out
          = implementationFilters outV /\
        readUrlState (InPlace.store out) <$> states
          = profileStatesAfter outV
  | Throw e => InPlace.mergeProfiles store profiles states = Throw e
  end.
Proof.
  intros Hvalues Hseparate.
  unfold mergeProfiles, InPlace.mergeProfiles.
  assert (forall (A : Type) (f : ProfileMeta.t -> A),
            map (fun profile => f (ProfileObject.meta profile)) profiles
            = map (fun profile => f (Profile.meta profile)) values) as Hmeta.
  { intros A f. clear Hseparate.
    induction Hvalues as [|p v ps vs Hread _ IH]; [done|].
    apply readProfile_Some in Hread as [Hmeta _]. simpl. by rewrite IH, Hmeta. }
  rewrite !Hmeta.
  destruct (mergeCategories _) as [newCategories tms].
  pose proof (mergeLoop_agrees store profiles states values tms
                Hvalues Hseparate states []
                (InPlace.mkMergeLoop store [] ∅ [])
                (mkMergeLoop (Profile.threads getEmptyProfile) ∅ [] [])
                eq_refl) as Hloop.
  simpl in Hloop.
  destruct (mergeLoop values tms 0 _ _) as [accV|e].
  - destruct Hloop as (acc & -> & _ & _ & _ & Hthreads & Hafter & Htr & Him).
    { unfold loopInv. simpl. split_and!; try done; intros; by split. }
    simpl. eexists. split; [reflexivity|]. simpl. split_and!; try done.
    apply readProfile_Some. split; [done|]. simpl.
    eapply Forall2_impl; [exact Hthreads|]. by intros ? ? [? _].
  - simpl. rewrite Hloop; [done|].
    unfold loopInv. simpl. split_and!; try done; intros; by split.
Qed.

End Agreement.

Section ObjectLoop.
Context {PD : ProfileData}.

Lemma InPlace_mergeProfiles_unfold store profiles states :
  InPlace.mergeProfiles store profiles states =
  (acc ← InPlace.mergeLoop profiles (InPlace.translationMapsOf profiles) 0
           states (InPlace.loopStart store);
   Ok (InPlace.mkMergeOutput (InPlace.loopStore acc)
         (ProfileObject.mk
            (ProfileMeta.mk
               (JS.Math_min
                  (map (fun profile =>
                          ProfileMeta.interval (ProfileObject.meta profile))
                     profiles))
               (mergeCategories
                  (map (fun profile =>
                          ProfileMeta.categories (ProfileObject.meta profile))
                     profiles)).1)
            (InPlace.loopThreads acc))
         (InPlace.loopTransformStacks acc)
         (InPlace.loopImplementationFilters acc))).
Proof.
  unfold InPlace.mergeProfiles, InPlace.translationMapsOf, InPlace.loopStart.
  by destruct (mergeCategories _).
Qed.

(** The loop over [pre ++ rest] is the loop over [pre], then over
    [rest]. *)
Lemma InPlace_mergeLoop_app profiles tms pre : forall rest i acc,
  InPlace.mergeLoop profiles tms i (pre ++ rest) acc =
  (before ← InPlace.mergeLoop profiles tms i pre acc;
   InPlace.mergeLoop profiles tms (i + length pre) rest before).
Proof.
  induction pre as [|s pre IH]; intros rest i acc; simpl.
  { by rewrite Nat.add_0_r. }
  destruct (InPlace.mergeInput profiles tms i s (InPlace.loopStore acc)) as [r|e];
    simpl; [|done].
  rewrite IH. by replace (S i + length pre) with (i + S (length pre)) by lia.
Qed.

(** The loop throws the error of its first round that throws. *)
Lemma InPlace_mergeLoop_Throw profiles tms states : forall i acc e,
  InPlace.mergeLoop profiles tms i states acc = Throw e <->
  exists k failing before,
    states !! k = Some failing /\
    InPlace.mergeLoop profiles tms i (take k states) acc = Ok before /\
    InPlace.mergeInput profiles tms (i + k) failing (InPlace.loopStore before)
    = Throw e.
Proof.
  induction states as [|s states IH]; intros i acc e.
  { split; [done|]. by intros (k & ? & ? & ? & _). }
  simpl. split.
  - destruct (InPlace.mergeInput profiles tms i s (InPlace.loopStore acc))
      as [r|e'] eqn:Hround; simpl.
    + intros (k & failing & before & Hk & Hbefore & Hthrow)%IH.
      exists (S k), failing, before. simpl. rewrite Hround. simpl.
      split_and!; [done|done|]. by replace (i + S k) with (S i + k) by lia.
    + intros [= ->]. exists 0, s, acc. simpl.
      by rewrite Nat.add_0_r.
  - intros (k & failing & before & Hk & Hbefore & Hthrow).
    destruct k as [|k]; simpl in *.
    + simplify_eq. rewrite Nat.add_0_r in Hthrow. by rewrite Hthrow.
    + destruct (InPlace.mergeInput profiles tms i s (InPlace.loopStore acc))
        as [r|e']; simpl in *; [|done].
      apply IH. exists k, failing, before.
      split_and!; [done|done|]. by replace (S i + k) with (i + S k) by lia.
Qed.

(** A round throws the contract error exactly for a null selection, and
    then for its own index. *)
Lemma InPlace_mergeInput_NoThreadSelected profiles tms i s st k :
  InPlace.mergeInput profiles tms i s st = Throw (NoThreadSelected k) <->
  UrlStateObject.selectedThread s = None /\ k = i.
Proof.
  unfold InPlace.mergeInput. split.
  - destruct (UrlStateObject.selectedThread s) as [sel|]; [|by intros [= ->]].
    destruct (profiles !! i) as [p|]; [|done].
    destruct (ProfileObject.threads p !! sel) as [t|]; [|done].
    destruct (threadObjects st !! t) as [o|]; [|done].
    destruct (tms !! i) as [tm|]; [|done].
    destruct (stackTables st !! _) as [stack|]; [|done].
    destruct (adjustCategories _ tm) as [sc|e] eqn:Hsc; simpl.
    2:{ apply adjustCategories_Throw in Hsc as (? & ? & ? & _ & _ & _ & ->).
        done. }
    destruct (frameTables st !! _) as [frame|]; [|done].
    destruct (adjustNullableCategories _ tm) as [fc|e] eqn:Hfc; simpl.
    2:{ apply adjustNullableCategories_Throw in Hfc
          as (? & ? & ? & _ & _ & _ & ->).
        done. }
    destruct (readProfile _ p) as [whole|]; [|done].
    destruct (InPlace.popCommittedRange _ s) as [[range|] st'']; done.
  - by intros [-> ->].
Qed.

End ObjectLoop.

Section ObjectIdentity.
Context {PD : ProfileData}.

Lemma InPlace_cropToCommittedRange_identity zeroAt committedRange thread :
  let cropped := InPlace.cropToCommittedRange zeroAt committedRange thread in
  Thread.pid cropped = Thread.pid thread /\
  Thread.processName cropped = Thread.processName thread /\
  Thread.name cropped = Thread.name thread.
Proof. by destruct committedRange. Qed.

(** A round that goes through: the thread it pushes is the selected
    object or a new one, it bears the identity of line 93-95, and no other
    thread object has been written. *)
Lemma InPlace_mergeInput_Ok profiles tms i s st r :
  InPlace.mergeInput profiles tms i s st = Ok r ->
  exists t o merged,
    selectedRef profiles i s = Some t /\
    threadObjects st !! t = Some o /\
    threadObjects (InPlace.roundStore r) !! InPlace.roundPushed r = Some merged /\
    ThreadObject.pid merged =
      (ThreadObject.pid o ++ " from profile " ++ JS.toString (i + 1))%string /\
    ThreadObject.processName merged =
      Some ("Profile " ++ JS.toString (i + 1) ++ ": "
              ++ JS.orElse (ThreadObject.processName o)
                   (ThreadObject.name o))%string /\
    (InPlace.roundPushed r = t \/ InPlace.roundPushed r = length (threadObjects st)) /\
    length (threadObjects st) <= length (threadObjects (InPlace.roundStore r)) /\
    (forall t', t' <> t -> t' < length (threadObjects st) ->
       threadObjects (InPlace.roundStore r) !! t' = threadObjects st !! t').
Proof.
  unfold InPlace.mergeInput, selectedRef.
  destruct (UrlStateObject.selectedThread s) as [sel|]; [|done].
  destruct (profiles !! i) as [p|]; [|done]. simpl.
  destruct (ProfileObject.threads p !! sel) as [t|]; [|done].
  destruct (threadObjects st !! t) as [o|] eqn:Ho; [|done].
  destruct (tms !! i) as [tm|]; [|done].
  destruct (stackTables st !! _) as [stack|]; [|done].
  destruct (adjustCategories _ tm) as [sc|e]; [simpl|done].
  destruct (frameTables st !! _) as [frame|]; [|done].
  destruct (adjustNullableCategories _ tm) as [fc|e]; [simpl|done].
  destruct (readProfile _ p) as [whole|]; [|done].
  destruct (InPlace.popCommittedRange _ s) as [range st''] eqn:Hpop.
  assert (threadObjects st'' = threadObjects st) as Hobjects.
  { unfold InPlace.popCommittedRange in Hpop.
    destruct (UrlStateObject.committedRanges s) as [a|]; [|by simplify_eq].
    simpl in Hpop. destruct (rangeStacks st !! a); by simplify_eq. }
  match goal with
  | |- context [normalizeThread i whole ?c] =>
      destruct (normalizeThread_fields i whole c) as (Hpid & Hname & _);
      set (cropped := c) in *
  end.
  match goal with
  | cropped := InPlace.cropToCommittedRange ?z ?r ?th |- _ =>
      destruct (InPlace_cropToCommittedRange_identity z r th)
        as (Hcpid & Hcname & Hcn)
  end.
  fold cropped in Hcpid, Hcname, Hcn.
  rewrite Hcpid, Hcname, Hcn in *. simpl in Hpid, Hname.
  assert (t < length (threadObjects st)) by (by eapply lookup_lt_Some).
  destruct range as [range|]; intros [= <-]; simpl; rewrite Hobjects;
    exists t, o; eexists; (split; [done|]); (split; [done|]).
  - split; [by rewrite list_lookup_middle|]. simpl.
    split_and!; [done|done|by right|rewrite length_app; lia|].
    intros t' _ Ht'. by apply lookup_app_l.
  - split; [by apply list_lookup_insert_eq|]. simpl.
    split_and!; [done|done|by left|by rewrite length_insert|].
    intros t' Hne _. by apply list_lookup_insert_ne.
Qed.

Lemma selections_lookup profiles states k s t :
  states !! k = Some s -> selectedRef profiles k s = Some t ->
  t ∈ selections profiles states.
Proof.
  intros Hs Ht. apply list_elem_of_omap. exists (Some t). split; [|done].
  apply list_elem_of_lookup. exists k. by rewrite list_lookup_imap, Hs, <- Ht.
Qed.

(** A thread that is selected once is selected by one round. *)
Lemma selections_owner profiles states j k s s' t :
  NoDup (selections profiles states) ->
  states !! j = Some s -> states !! k = Some s' ->
  selectedRef profiles j s = Some t -> selectedRef profiles k s' = Some t ->
  j = k.
Proof.
  intros Hnodup Hs Hs' Ht Ht'.
  apply (NoDup_omap_lookup id (imap (selectedRef profiles) states)
           j k (Some t) (Some t) t Hnodup); [| |done|done].
  - rewrite list_lookup_imap, Hs. simpl. by rewrite Ht.
  - rewrite list_lookup_imap, Hs'. simpl. by rewrite Ht'.
Qed.

Section Loop.
Variables (store0 : Store) (profiles : list ProfileObject.t)
  (states : list UrlStateObject.t) (tms : list (gmap nat nat)).
Hypothesis Hdistinct : NoDup (selections profiles states).
Hypothesis Hobjects :
  Forall (fun t => is_Some (threadObjects store0 !! t))
    (selections profiles states).

Lemma identityInv_loop rest : forall pre acc acc',
  states = pre ++ rest ->
  identityInv store0 profiles states pre acc ->
  InPlace.mergeLoop profiles tms (length pre) rest acc = Ok acc' ->
  identityInv store0 profiles states states acc'.
Proof.
  induction rest as [|s rest IH]; intros pre acc acc' Hstates Hinv Hloop.
  { rewrite app_nil_r in Hstates. subst pre. simpl in Hloop. by simplify_eq. }
  simpl in Hloop.
  destruct (InPlace.mergeInput profiles tms (length pre) s (InPlace.loopStore acc))
    as [r|e] eqn:Hround; simpl in Hloop; [|done].
  assert (Hs : states !! length pre = Some s)
    by (rewrite Hstates; by apply list_lookup_middle).
  apply InPlace_mergeInput_Ok in Hround
    as (t & o & merged & Ht & Ho & Hmerged & Hpid & Hname & Hwhere & Hgrow
        & Hframe).
  destruct Hinv as (Hlen & Hsize & Hrest & Hdone).
  assert (forall k s' t',
            k <> length pre -> states !! k = Some s' ->
            selectedRef profiles k s' = Some t' ->
            t' <> t /\ t' < length (threadObjects store0)) as Hother.
  { intros k s' t' Hk Hs' Ht'. split.
    - intros ->. apply Hk. by eapply (selections_owner profiles states k).
    - apply lookup_lt_is_Some.
      eapply (proj1 (Forall_forall _ _) Hobjects).
      by eapply selections_lookup. }
  eapply (IH (pre ++ [s])); [by rewrite <- app_assoc| |].
  2:{ rewrite length_app. simpl.
      by replace (length pre + 1) with (S (length pre)) by lia. }
  unfold identityInv. rewrite length_app. simpl.
  replace (length pre + 1) with (S (length pre)) by lia.
  split_and!.
  - rewrite length_app. simpl. lia.
  - lia.
  - intros k s' t' Hk Hs' Ht'.
    destruct (Hother k s' t' ltac:(lia) Hs' Ht') as [Hne Hlt].
    rewrite Hframe by (done || lia). apply (Hrest k s'); [lia|done..].
  - intros j s' Hj Hs'.
    destruct (decide (j = length pre)) as [->|Hne].
    + assert (s' = s) as -> by congruence.
      exists t, o, (InPlace.roundPushed r), merged.
      split_and!; try done.
      * rewrite <- (Hrest (length pre) s t); done.
      * rewrite <- Hlen. by apply list_lookup_middle.
      * intros k s' t' Hk Hs'' Ht'.
        destruct (Hother k s' t' ltac:(lia) Hs'' Ht') as [Hne Hlt].
        destruct Hwhere as [->| ->]; [done|lia].
    + destruct (Hdone j s' ltac:(lia) Hs')
        as (t' & o' & pushed & merged' & Ht' & Ho' & Hpushed & Hmerged'
            & Hpid' & Hname' & Haway).
      exists t', o', pushed, merged'.
      split_and!; try done.
      * by apply lookup_app_l_Some.
      * rewrite Hframe; [done| |by eapply lookup_lt_Some].
        by apply (Haway (length pre) s t).
      * intros k s'' t'' Hk. apply Haway. lia.
Qed.

End Loop.

End ObjectIdentity.

Section ObjectClaims.
Context {PD : ProfileData}.


(** C7.  A url state without selected thread makes [mergeProfiles] throw:
    no output is returned.  The error is the one of the first round that
    throws, a round at or before the url state in question: it is "No
    thread has been selected in profile i" when the rounds before [i] have
    all gone through, and the error of the earlier round that throws
    otherwise.  When every url state has a selected thread, that error is
    never raised. *)
Theorem null_selection_throws
  (store : Store) (profiles : list ProfileObject.t)
  (states : list UrlStateObject.t) :
  let tms := InPlace.translationMapsOf profiles in
  (forall i state,
     states !! i = Some state ->
     UrlStateObject.selectedThread state = None ->
     exists e k failing before,
       InPlace.mergeProfiles store profiles states = Throw e /\
       k <= i /\ states !! k = Some failing /\
       InPlace.mergeLoop profiles tms 0 (take k states) (InPlace.loopStart store)
         = Ok before /\
       InPlace.mergeInput profiles tms k failing (InPlace.loopStore before)
         = Throw e /\
       (k = i -> e = NoThreadSelected i)) /\
  (forall i state before,
     states !! i = Some state ->
     UrlStateObject.selectedThread state = None ->
     InPlace.mergeLoop profiles tms 0 (take i states) (InPlace.loopStart store)
       = Ok before ->
     InPlace.mergeProfiles store profiles states = Throw (NoThreadSelected i) /\
     errorMessage (NoThreadSelected i) =
       ("No thread has been selected in profile " ++ JS.toString i)%string) /\
  (forall k failing before e,
     states !! k = Some failing ->
     InPlace.mergeLoop profiles tms 0 (take k states) (InPlace.loopStart store)
       = Ok before ->
     InPlace.mergeInput profiles tms k failing (InPlace.loopStore before) = Throw e ->
     InPlace.mergeProfiles store profiles states = Throw e) /\
  (Forall (fun state => UrlStateObject.selectedThread state <> None) states ->
   forall k,
     InPlace.mergeProfiles store profiles states <> Throw (NoThreadSelected k)).
Proof.
  intros tms.
  assert (forall k failing before e,
            states !! k = Some failing ->
            InPlace.mergeLoop profiles tms 0 (take k states) (InPlace.loopStart store)
              = Ok before ->
            InPlace.mergeInput profiles tms k failing (InPlace.loopStore before)
              = Throw e ->
            InPlace.mergeProfiles store profiles states = Throw e) as Hfirst.
  { intros k failing before e Hk Hbefore Hthrow.
    rewrite InPlace_mergeProfiles_unfold. fold tms.
    assert (InPlace.mergeLoop profiles tms 0 states (InPlace.loopStart store) = Throw e)
      as ->; [|done].
    apply InPlace_mergeLoop_Throw. by exists k, failing, before. }
  assert (forall e,
            InPlace.mergeProfiles store profiles states = Throw e ->
            exists k failing before,
              states !! k = Some failing /\
              InPlace.mergeLoop profiles tms 0 (take k states) (InPlace.loopStart store)
                = Ok before /\
              InPlace.mergeInput profiles tms k failing (InPlace.loopStore before)
                = Throw e) as Hthrown.
  { intros e. rewrite InPlace_mergeProfiles_unfold. fold tms.
    destruct (InPlace.mergeLoop profiles tms 0 states (InPlace.loopStart store))
      as [acc|e'] eqn:Hloop; [done|].
    intros [= ->]. by apply InPlace_mergeLoop_Throw in Hloop. }
  assert (forall i state,
            states !! i = Some state ->
            UrlStateObject.selectedThread state = None ->
            exists e, InPlace.mergeProfiles store profiles states = Throw e)
    as Hnone.
  { intros i state Hstate Hnull.
    rewrite InPlace_mergeProfiles_unfold. fold tms.
    destruct (InPlace.mergeLoop profiles tms 0 states (InPlace.loopStart store))
      as [acc|e] eqn:Hloop; [exfalso|by eexists].
    rewrite <- (take_drop_middle states i state Hstate) in Hloop.
    rewrite InPlace_mergeLoop_app in Hloop.
    destruct (InPlace.mergeLoop profiles tms 0 (take i states) _)
      as [before|]; [simpl in Hloop|done].
    rewrite length_take_le in Hloop
      by (apply Nat.lt_le_incl; by eapply lookup_lt_Some).
    simpl in Hloop.
    rewrite (proj2 (InPlace_mergeInput_NoThreadSelected _ _ _ _ _ i)) in Hloop;
      done. }
  split_and!.
  - intros i state Hstate Hnull.
    destruct (Hnone i state Hstate Hnull) as [e He].
    destruct (Hthrown e He) as (k & failing & before & Hk & Hbefore & Hthrow).
    assert (k <= i) as Hle.
    { destruct (decide (k <= i)) as [|Hgt]; [done|exfalso].
      (* round [i] is among the rounds that went through before [k] *)
      assert (take k states !! i = Some state) as Hsplit
        by (by rewrite lookup_take_lt by lia).
      apply take_drop_middle in Hsplit.
      rewrite take_take, Nat.min_l in Hsplit by lia.
      rewrite <- Hsplit, InPlace_mergeLoop_app in Hbefore.
      destruct (InPlace.mergeLoop profiles tms 0 (take i states) _)
        as [acc|]; [simpl in Hbefore|done].
      rewrite length_take_le in Hbefore
        by (apply Nat.lt_le_incl; by eapply lookup_lt_Some).
      simpl in Hbefore.
      rewrite (proj2 (InPlace_mergeInput_NoThreadSelected _ _ _ _ _ i))
        in Hbefore; done. }
    exists e, k, failing, before. split_and!; try done.
    intros ->. assert (failing = state) as -> by congruence.
    rewrite (proj2 (InPlace_mergeInput_NoThreadSelected _ _ _ _ _ i))
      in Hthrow by done.
    congruence.
  - intros i state before Hstate Hnull Hbefore. split; [|done].
    apply (Hfirst i state before); [done|done|].
    by apply InPlace_mergeInput_NoThreadSelected.
  - exact Hfirst.
  - intros Hselected k He.
    destruct (Hthrown _ He) as (j & failing & before & Hj & _ & Hthrow).
    apply InPlace_mergeInput_NoThreadSelected in Hthrow as [Hnull _].
    by apply (proj1 (Forall_lookup _ _) Hselected j failing Hj).
Qed.

End ObjectClaims.

Section SeparateInputs.
Context {PD : ProfileData} {Laws : ProfileDataLaws PD}.

(** Separate inputs read as values. *)
Lemma separate_values store profiles states :
  separate store profiles states ->
  exists values,
    Forall2 (fun p v => readProfile store p = Some v) profiles values.
Proof.
  intros [Hobjects _ _ _ _]. unfold allThreads in Hobjects.
  induction profiles as [|p profiles IH]; [by exists []|].
  rewrite bind_cons in Hobjects. apply Forall_app in Hobjects as [Hp Hrest].
  destruct (IH Hrest) as [values Hvalues].
  destruct (mapM_is_Some_2 (readThread store) (ProfileObject.threads p))
    as [threads Hthreads]; [done|].
  exists (Profile.mk (ProfileObject.meta p) threads :: values).
  constructor; [|done]. unfold readProfile. by rewrite Hthreads.
Qed.

Lemma mergeProfiles_agrees_Ok store profiles states values out :
  Forall2 (fun p v => readProfile store p = Some v) profiles values ->
  separate store profiles states ->
  InPlace.mergeProfiles store profiles states = Ok out ->
  exists outV,
    mergeProfiles values (readUrlState store <$> states) = Ok outV /\
    readProfile (InPlace.store out) (InPlace.profile out)
      = Some (profile outV) /\
    InPlace.transformStacks out = transformStacks outV /\
    InPlace.implementationFilters out = implementationFilters outV /\
    readUrlState (InPlace.store out) <$> states
      = profileStatesAfter outV.
Proof.
  intros Hvalues Hseparate Hmerge.
  pose proof (mergeProfiles_agrees store profiles states values
                Hvalues Hseparate) as Hagree.
  destruct (mergeProfiles values _) as [outV|e]; [|congruence].
  destruct Hagree as (out' & Hout' & Hrest).
  assert (out' = out) as -> by congruence. eauto.
Qed.

(** In a profile that reads as [v], the thread at an index reads as the
    thread of [v] at that index. *)
Lemma readProfile_lookup store p v a t :
  readProfile store p = Some v ->
  ProfileObject.threads p !! a = Some t ->
  exists thread,
    Profile.threads v !! a = Some thread /\ readThread store t = Some thread.
Proof.
  intros [_ Hthreads]%readProfile_Some Ht.
  destruct (Forall2_lookup_l _ _ _ _ _ Hthreads Ht) as (thread & ? & ?).
  eauto.
Qed.

(** X14.  For inputs that are separate objects the loop on objects
    computes what the loop on values computes: both throw, and then the
    same error, or both return, and then the store after the call reads as
    the profile the merge on values returns, with the same transform
    stacks and implementation filters, and the url states read as the url
    states it leaves. *)
Theorem separate_inputs_merge_as_values
  (store : Store) (profiles : list ProfileObject.t)
  (states : list UrlStateObject.t) (values : list Profile.t) :
  Forall2 (fun p v => readProfile store p = Some v) profiles values ->
  separate store profiles states ->
  (forall e,
     InPlace.mergeProfiles store profiles states = Throw e <->
     mergeProfiles values (readUrlState store <$> states) = Throw e) /\
  (forall out,
     InPlace.mergeProfiles store profiles states = Ok out ->
     exists outV,
       mergeProfiles values (readUrlState store <$> states)
         = Ok outV /\
       readProfile (InPlace.store out) (InPlace.profile out)
         = Some (profile outV) /\
       InPlace.transformStacks out = transformStacks outV /\
       InPlace.implementationFilters out
         = implementationFilters outV /\
       readUrlState (InPlace.store out) <$> states
         = profileStatesAfter outV) /\
  (forall outV,
     mergeProfiles values (readUrlState store <$> states) = Ok outV ->
     exists out, InPlace.mergeProfiles store profiles states = Ok out).
Proof.
  intros Hvalues Hseparate.
  pose proof (mergeProfiles_agrees store profiles states values
                Hvalues Hseparate) as Hagree.
  split_and!.
  - intros e.
    destruct (mergeProfiles values _) as [outV|e'].
    + destruct Hagree as (out & -> & _). by split.
    + rewrite Hagree. by split; intros [= ->].
  - intros out. by apply mergeProfiles_agrees_Ok.
  - intros outV HoutV. rewrite HoutV in Hagree.
    destruct Hagree as (out & ? & _). eauto.
Qed.

(** X1.  For inputs that are separate objects, [mergeProfiles] returns
    an output exactly when every url state selects a thread that exists
    in the input profile of the same position and every category index of
    the stack and frame tables of that thread is an index of the category
    list of its profile; no other condition makes the merge throw.  (The
    three range helpers are functions of the class [ProfileData]: a
    helper that throws is outside the model.) *)
Theorem mergeProfiles_succeeds_iff
  (store : Store) (profiles : list ProfileObject.t)
  (states : list UrlStateObject.t) :
  separate store profiles states ->
  (exists out, InPlace.mergeProfiles store profiles states = Ok out) <->
  forall i state,
    states !! i = Some state ->
    exists selected inputProfile t thread,
      UrlStateObject.selectedThread state = Some selected /\
      profiles !! i = Some inputProfile /\
      ProfileObject.threads inputProfile !! selected = Some t /\
      readThread store t = Some thread /\
      validCategories
        (ProfileMeta.categories (ProfileObject.meta inputProfile)) thread.
Proof.
  intros Hseparate.
  destruct (separate_values _ _ _ Hseparate) as [values Hvalues].
  pose proof (mergeProfiles_agrees store profiles states values
                Hvalues Hseparate) as Hagree.
  pose proof (mergeProfiles_Ok_iff values
                (readUrlState store <$> states)) as Hvalid.
  split.
  - intros [out Hout] i state Hstate.
    destruct (mergeProfiles_agrees_Ok _ _ _ _ _ Hvalues Hseparate Hout)
      as (outV & HoutV & _).
    destruct (proj1 Hvalid (ex_intro _ outV HoutV) i (readUrlState store state))
      as (selected & v & thread & Hselected & Hv & Hthread & Hcategories).
    { by rewrite list_lookup_fmap, Hstate. }
    destruct (Forall2_lookup_r _ _ _ _ _ Hvalues Hv) as (p & Hp & Hread).
    pose proof Hread as [Hmeta Hthreads]%readProfile_Some.
    destruct (Forall2_lookup_r _ _ _ _ _ Hthreads Hthread) as (t & Ht & Hreadt).
    exists selected, p, t, thread. rewrite <- Hmeta. by split_and!.
  - intros Hall.
    destruct (proj2 Hvalid) as [outV HoutV].
    { intros i stateV Hstate. rewrite list_lookup_fmap in Hstate.
      destruct (states !! i) as [state|] eqn:Hs; [|done].
      simpl in Hstate. injection Hstate as <-.
      destruct (Hall i state Hs)
        as (selected & p & t & thread & Hselected & Hp & Ht & Hread
            & Hcategories).
      destruct (Forall2_lookup_l _ _ _ _ _ Hvalues Hp) as (v & Hv & Hreadp).
      destruct (readProfile_lookup _ _ _ _ _ Hreadp Ht)
        as (thread' & Hthread' & Hread').
      assert (thread' = thread) as -> by congruence.
      apply readProfile_Some in Hreadp as [Hmeta _].
      exists selected, v, thread. rewrite Hmeta. by split_and!. }
    rewrite HoutV in Hagree. destruct Hagree as (out & ? & _). eauto.
Qed.

(** X3.  For inputs that are separate objects, remapping keeps the name
    of every category: position by position, the merged category a stack
    or a frame of the pushed thread points to has the name of the input
    category the index pointed to before the call, and a null frame
    category stays null. *)
Theorem remapping_preserves_category_names
  (store : Store) (profiles : list ProfileObject.t)
  (states : list UrlStateObject.t) (out : InPlace.MergeOutput)
  (i : nat) (state : UrlStateObject.t) (inputProfile : ProfileObject.t)
  (selected : nat) (t : ref) (thread : Thread.t) :
  separate store profiles states ->
  InPlace.mergeProfiles store profiles states = Ok out ->
  states !! i = Some state ->
  profiles !! i = Some inputProfile ->
  UrlStateObject.selectedThread state = Some selected ->
  ProfileObject.threads inputProfile !! selected = Some t ->
  readThread store t = Some thread ->
  exists pushed merged,
    ProfileObject.threads (InPlace.profile out) !! i = Some pushed /\
    readThread (InPlace.store out) pushed = Some merged /\
    let before := ProfileMeta.categories (ProfileObject.meta inputProfile) in
    let after :=
      ProfileMeta.categories (ProfileObject.meta (InPlace.profile out)) in
    let sameName := fun old new : nat =>
      exists category first,
        before !! old = Some category /\ after !! new = Some first /\
        Category.name first = Category.name category in
    Forall2 sameName
      (StackTable.category (Thread.stackTable thread))
      (StackTable.category (Thread.stackTable merged)) /\
    Forall2 (fun old new =>
               match old, new with
               | Some old, Some new => sameName old new
               | None, None => True
               | _, _ => False
               end)
      (FrameTable.category (Thread.frameTable thread))
      (FrameTable.category (Thread.frameTable merged)).
Proof.
  intros Hseparate Hmerge Hstate Hprofile Hselected Ht Hthread.
  destruct (separate_values _ _ _ Hseparate) as [values Hvalues].
  destruct (mergeProfiles_agrees_Ok _ _ _ _ _ Hvalues Hseparate Hmerge)
    as (outV & HoutV & Hread & _).
  destruct (Forall2_lookup_l _ _ _ _ _ Hvalues Hprofile) as (v & Hv & Hreadp).
  destruct (readProfile_lookup _ _ _ _ _ Hreadp Ht)
    as (thread' & Hthread' & Hread').
  assert (thread' = thread) as -> by congruence.
  destruct (remapCategories_keeps_names values
              (readUrlState store <$> states) outV i
              (readUrlState store state) v selected thread HoutV)
    as (merged & Hmerged & Hnames); [|done|done|done|].
  { by rewrite list_lookup_fmap, Hstate. }
  pose proof Hread as [Hmeta Hthreads]%readProfile_Some.
  destruct (Forall2_lookup_r _ _ _ _ _ Hthreads Hmerged)
    as (pushed & Hpushed & Hreadm).
  exists pushed, merged. split; [done|]. split; [done|].
  apply readProfile_Some in Hreadp as [Hmetap _].
  rewrite <- Hmeta, <- Hmetap. exact Hnames.
Qed.

End SeparateInputs.

(** ** The sample objects *)

Lemma sample_objects_separate :
  separate SampleObjects.store SampleObjects.profiles
    SampleObjects.states.
Proof.
  split.
  - repeat constructor; by eexists.
  - apply (bool_decide_unpack _). by vm_compute.
  - apply (bool_decide_unpack _). by vm_compute.
  - apply (bool_decide_unpack _). by vm_compute.
  - apply (bool_decide_unpack _). by vm_compute.
Qed.

Lemma sample_objects_values :
  Forall2 (fun p v => readProfile SampleObjects.store p = Some v)
    SampleObjects.profiles Sample.profiles.
Proof. by repeat constructor. Qed.

Lemma sample_objects_merged :
  InPlace.mergeProfiles (PD := SpecProfileData.instance)
    SampleObjects.store SampleObjects.profiles SampleObjects.states
  = Ok SampleObjects.merged.
Proof. vm_compute. reflexivity. Qed.



(** A null selection behind a round that goes through. *)
Lemma null_selection_throws_witness :
  InPlace.mergeProfiles (PD := SpecProfileData.instance)
    SampleObjects.store SampleObjects.profiles
    [SampleObjects.state (Some 0) 0; SampleObjects.state None 2]
  = Throw (NoThreadSelected 1) /\
  errorMessage (NoThreadSelected 1) = "No thread has been selected in profile 1".
Proof.
  destruct (null_selection_throws (PD := SpecProfileData.instance)
              SampleObjects.store SampleObjects.profiles
              [SampleObjects.state (Some 0) 0; SampleObjects.state None 2])
    as (_ & Hnull & _).
  refine (Hnull 1 (SampleObjects.state None 2) _ eq_refl eq_refl _).
  vm_compute. reflexivity.
Defined.

(** The second url state has no selected thread, yet the error raised is
    the [TypeError] of the first round, not the contract error of round 1. *)
Lemma null_selection_behind_failing_round :
  (exists state,
     SampleObjects.staleStates !! 1 = Some state /\
     UrlStateObject.selectedThread state = None) /\
  InPlace.mergeProfiles (PD := SpecProfileData.instance)
    SampleObjects.store SampleObjects.profiles SampleObjects.staleStates
  = Throw (TypeError "thread") /\
  TypeError "thread" <> NoThreadSelected 1.
Proof.
  split_and!; [by eexists|by vm_compute|done].
Qed.

(** The sample inputs are separate objects and the merge returns: the
    thread selected by the second url state has valid categories. *)
Lemma mergeProfiles_succeeds_iff_witness :
  exists t thread,
    ProfileObject.threads SampleObjects.profile2 !! 1 = Some t /\
    readThread SampleObjects.store t = Some thread /\
    validCategories [Sample.catB'; Sample.catC] thread.
Proof.
  destruct (proj1 (mergeProfiles_succeeds_iff
                     (PD := SpecProfileData.instance)
                     (Laws := specProfileData_laws)
                     SampleObjects.store SampleObjects.profiles
                     SampleObjects.states sample_objects_separate)
              (ex_intro _ SampleObjects.merged sample_objects_merged)
              1 (SampleObjects.state (Some 1) 1) eq_refl)
    as (selected & p & t & thread & Hselected & Hp & Ht & Hread & Hvalid).
  injection Hselected as <-. injection Hp as <-.
  by exists t, thread.
Defined.

(** One profile object handed in twice, after a profile with other
    categories: the second round on it remaps the columns that the first
    has rewritten, and the merge throws although every selected thread
    has valid categories. *)
Lemma shared_profile_remapped_twice :
  InPlace.mergeProfiles (PD := SpecProfileData.instance)
    SampleObjects.store SampleObjects.repeatedProfiles
    SampleObjects.repeatedStates
  = Throw (CategoryNotFound 2).
Proof. vm_compute. reflexivity. Qed.

(** The second sample thread: its stacks had the categories Other and
    Layout before the merge, and have them after. *)
Lemma remapping_preserves_category_names_witness :
  exists pushed merged,
    ProfileObject.threads (InPlace.profile SampleObjects.merged) !! 1
      = Some pushed /\
    readThread (InPlace.store SampleObjects.merged) pushed
      = Some merged /\
    StackTable.category (Thread.stackTable merged) = [1; 2] /\
    Forall2 (fun old new =>
               exists category first,
                 [Sample.catB'; Sample.catC] !! old = Some category /\
                 [Sample.catA; Sample.catB; Sample.catC] !! new = Some first /\
                 Category.name first = Category.name category)
      [0; 1] (StackTable.category (Thread.stackTable merged)).
Proof.
  destruct (remapping_preserves_category_names
              (PD := SpecProfileData.instance) (Laws := specProfileData_laws)
              SampleObjects.store SampleObjects.profiles SampleObjects.states
              SampleObjects.merged 1 (SampleObjects.state (Some 1) 1)
              SampleObjects.profile2 1 2
              (Thread.set_unregisterTime (Some 9000%float)
                 (Sample.thread "1234" (Some "") 0 7000%float))
              sample_objects_separate sample_objects_merged
              eq_refl eq_refl eq_refl eq_refl eq_refl)
    as (pushed & merged & Hpushed & Hmerged & Hstack & _).
  exists pushed, merged. split; [exact Hpushed|]. split; [exact Hmerged|].
  split; [|exact Hstack].
  vm_compute in Hpushed. injection Hpushed as <-.
  vm_compute in Hmerged. by injection Hmerged as <-.
Defined.

(** The sample objects read as [Sample.profiles] and [Sample.states], and
    their merge reads as [Sample.merged]. *)
Lemma separate_inputs_merge_as_values_witness :
  readProfile (InPlace.store SampleObjects.merged)
    (InPlace.profile SampleObjects.merged)
  = Some (profile Sample.merged).
Proof.
  destruct (separate_inputs_merge_as_values
              (PD := SpecProfileData.instance) (Laws := specProfileData_laws)
              SampleObjects.store SampleObjects.profiles SampleObjects.states
              Sample.profiles sample_objects_values sample_objects_separate)
    as (_ & Hok & _).
  destruct (Hok SampleObjects.merged sample_objects_merged)
    as (outV & HoutV & Hread & _).
  assert (outV = Sample.merged) as ->; [|exact Hread].
  change (readUrlState SampleObjects.store <$> SampleObjects.states)
    with Sample.states in HoutV.
  rewrite sample_merged in HoutV. by injection HoutV.
Defined.
